(** * Allma RAG backend: splitter, retriever, reranker, conversation cache

    A shallow embedding of the algorithmic core of
    [allma-backend/orchestration/services]:

    - [document_service.py]  ([TextSplitter])
    - [rag_service.py]       ([RAGService])
    - [vector_store_service.py] ([VectorStoreService], in-memory backend)
    - [conversation_service.py] ([ConversationService])

    Python values are modelled as follows.  A [str] is a list of
    characters (code points below 256), an [int] is a [Z], a [float] is an
    element of an abstract ordered arithmetic ([PyFloat]) of which the exact
    rationals are one instance, a [dict] is a [gmap], an [OrderedDict] is an
    association list in insertion order, a [list] is a [list].  Where a
    loop changes objects in place, the objects are kept in a store and a
    list names them by their place in it.  A call that can raise answers
    an option or an outcome that says so.  A loop that the source does
    not bound runs on fuel and answers [None] when the fuel is used
    up. *)

From Stdlib Require Import ZArith List Bool Ascii String QArith Lia.
From Stdlib Require Import Permutation Sorted Lqa.
From stdpp Require Import gmap strings list pretty.

Local Open Scope Z_scope.

(** ** Python strings *)

Abbreviation str := (list ascii).

(** A literal of the source. *)
Definition py (s : string) : str := list_ascii_of_string s.

Module PyStr.

(** [len(s)] *)
Definition len {A} (s : list A) : Z := Z.of_nat (length s).

(** [c.isspace()] on the code points below 256: TAB, LF, VT, FF, CR,
    FS, GS, RS, US, SPACE, NEL and NBSP. *)
Definition isspace (c : ascii) : bool :=
  let n := N.to_nat (N_of_ascii c) in
  ((9 <=? n)%nat && (n <=? 13)%nat)
  || ((28 <=? n)%nat && (n <=? 32)%nat)
  || (n =? 133)%nat || (n =? 160)%nat.

Fixpoint lstrip (s : str) : str :=
  match s with
  | c :: s' => if isspace c then lstrip s' else s
  | [] => []
  end.

Definition rstrip (s : str) : str := rev (lstrip (rev s)).

(** [s.strip()] *)
Definition strip (s : str) : str := rstrip (lstrip s).

(** [s.startswith(p)] *)
Fixpoint startswith (p s : str) : bool :=
  match p, s with
  | [], _ => true
  | a :: p', b :: s' => if decide (a = b) then startswith p' s' else false
  | _ :: _, [] => false
  end.

(** [sub in s] *)
Fixpoint contains (sub s : str) : bool :=
  startswith sub s ||
  match s with
  | [] => false
  | _ :: s' => contains sub s'
  end.

(** [s.split(sep)] for a non-empty [sep]: a left-to-right scan for
    non-overlapping occurrences.  [skip] counts the characters of an
    occurrence still to be passed over, [cur] holds the piece being read,
    most recent character first. *)
Fixpoint split_go (sep : str) (skip : nat) (cur : str) (s : str) : list str :=
  match s with
  | [] => [rev cur]
  | c :: s' =>
      match skip with
      | S k => split_go sep k cur s'
      | O =>
          if startswith sep s
          then rev cur :: split_go sep (length sep - 1) [] s'
          else split_go sep 0 (c :: cur) s'
      end
  end.

Definition split (s sep : str) : list str := split_go sep 0 [] s.

(** [s.split()]: the maximal runs of non-space characters. *)
Fixpoint words_go (cur : str) (s : str) : list str :=
  match s with
  | [] => match cur with [] => [] | _ => [rev cur] end
  | c :: s' =>
      if isspace c
      then match cur with [] => words_go [] s' | _ => rev cur :: words_go [] s' end
      else words_go (c :: cur) s'
  end.

Definition words (s : str) : list str := words_go [] s.

(** [s.find(c)] for a one-character needle: first index, or -1. *)
Fixpoint find_from (i : Z) (c : ascii) (s : str) : Z :=
  match s with
  | [] => -1
  | a :: s' => if decide (a = c) then i else find_from (i + 1) c s'
  end.

Definition find (s : str) (c : ascii) : Z := find_from 0 c s.

(** [s.rfind(c)]: last index, or -1. *)
Fixpoint rfind_from (i : Z) (c : ascii) (s : str) : Z :=
  match s with
  | [] => -1
  | a :: s' =>
      let r := rfind_from (i + 1) c s' in
      if 0 <=? r then r else if decide (a = c) then i else -1
  end.

Definition rfind (s : str) (c : ascii) : Z := rfind_from 0 c s.

(** Python's treatment of a slice bound: a negative bound counts from the
    end, and every bound is clamped into [[0, len]]. *)
Definition bound {A} (s : list A) (i : Z) : nat :=
  let n := len s in
  let j := if i <? 0 then i + n else i in
  Z.to_nat (Z.max 0 (Z.min j n)).

(** [s[lo:hi]] *)
Definition slice {A} (s : list A) (lo hi : Z) : list A :=
  let a := bound s lo in
  let b := bound s hi in
  firstn (b - a) (skipn a s).

(** [s[lo:]] *)
Definition slice_from {A} (s : list A) (lo : Z) : list A :=
  skipn (bound s lo) s.

(** [s[:hi]] *)
Definition slice_to {A} (s : list A) (hi : Z) : list A :=
  firstn (bound s hi) s.

(** [l.insert(i, x)] for [i >= 0]: past the end it appends. *)
Definition insert_at {A} (i : nat) (x : A) (l : list A) : list A :=
  firstn i l ++ x :: skipn i l.

(** [c.lower()] on the code points below 256: A-Z, and the Latin-1
    capitals 192-222 except the multiplication sign 215. *)
Definition lower_char (c : ascii) : ascii :=
  let n := N.to_nat (N_of_ascii c) in
  if ((65 <=? n)%nat && (n <=? 90)%nat)
     || ((192 <=? n)%nat && (n <=? 222)%nat && negb (n =? 215)%nat)
  then ascii_of_N (N.of_nat (n + 32))
  else c.

Definition lower (s : str) : str := map lower_char s.

End PyStr.

(** ** [document_service.py]: [TextSplitter] *)

Record TextSplitter := {
  chunk_size : Z;
  chunk_overlap : Z;
  separators : list str
}.

(** The separators of [TextSplitter.__init__] when none are given. *)
Definition default_separators : list str :=
  [ [ascii_of_nat 10; ascii_of_nat 10]; [ascii_of_nat 10];
    py ". "; py "! "; py "? "; py "; "; py ", "; py " "; py "" ].

Module Splitter.
Import PyStr.

Section WithSplitter.
Variable self : TextSplitter.

(** The overlap taken from the previous chunk in [_apply_overlap]:
    [prev[-chunk_overlap:]] (all of [prev] when it is no longer than the
    overlap), cut after its first space when that space is not its first
    character. *)
Definition overlap_window (prev_chunk : str) : str :=
  if chunk_overlap self <? len prev_chunk
  then slice_from prev_chunk (- chunk_overlap self)
  else prev_chunk.

Definition trim_to_word (overlap_text : str) : str :=
  let space_idx := find overlap_text " " in
  if 0 <? space_idx then slice_from overlap_text (space_idx + 1)
  else overlap_text.

Definition overlap_text (prev_chunk : str) : str :=
  trim_to_word (overlap_window prev_chunk).

(** The loop [for i in range(1, len(chunks))] of [_apply_overlap]. *)
Fixpoint overlap_loop (prev_chunk : str) (rest : list str) : list str :=
  match rest with
  | [] => []
  | curr_chunk :: rest' =>
      (overlap_text prev_chunk ++ py " " ++ curr_chunk)
        :: overlap_loop curr_chunk rest'
  end.

Definition _apply_overlap (chunks : list str) : list str :=
  match chunks with
  | [] => chunks
  | first :: rest =>
      if chunk_overlap self =? 0 then chunks
      else first :: overlap_loop first rest
  end.

(** One iteration of the [while] loop of [_split_by_size]: the chunk
    appended, before [strip], and the end of the window. *)
Definition window (text : str) (start : Z) : str * Z :=
  let end_ := start + chunk_size self in
  let chunk := slice text start end_ in
  if end_ <? len text then
    let last_space := rfind chunk " " in
    if chunk_size self / 2 <? last_space
    then (slice_to chunk last_space, start + last_space)
    else (chunk, end_)
  else (chunk, end_).

Definition next_start (text : str) (start : Z) : Z :=
  snd (window text start) - chunk_overlap self.

Fixpoint split_by_size_loop (fuel : nat) (text : str) (start : Z)
    (chunks : list str) : option (list str) :=
  match fuel with
  | O => None
  | S fuel' =>
      if start <? len text then
        split_by_size_loop fuel' text (next_start text start)
          (chunks ++ [strip (fst (window text start))])
      else Some chunks
  end.

Definition _split_by_size (fuel : nat) (text : str) : option (list str) :=
  split_by_size_loop fuel text 0 [].

(** The [for split in splits] loop of [_split_with_separator], threading
    [chunks] and [current_chunk]; [recurse] is
    [_recursive_split(., remaining_separators)]. *)
Fixpoint separator_loop (recurse : str -> option (list str)) (separator : str)
    (splits : list str) (chunks : list str) (current_chunk : str)
    : option (list str * str) :=
  match splits with
  | [] => Some (chunks, current_chunk)
  | split :: splits' =>
      match strip split with
      | [] => separator_loop recurse separator splits' chunks current_chunk
      | _ :: _ =>
          let potential :=
            match current_chunk with
            | [] => split
            | _ :: _ => current_chunk ++ separator ++ split
            end in
          if len potential <=? chunk_size self
          then separator_loop recurse separator splits' chunks potential
          else
            let chunks1 :=
              match current_chunk with
              | [] => chunks
              | _ :: _ => chunks ++ [strip current_chunk]
              end in
            if chunk_size self <? len split then
              match recurse split with
              | None => None
              | Some sub_chunks =>
                  separator_loop recurse separator splits'
                    (chunks1 ++ sub_chunks) []
              end
            else separator_loop recurse separator splits' chunks1 split
      end
  end.

Definition _split_with_separator (recurse : str -> option (list str))
    (text separator : str) : option (list str) :=
  match separator_loop recurse separator (split text separator) [] [] with
  | None => None
  | Some (chunks, current_chunk) =>
      Some (_apply_overlap
              match strip current_chunk with
              | [] => chunks
              | last :: more => chunks ++ [last :: more]
              end)
  end.

(** The [for sep in separators] loop of [_recursive_split]; every
    separator is tried with the same [remaining_separators]. *)
Fixpoint try_separators (recurse : str -> option (list str))
    (fallback : option (list str)) (text : str) (seps : list str)
    : option (list str) :=
  match seps with
  | [] => fallback
  | sep :: seps' =>
      match sep with
      | _ :: _ =>
          if contains sep text then
            match _split_with_separator recurse text sep with
            | None => None
            | Some (c :: chunks) => Some (c :: chunks)
            | Some [] => try_separators recurse fallback text seps'
            end
          else try_separators recurse fallback text seps'
      | [] => try_separators recurse fallback text seps'
      end
  end.

(** [_recursive_split(text, separators)]; the recursive calls are made on
    [separators[1:]]. *)
Fixpoint _recursive_split (fuel : nat) (separators : list str) (text : str)
    {struct separators} : option (list str) :=
  match text with
  | [] => Some []
  | _ :: _ =>
      if len text <=? chunk_size self then
        Some match strip text with
             | [] => []
             | c :: s => [c :: s]
             end
      else
        let recurse :=
          match separators with
          | [] => fun _ => Some []
          | _ :: remaining => _recursive_split fuel remaining
          end in
        try_separators recurse (_split_by_size fuel text) text separators
  end.

Definition split_text (fuel : nat) (text : str) : option (list str) :=
  _recursive_split fuel (separators self) text.

End WithSplitter.
End Splitter.

(** ** Python floats

    The services add, multiply and compare floats.  The operations are
    kept abstract.  A float is a [number] when it compares with itself,
    which is every IEEE double but NaN.  [PyFloatLaws] lists the order
    and monotonicity facts the proofs use; they are stated so as to hold
    of the IEEE doubles, NaN and the infinities included, and of the
    exact rationals. *)

Class PyFloat (F : Type) := {
  of_int : Z -> F;
  fadd : F -> F -> F;
  fsub : F -> F -> F;
  fmul : F -> F -> F;
  flt : F -> F -> bool;
  fle : F -> F -> bool;
  lit_1_3 : F;
  lit_0_05 : F;
  lit_0_2 : F;
  lit_1_0 : F
}.

(** [x <= x]: false of NaN alone. *)
Definition number {F : Type} `{PyFloat F} (x : F) : Prop := fle x x = true.

Class PyFloatLaws (F : Type) `{PyFloat F} : Prop := {
  fle_numbers : forall a b : F, fle a b = true -> number a /\ number b;
  fle_flt : forall a b : F,
    number a -> number b -> fle a b = negb (flt b a);
  flt_asym : forall a b : F, flt a b = true -> flt b a = false;
  flt_negtrans : forall a b c : F,
    number b -> flt a b = false -> flt b c = false -> flt a c = false;
  fadd_bonus : forall a b : F,
    number a -> fle (of_int 0) b = true -> fle b lit_0_2 = true ->
    fle a (fadd a b) = true;
  fmul_0_05_nonneg : forall n : Z,
    0 <= n -> fle (of_int 0) (fmul (of_int n) lit_0_05) = true;
  lit_0_2_nonneg : fle (of_int 0) lit_0_2 = true;
  lit_1_0_number : number lit_1_0
}.

(** [min(a, b)]: the first of the smallest arguments. *)
Definition fmin {F} `{PyFloat F} (a b : F) : F := if flt b a then b else a.

(** The exact rationals. *)
#[export] Instance Q_float : PyFloat Q := {|
  of_int := inject_Z;
  fadd := Qplus;
  fsub := Qminus;
  fmul := Qmult;
  flt := fun a b => negb (Qle_bool b a);
  fle := Qle_bool;
  lit_1_3 := 13 # 10;
  lit_0_05 := 5 # 100;
  lit_0_2 := 2 # 10;
  lit_1_0 := 1 # 1
|}.

(** ** An [OrderedDict] as an association list in insertion order *)

Module OD.
Section WithTypes.
Context {K V : Type} `{EqDecision K}.

Definition t := list (K * V).

Definition keys (d : t) : list K := map fst d.

(** [d.get(k)] *)
Fixpoint get (k : K) (d : t) : option V :=
  match d with
  | [] => None
  | (k', v) :: d' => if decide (k' = k) then Some v else get k d'
  end.

(** [k in d] *)
Definition mem (k : K) (d : t) : bool :=
  match get k d with Some _ => true | None => false end.

(** [d.pop(k, None)] *)
Fixpoint pop (k : K) (d : t) : t :=
  match d with
  | [] => []
  | (k', v) :: d' => if decide (k' = k) then d' else (k', v) :: pop k d'
  end.

(** [d[k] = v]: an existing key keeps its place. *)
Fixpoint set (k : K) (v : V) (d : t) : t :=
  match d with
  | [] => [(k, v)]
  | (k', v') :: d' =>
      if decide (k' = k) then (k, v) :: d' else (k', v') :: set k v d'
  end.

(** [d.move_to_end(k)] for a key of [d]. *)
Definition move_to_end (k : K) (d : t) : t :=
  match get k d with
  | Some v => pop k d ++ [(k, v)]
  | None => d
  end.

End WithTypes.
End OD.

(** ** [conversation_service.py] *)

Module Conversation.
Import PyStr.

(** [ChatMessage] and [ConversationContext] of [models/schemas.py]; a
    timestamp is a number. *)
Record ChatMessage := {
  role : str;
  content : str;
  timestamp : Z
}.

Record ConversationContext := {
  id : str;
  messages : list ChatMessage;
  metadata : gmap str str;
  created_at : Z
}.

Section WithFloat.
Context {F : Type} `{PyFloat F}.

Record ConversationStats := {
  message_count : Z;
  user_messages : Z;
  assistant_messages : Z;
  total_tokens_estimate : F;
  started_at : option Z;
  last_activity : option Z
}.

Record ConversationService := {
  max_conversations : Z;
  max_messages : Z;
  ttl_hours : Z;
  _conversations : list (str * ConversationContext);
  _stats : gmap str ConversationStats
}.

(** [ConversationService(max_conversations, max_messages_per_conversation,
    conversation_ttl_hours)] *)
Definition init (max_conversations max_messages_per_conversation
                   conversation_ttl_hours : Z) : ConversationService :=
  {| max_conversations := max_conversations;
     max_messages := max_messages_per_conversation;
     ttl_hours := conversation_ttl_hours;
     _conversations := [];
     _stats := ∅ |}.

Definition with_state (self : ConversationService)
    (convs : list (str * ConversationContext))
    (stats : gmap str ConversationStats) : ConversationService :=
  {| max_conversations := max_conversations self;
     max_messages := max_messages self;
     ttl_hours := ttl_hours self;
     _conversations := convs;
     _stats := stats |}.

(** [_evict_conversation] *)
Definition _evict_conversation (self : ConversationService)
    (conversation_id : str) : ConversationService :=
  with_state self (OD.pop conversation_id (_conversations self))
    (delete conversation_id (_stats self)).

(** The loop [while len(self._conversations) >= self.max_conversations] of
    [create_conversation].  [next(iter(d))] is the first key of [d], and
    evicting that key removes the first entry; on an empty dictionary
    [next] raises StopIteration, which is the answer [None]. *)
Fixpoint evict_oldest (max : Z) (convs : list (str * ConversationContext))
    (stats : gmap str ConversationStats)
    : option (list (str * ConversationContext) * gmap str ConversationStats) :=
  match convs with
  | [] => if max <=? 0 then None else Some ([], stats)
  | (oldest_id, _) :: rest =>
      if max <=? len convs
      then evict_oldest max rest (delete oldest_id stats)
      else Some (convs, stats)
  end.

(** [create_conversation]; [now] is [datetime.utcnow()]. *)
Definition create_conversation (self : ConversationService)
    (conversation_id : str) (metadata : gmap str str) (now : Z)
    : option (ConversationContext * ConversationService) :=
  match evict_oldest (max_conversations self) (_conversations self)
          (_stats self) with
  | None => None
  | Some (convs, stats) =>
      let context :=
        {| id := conversation_id; messages := []; metadata := metadata;
           created_at := now |} in
      Some (context,
            with_state self (OD.set conversation_id context convs)
              (<[conversation_id :=
                   {| message_count := 0; user_messages := 0;
                      assistant_messages := 0;
                      total_tokens_estimate := of_int 0;
                      started_at := Some now;
                      last_activity := Some now |}]> stats))
  end.

Definition touch (now : Z) (s : ConversationStats) : ConversationStats :=
  {| message_count := message_count s;
     user_messages := user_messages s;
     assistant_messages := assistant_messages s;
     total_tokens_estimate := total_tokens_estimate s;
     started_at := started_at s;
     last_activity := Some now |}.

(** [get_conversation] *)
Definition get_conversation (self : ConversationService)
    (conversation_id : str) (now : Z)
    : option ConversationContext * ConversationService :=
  match OD.get conversation_id (_conversations self) with
  | None => (None, self)
  | Some context =>
      (Some context,
       with_state self (OD.move_to_end conversation_id (_conversations self))
         (alter (touch now) conversation_id (_stats self)))
  end.

(** [get_or_create] *)
Definition get_or_create (self : ConversationService)
    (conversation_id : str) (metadata : gmap str str) (now : Z)
    : option (ConversationContext * ConversationService) :=
  match get_conversation self conversation_id now with
  | (Some context, self') => Some (context, self')
  | (None, self') => create_conversation self' conversation_id metadata now
  end.

(** The rough token estimate [len(content.split()) * 1.3]. *)
Definition estimate (content : str) : F :=
  fmul (of_int (len (words content))) lit_1_3.

Definition is_system (m : ChatMessage) : bool :=
  bool_decide (role m = py "system").

(** The trimming step of [add_message]. *)
Definition trim_messages (max_messages : Z) (msgs : list ChatMessage)
    : list ChatMessage :=
  if max_messages <=? len msgs then
    let system_msgs := filter (fun m => is_system m = true) msgs in
    let other_msgs := filter (fun m => is_system m = false) msgs in
    let keep_count := max_messages - len system_msgs - 1 in
    system_msgs ++ slice_from other_msgs (- keep_count)
  else msgs.

Definition count_message (message : ChatMessage) (now : Z)
    (s : ConversationStats) : ConversationStats :=
  {| message_count := message_count s + 1;
     user_messages :=
       if bool_decide (role message = py "user")
       then user_messages s + 1 else user_messages s;
     assistant_messages :=
       if bool_decide (role message = py "user") then assistant_messages s
       else if bool_decide (role message = py "assistant")
            then assistant_messages s + 1 else assistant_messages s;
     total_tokens_estimate :=
       fadd (total_tokens_estimate s) (estimate (content message));
     started_at := started_at s;
     last_activity := Some now |}.

Definition with_messages (c : ConversationContext)
    (msgs : list ChatMessage) : ConversationContext :=
  {| id := id c; messages := msgs; metadata := metadata c;
     created_at := created_at c |}.

(** [add_message] *)
Definition add_message (self : ConversationService) (conversation_id : str)
    (message : ChatMessage) (now : Z) : bool * ConversationService :=
  match get_conversation self conversation_id now with
  | (None, self') => (false, self')
  | (Some context, self') =>
      let msgs :=
        trim_messages (max_messages self') (messages context) ++ [message] in
      (true,
       with_state self'
         (OD.set conversation_id (with_messages context msgs)
            (_conversations self'))
         (alter (count_message message now) conversation_id (_stats self')))
  end.

(** [set_system_message]; the new system message is stamped [now]. *)
Definition set_system_message (self : ConversationService)
    (conversation_id : str) (content : str) (now : Z)
    : bool * ConversationService :=
  match get_conversation self conversation_id now with
  | (None, self') => (false, self')
  | (Some context, self') =>
      let others :=
        filter (fun m => is_system m = false) (messages context) in
      let system_msg :=
        {| role := py "system"; content := content; timestamp := now |} in
      (true,
       with_state self'
         (OD.set conversation_id
            (with_messages context (insert_at 0 system_msg others))
            (_conversations self'))
         (_stats self'))
  end.

(** A message as handed to the LLM API: [{"role": .., "content": ..}]. *)
Definition llm_dict (m : ChatMessage) : str * str := (role m, content m).

(** The first loop of [get_context_for_llm]: the first system message, if
    any, with its estimate. *)
Fixpoint first_system (msgs : list ChatMessage) : option ChatMessage :=
  match msgs with
  | [] => None
  | msg :: msgs' => if is_system msg then Some msg else first_system msgs'
  end.

(** The second loop, over [reversed(other_msgs)]. *)
Fixpoint budget_loop (max_tokens : Z) (reversed_msgs : list ChatMessage)
    (messages : list (str * str)) (token_count : F)
    : list (str * str) * F :=
  match reversed_msgs with
  | [] => (messages, token_count)
  | msg :: rest =>
      let msg_tokens := estimate (content msg) in
      if flt (of_int max_tokens) (fadd token_count msg_tokens)
      then (messages, token_count)
      else budget_loop max_tokens rest
             (insert_at 1 (llm_dict msg) messages)
             (fadd token_count msg_tokens)
  end.

(** The body of [get_context_for_llm] on the messages of the
    conversation: the list returned and the final [token_count]. *)
Definition context_for_llm (msgs : list ChatMessage) (max_tokens : Z)
    : list (str * str) * F :=
  let '(messages, token_count) :=
    match first_system msgs with
    | Some msg => ([llm_dict msg], fadd (of_int 0) (estimate (content msg)))
    | None => ([], of_int 0)
    end in
  let other_msgs := filter (fun m => is_system m = false) msgs in
  budget_loop max_tokens (rev other_msgs) messages token_count.

(** [get_context_for_llm] *)
Definition get_context_for_llm (self : ConversationService)
    (conversation_id : str) (max_tokens : Z) (now : Z)
    : list (str * str) * ConversationService :=
  match get_conversation self conversation_id now with
  | (None, self') => ([], self')
  | (Some context, self') =>
      (fst (context_for_llm (messages context) max_tokens), self')
  end.

(** [get_messages]; [if limit:] takes [None] and 0 alike. *)
Definition get_messages (self : ConversationService) (conversation_id : str)
    (limit : option Z) (include_system : bool) (now : Z)
    : list ChatMessage * ConversationService :=
  match get_conversation self conversation_id now with
  | (None, self') => ([], self')
  | (Some context, self') =>
      let msgs := messages context in
      let msgs :=
        if include_system then msgs
        else filter (fun m => is_system m = false) msgs in
      let msgs :=
        match limit with
        | Some n => if n =? 0 then msgs else slice_from msgs (- n)
        | None => msgs
        end in
      (msgs, self')
  end.

(** [clear_history] *)
Definition clear_history (self : ConversationService) (conversation_id : str)
    (keep_system : bool) (now : Z) : bool * ConversationService :=
  match get_conversation self conversation_id now with
  | (None, self') => (false, self')
  | (Some context, self') =>
      let msgs :=
        if keep_system
        then filter (fun m => is_system m = true) (messages context)
        else [] in
      (true,
       with_state self'
         (OD.set conversation_id (with_messages context msgs)
            (_conversations self'))
         (_stats self'))
  end.

(** [delete_conversation] *)
Definition delete_conversation (self : ConversationService)
    (conversation_id : str) : bool * ConversationService :=
  if OD.mem conversation_id (_conversations self)
  then (true, _evict_conversation self conversation_id)
  else (false, self).

(** [ConversationStats()] *)
Definition default_stats : ConversationStats :=
  {| message_count := 0; user_messages := 0; assistant_messages := 0;
     total_tokens_estimate := of_int 0; started_at := None;
     last_activity := None |}.

(** One entry of [list_conversations]. *)
Record Summary := {
  summary_id : str;
  summary_message_count : Z;
  summary_created_at : Z;
  summary_last_activity : option Z;
  summary_metadata : gmap str str
}.

(** The loop of [list_conversations] over [reversed(items())]; it breaks
    once [limit] is not 0 and the summaries number at least [limit]. *)
Fixpoint list_loop (stats : gmap str ConversationStats) (limit : option Z)
    (items : list (str * ConversationContext)) (summaries : list Summary)
    : list Summary :=
  match items with
  | [] => summaries
  | (conv_id, context) :: items' =>
      let s := default default_stats (stats !! conv_id) in
      let summaries' :=
        summaries ++
        [ {| summary_id := conv_id;
             summary_message_count := len (messages context);
             summary_created_at := created_at context;
             summary_last_activity := last_activity s;
             summary_metadata := metadata context |} ] in
      match limit with
      | Some n =>
          if negb (n =? 0) && (n <=? len summaries') then summaries'
          else list_loop stats limit items' summaries'
      | None => list_loop stats limit items' summaries'
      end
  end.

(** [list_conversations] *)
Definition list_conversations (self : ConversationService)
    (limit : option Z) : list Summary :=
  list_loop (_stats self) limit (rev (_conversations self)) [].

(** [get_stats] *)
Definition get_stats (self : ConversationService) (conversation_id : str)
    : option ConversationStats :=
  _stats self !! conversation_id.

(** The test of [cleanup_expired]; timestamps count seconds. *)
Definition is_expired (cutoff : Z) (s : ConversationStats) : bool :=
  match last_activity s with
  | Some t => t <? cutoff
  | None => false
  end.

(** [cleanup_expired] *)
Definition cleanup_expired (self : ConversationService) (now : Z)
    : Z * ConversationService :=
  let cutoff := now - ttl_hours self * 3600 in
  let expired :=
    (map_to_list
       (filter (fun kv => is_expired cutoff kv.2 = true) (_stats self))).*1 in
  (len expired, foldl _evict_conversation self expired).

(** The dictionary [export_conversation] answers. *)
Record Exported := {
  exported_id : str;
  exported_messages : list (str * str * Z);
  exported_metadata : gmap str str;
  exported_created_at : Z;
  exported_message_count : Z;
  exported_user_messages : Z;
  exported_assistant_messages : Z
}.

(** [export_conversation] *)
Definition export_conversation (self : ConversationService)
    (conversation_id : str) (now : Z)
    : option Exported * ConversationService :=
  match get_conversation self conversation_id now with
  | (None, self') => (None, self')
  | (Some context, self') =>
      let stats := default default_stats (_stats self' !! conversation_id) in
      (Some {| exported_id := id context;
               exported_messages :=
                 map (fun m => (role m, content m, timestamp m))
                   (messages context);
               exported_metadata := metadata context;
               exported_created_at := created_at context;
               exported_message_count := message_count stats;
               exported_user_messages := user_messages stats;
               exported_assistant_messages := assistant_messages stats |},
       self')
  end.

(** The loop of [import_conversation]: one [add_message] per entry, each
    message stamped [now]. *)
Definition add_imported (conversation_id : str) (now : Z)
    (self : ConversationService) (msg_data : str * str * Z)
    : ConversationService :=
  snd (add_message self conversation_id
         {| role := msg_data.1.1; content := msg_data.1.2;
            timestamp := now |} now).

(** [import_conversation] on exported data.  When [create_conversation]
    raises, its loop has evicted every conversation; the exception is
    caught and the answer is [None]. *)
Definition import_conversation (self : ConversationService) (data : Exported)
    (now : Z) : option ConversationContext * ConversationService :=
  match create_conversation self (exported_id data) (exported_metadata data)
          now with
  | None =>
      (None, foldl _evict_conversation self (OD.keys (_conversations self)))
  | Some (_, self') =>
      let self'' :=
        foldl (add_imported (exported_id data) now) self'
          (exported_messages data) in
      (OD.get (exported_id data) (_conversations self''), self'')
  end.

End WithFloat.

Arguments ConversationStats : clear implicits.
Arguments ConversationService : clear implicits.

End Conversation.

(** ** [vector_store_service.py] *)

Module VectorStore.
Import PyStr.

(** A metadata value is a string or an integer. *)
Inductive MetaVal := MStr (s : str) | MInt (n : Z).

(** [DocumentChunk] of [models/schemas.py]. *)
Record DocumentChunk {F : Type} := {
  content : str;
  source : str;
  chunk_index : Z;
  id : option str;
  embedding : option (list F);
  score : F;
  metadata : option (gmap str MetaVal)
}.
Arguments DocumentChunk : clear implicits.

Section WithFloat.
Context {F : Type} `{PyFloat F}.

(** [ChromaDBBackend] on its in-memory fallback ([_collection] is
    [None]): three dictionaries keyed by document id. *)
Record ChromaDBBackend := {
  _documents : gmap str str;
  _embeddings : gmap str (list F);
  _metadatas : gmap str (gmap str MetaVal)
}.

Record VectorStoreService := {
  _backend : ChromaDBBackend;
  _initialized : bool
}.

(** One entry of the list a backend search answers. *)
Record Hit := {
  hit_id : str;
  hit_content : str;
  hit_metadata : gmap str MetaVal;
  hit_distance : F
}.

(** The fallback as a call of [ChromaDBBackend.add] leaves it: [Added]
    when the call returns, [AddIndexError] when one of the three lists
    is too short for the ids and the call raises midway. *)
Inductive AddOutcome :=
| Added (b : ChromaDBBackend)
| AddIndexError (b : ChromaDBBackend).

(** [ChromaDBBackend.add] on the fallback: the loop
    [for i, doc_id in enumerate(ids)] from the index [i] on, with its
    three assignments, each of which reads its list at [i]. *)
Fixpoint backend_add_from (b : ChromaDBBackend) (embeddings : list (list F))
    (documents : list str) (metadatas : list (gmap str MetaVal))
    (i : nat) (ids : list str) : AddOutcome :=
  match ids with
  | [] => Added b
  | doc_id :: ids' =>
      match documents !! i with
      | None => AddIndexError b
      | Some doc =>
          let b1 :=
            {| _documents := <[doc_id := doc]> (_documents b);
               _embeddings := _embeddings b;
               _metadatas := _metadatas b |} in
          match embeddings !! i with
          | None => AddIndexError b1
          | Some emb =>
              let b2 :=
                {| _documents := _documents b1;
                   _embeddings := <[doc_id := emb]> (_embeddings b1);
                   _metadatas := _metadatas b1 |} in
              match metadatas !! i with
              | None => AddIndexError b2
              | Some md =>
                  backend_add_from
                    {| _documents := _documents b2;
                       _embeddings := _embeddings b2;
                       _metadatas := <[doc_id := md]> (_metadatas b2) |}
                    embeddings documents metadatas (S i) ids'
              end
          end
      end
  end.

Definition backend_add (b : ChromaDBBackend) (embeddings : list (list F))
    (documents : list str) (metadatas : list (gmap str MetaVal))
    (ids : list str) : AddOutcome :=
  backend_add_from b embeddings documents metadatas 0 ids.

(** [ChromaDBBackend.delete] on the fallback; [None] is the KeyError of
    [del self._embeddings[doc_id]] on an id that has a document and no
    vector. *)
Fixpoint backend_delete (b : ChromaDBBackend) (ids : list str)
    (deleted : Z) : option (Z * ChromaDBBackend) :=
  match ids with
  | [] => Some (deleted, b)
  | doc_id :: ids' =>
      match _documents b !! doc_id with
      | Some _ =>
          match _embeddings b !! doc_id with
          | Some _ =>
              backend_delete
                {| _documents := delete doc_id (_documents b);
                   _embeddings := delete doc_id (_embeddings b);
                   _metadatas := delete doc_id (_metadatas b) |}
                ids' (deleted + 1)
          | None => None
          end
      | None => backend_delete b ids' deleted
      end
  end.

(** [ChromaDBBackend.count] *)
Definition backend_count (b : ChromaDBBackend) : Z :=
  Z.of_nat (size (_documents b)).

(** The nearest-neighbour search of the backend (cosine similarity over
    the stored vectors) is taken as given. *)
Variable backend_search :
  ChromaDBBackend -> list F -> Z -> option (gmap str MetaVal) -> list Hit.

(** [VectorStoreService.search]: a hit becomes a chunk whose score is
    [1.0 - distance]. *)
Definition chunk_of_hit (h : Hit) : DocumentChunk F :=
  {| content := hit_content h;
     source :=
       match hit_metadata h !! py "source" with
       | Some (MStr s) => s
       | _ => py "unknown"
       end;
     chunk_index :=
       match hit_metadata h !! py "chunk_index" with
       | Some (MInt n) => n
       | _ => 0
       end;
     id := Some (hit_id h);
     embedding := None;
     score := fsub lit_1_0 (hit_distance h);
     metadata := Some (hit_metadata h) |}.

Definition search (self : VectorStoreService) (query_embedding : list F)
    (top_k : Z) (filter_metadata : option (gmap str MetaVal))
    : list (DocumentChunk F) :=
  map chunk_of_hit
    (backend_search (_backend self) query_embedding top_k filter_metadata).

(** The draws of [uuid4()], numbered as they are made. *)
Variable uuid4 : nat -> str.

(** [bool(chunk.embedding)]: there is a vector and it is not empty. *)
Definition has_embedding (chunk : DocumentChunk F) : bool :=
  match embedding chunk with
  | Some (_ :: _) => true
  | _ => false
  end.

(** The metadata [add_chunks] stores:
    [{"source": .., "chunk_index": .., **(chunk.metadata or {})}]. *)
Definition stored_metadata (chunk : DocumentChunk F) : gmap str MetaVal :=
  default ∅ (metadata chunk)
  ∪ {[ py "source" := MStr (source chunk);
       py "chunk_index" := MInt (chunk_index chunk) ]}.

(** [[chunk.id or str(uuid4()) for chunk in chunks if chunk.embedding]]
    over the chunks kept; [draws] counts the ids drawn so far. *)
Fixpoint chunk_ids (draws : nat) (kept : list (DocumentChunk F))
    : list str :=
  match kept with
  | [] => []
  | chunk :: kept' =>
      match id chunk with
      | Some (a :: i) => (a :: i) :: chunk_ids draws kept'
      | _ => uuid4 draws :: chunk_ids (S draws) kept'
      end
  end.

(** [VectorStoreService.add_chunks]; [None] when the backend raises. *)
Definition add_chunks (self : VectorStoreService)
    (chunks : list (DocumentChunk F)) : option VectorStoreService :=
  match chunks with
  | [] => Some self
  | _ :: _ =>
      let kept := filter (fun chunk => has_embedding chunk = true) chunks in
      let embeddings := map (fun chunk => default [] (embedding chunk)) kept in
      let documents := map content kept in
      let metadatas := map stored_metadata kept in
      let ids := chunk_ids 0 kept in
      match backend_add (_backend self) embeddings documents metadatas ids with
      | Added b =>
          Some {| _backend := b; _initialized := _initialized self |}
      | AddIndexError _ => None
      end
  end.

(** The entry a search answers for a stored id, at a given distance. *)
Definition stored_hit (b : ChromaDBBackend) (doc_id : str) (distance : F)
    : option Hit :=
  match _documents b !! doc_id with
  | Some doc =>
      Some {| hit_id := doc_id; hit_content := doc;
              hit_metadata := default ∅ (_metadatas b !! doc_id);
              hit_distance := distance |}
  | None => None
  end.

(** [VectorStoreService.delete_by_metadata]: logs a warning and
    answers 0. *)
Definition delete_by_metadata (self : VectorStoreService)
    (metadata : gmap str MetaVal) : Z * VectorStoreService :=
  (0, self).

End WithFloat.

Arguments ChromaDBBackend : clear implicits.
Arguments VectorStoreService : clear implicits.
Arguments Hit : clear implicits.
Arguments AddOutcome : clear implicits.

End VectorStore.

(** ** [rag_service.py] *)

Module Rag.
Import PyStr VectorStore.

Section WithFloat.
Context {F : Type} `{PyFloat F}.

Record RAGConfig := {
  top_k_results : Z;
  similarity_threshold : F;
  rerank_enabled : bool
}.

Record RAGService := {
  config : RAGConfig;
  vector_store : VectorStoreService F;
  _embedding_cache : gmap Z (list F);
  _cache_max_size : Z
}.

Record RAGContext := {
  query : str;
  chunks : list (DocumentChunk F);
  sources : gset str;
  chunks_retrieved : Z;
  chunks_returned : Z
}.

(** Python's built-in [hash] on strings, the embeddings call of the
    Ollama client ([None] when it raises) and the backend search. *)
Variable hash : str -> Z.
Variable embeddings : str -> option (list F).
Variable backend_search :
  ChromaDBBackend F -> list F -> Z -> option (gmap str MetaVal)
  -> list (Hit F).

Definition with_cache (self : RAGService) (cache : gmap Z (list F))
    : RAGService :=
  {| config := config self; vector_store := vector_store self;
     _embedding_cache := cache; _cache_max_size := _cache_max_size self |}.

(** [_generate_embedding] *)
Definition _generate_embedding (self : RAGService) (text : str)
    : option (list F * RAGService) :=
  let cache_key := hash text in
  match _embedding_cache self !! cache_key with
  | Some cached => Some (cached, self)
  | None =>
      match embeddings text with
      | None => None
      | Some embedding =>
          if Z.of_nat (size (_embedding_cache self)) <? _cache_max_size self
          then Some (embedding,
                     with_cache self
                       (<[cache_key := embedding]> (_embedding_cache self)))
          else Some (embedding, self)
      end
  end.

(** [clear_cache] *)
Definition clear_cache (self : RAGService) : RAGService :=
  with_cache self ∅.

(** [set(s.lower().split())] *)
Definition terms (s : str) : gset str := list_to_set (words (lower s)).

Definition with_score (c : DocumentChunk F) (s : F) : DocumentChunk F :=
  {| content := content c; source := source c;
     chunk_index := chunk_index c; id := id c; embedding := embedding c;
     score := s; metadata := metadata c |}.

(** The body of the loop of [_rerank_results]. *)
Definition overlap (query_terms : gset str) (chunk : DocumentChunk F) : Z :=
  Z.of_nat (size (query_terms ∩ terms (content chunk))).

Definition keyword_bonus (overlap : Z) : F :=
  fmin (fmul (of_int overlap) lit_0_05) lit_0_2.

Definition rescore (query_terms : gset str) (chunk : DocumentChunk F)
    : DocumentChunk F :=
  let base_score := score chunk in
  with_score chunk
    (fmin (fadd base_score (keyword_bonus (overlap query_terms chunk)))
       lit_1_0).

(** [list.sort(key=key, reverse=True)].  CPython keeps the sort stable
    under [reverse=True] by reversing the list, sorting it stably in
    ascending order with [<], and reversing the result; the ascending
    sort is modelled by stable insertion.  This is the arrangement
    CPython gives when every key is a number; how it arranges keys that
    do not compare (a NaN) is not modelled. *)
Fixpoint insert_asc {A : Type} (key : A -> F) (x : A) (l : list A) : list A :=
  match l with
  | [] => [x]
  | y :: l' =>
      if flt (key y) (key x) then y :: insert_asc key x l'
      else x :: y :: l'
  end.

Definition sort_asc {A : Type} (key : A -> F) (l : list A) : list A :=
  foldr (insert_asc key) [] l.

Definition sort_by_key_reverse {A : Type} (key : A -> F) (l : list A)
    : list A :=
  rev (sort_asc key (rev l)).

(** The chunks are objects that the loop of [_rerank_results] changes in
    place.  [store] holds the objects, and a list of chunks names them
    by their place in the store, so that one object can stand in a list
    more than once. *)
#[global] Instance DocumentChunk_inhabited : Inhabited (DocumentChunk F) :=
  populate {| content := []; source := []; chunk_index := 0; id := None;
              embedding := None; score := of_int 0; metadata := None |}.

(** The loop [for chunk in results: chunk.score = ...]. *)
Definition rescore_loop (query_terms : gset str)
    (store : list (DocumentChunk F)) (results : list nat)
    : list (DocumentChunk F) :=
  foldl (fun store ref => alter (rescore query_terms) ref store) store
    results.

(** [_rerank_results]: the list it answers, and the objects as it leaves
    them. *)
Definition _rerank_results (query : str) (store : list (DocumentChunk F))
    (results : list nat) : list nat * list (DocumentChunk F) :=
  let query_terms := terms query in
  let store := rescore_loop query_terms store results in
  (sort_by_key_reverse (fun ref => score (store !!! ref)) results, store).

(** [top_k or self.config.top_k_results] *)
Definition effective_k (self : RAGService) (top_k : option Z) : Z :=
  match top_k with
  | Some n => if n =? 0 then top_k_results (config self) else n
  | None => top_k_results (config self)
  end.

(** Steps 3 and 4 of [retrieve_context].  The chunks that
    [VectorStoreService.search] answers are new objects, one for each
    hit: they make up the store, and the list names them 0, 1, ... *)
Definition rerank_step (self : RAGService) (query : str)
    (results : list (DocumentChunk F)) : list (DocumentChunk F) :=
  match results with
  | _ :: _ =>
      if rerank_enabled (config self) then
        let '(reranked, store) :=
          _rerank_results query results (seq 0 (length results)) in
        map (fun ref => store !!! ref) reranked
      else results
  | [] => results
  end.

Definition threshold_filter (self : RAGService)
    (results : list (DocumentChunk F)) : list (DocumentChunk F) :=
  filter (fun r => fle (similarity_threshold (config self)) (score r) = true)
    results.

(** [retrieve_context]; the timings of the metrics are left out. *)
Definition retrieve_context (self : RAGService) (query : str)
    (top_k : option Z) (filter_metadata : option (gmap str MetaVal))
    : option (RAGContext * RAGService) :=
  let k := effective_k self top_k in
  match _generate_embedding self query with
  | None => None
  | Some (query_embedding, self') =>
      let results :=
        search backend_search (vector_store self') query_embedding (k * 2)
          filter_metadata in
      let results := rerank_step self' query results in
      let filtered_results := slice_to (threshold_filter self' results) k in
      Some ({| query := query;
               chunks := filtered_results;
               sources := list_to_set (map source filtered_results);
               chunks_retrieved := len results;
               chunks_returned := len filtered_results |},
            self')
  end.

(** [delete_by_source] *)
Definition delete_by_source (self : RAGService) (source : str)
    : Z * RAGService :=
  let '(n, vs) :=
    delete_by_metadata (vector_store self)
      {[ py "source" := MStr source ]} in
  (n,
   {| config := config self; vector_store := vs;
      _embedding_cache := _embedding_cache self;
      _cache_max_size := _cache_max_size self |}).

End WithFloat.

Arguments RAGConfig : clear implicits.
Arguments RAGService : clear implicits.
Arguments RAGContext : clear implicits.

End Rag.

(** ** [document_service.py]: [DocumentService] *)

Module Document.
Import PyStr VectorStore.

(** [re.sub(r'\s+', ' ', text)]: every maximal run of whitespace becomes
    one space; [in_run] tells that the run has been answered already. *)
Fixpoint collapse_spaces (in_run : bool) (s : str) : str :=
  match s with
  | [] => []
  | c :: s' =>
      if isspace c
      then if in_run then collapse_spaces true s'
           else " "%char :: collapse_spaces true s'
      else c :: collapse_spaces false s'
  end.

(** [sep.join(pieces)] *)
Fixpoint join (sep : str) (pieces : list str) : str :=
  match pieces with
  | [] => []
  | [piece] => piece
  | piece :: pieces' => piece ++ sep ++ join sep pieces'
  end.

(** [s.replace(old, new)] for a non-empty [old]: the occurrences found
    from the left, without overlap, as [split] finds them. *)
Definition replace (s old new : str) : str := join new (split s old).

Definition NUL : ascii := ascii_of_nat 0.
Definition LF : ascii := ascii_of_nat 10.
Definition CR : ascii := ascii_of_nat 13.

(** [re.sub(r'\n{3,}', '\n\n', text)]: [run] counts the line breaks read
    and not yet answered; three or more are answered as two. *)
Definition line_breaks (run : nat) : str :=
  repeat LF (if (3 <=? run)%nat then 2%nat else run).

Fixpoint squeeze_newlines (run : nat) (s : str) : str :=
  match s with
  | [] => line_breaks run
  | c :: s' =>
      if decide (c = LF) then squeeze_newlines (S run) s'
      else line_breaks run ++ c :: squeeze_newlines 0 s'
  end.

(** [_clean_text] *)
Definition _clean_text (text : str) : str :=
  let text := collapse_spaces false text in
  let text := replace text [NUL] [] in
  let text := replace (replace text [CR; LF] [LF]) [CR] [LF] in
  let text := squeeze_newlines 0 text in
  strip text.

Section WithFloat.
Context {F : Type} `{PyFloat F}.

(** [hashlib.sha256(content.encode()).hexdigest()]; [None] when
    [content.encode()] raises UnicodeEncodeError, as it does on a text
    that holds a lone surrogate. *)
Variable sha256_hexdigest : str -> option str.

Record DocumentService := {
  splitter : TextSplitter
}.

(** [DocumentService(config, rag_config)]: the splitter takes the sizes
    of the RAG configuration and the default separators. *)
Definition init (rag_chunk_size rag_chunk_overlap : Z) : DocumentService :=
  {| splitter :=
       {| chunk_size := rag_chunk_size; chunk_overlap := rag_chunk_overlap;
          separators := default_separators |} |}.

(** [_generate_chunk_id]: [f"{source}_{index}_{content_hash}"]; [None]
    when the content cannot be encoded. *)
Definition _generate_chunk_id (source : str) (index : Z) (content : str)
    : option str :=
  match sha256_hexdigest content with
  | None => None
  | Some digest =>
      Some (source ++ py "_" ++ list_ascii_of_string (pretty index)
              ++ py "_" ++ slice_to digest 8)
  end.

(** The loop of [chunk_text] over [enumerate(text_chunks)], from the
    index [i] on; [None] when [_generate_chunk_id] raises. *)
Fixpoint chunk_loop (source : str) (metadata : option (gmap str MetaVal))
    (total : Z) (i : Z) (text_chunks : list str)
    : option (list (DocumentChunk F)) :=
  match text_chunks with
  | [] => Some []
  | chunk_text :: rest =>
      match strip chunk_text with
      | [] => chunk_loop source metadata total (i + 1) rest
      | _ :: _ =>
          match _generate_chunk_id source i chunk_text with
          | None => None
          | Some chunk_id =>
              match chunk_loop source metadata total (i + 1) rest with
              | None => None
              | Some chunks =>
                  Some
                    ({| content := chunk_text;
                        source := source;
                        chunk_index := i;
                        id := Some chunk_id;
                        embedding := None;
                        score := of_int 0;
                        metadata :=
                          Some (default ∅ metadata
                                ∪ {[ py "chunk_number" := MInt (i + 1);
                                     py "total_chunks" := MInt total;
                                     py "char_count"
                                       := MInt (len chunk_text) ]}) |}
                       :: chunks)
              end
          end
      end
  end.

(** What a call of [chunk_text] comes to: the chunks it returns, the
    UnicodeEncodeError it raises, or no answer of the splitter within
    the fuel. *)
Inductive ChunkAnswer :=
| Chunks (chunks : list (DocumentChunk F))
| EncodeError
| NoAnswer.

(** [chunk_text] *)
Definition chunk_text (self : DocumentService) (fuel : nat)
    (text source : str) (metadata : option (gmap str MetaVal))
    : ChunkAnswer :=
  let cleaned_text := _clean_text text in
  match Splitter.split_text (splitter self) fuel cleaned_text with
  | None => NoAnswer
  | Some text_chunks =>
      match chunk_loop source metadata (len text_chunks) 0 text_chunks with
      | None => EncodeError
      | Some chunks => Chunks chunks
      end
  end.

End WithFloat.

Arguments DocumentService : clear implicits.
Arguments ChunkAnswer : clear implicits.

End Document.

(** ** [document_service.py]: the pure parts of [DocumentLoader] *)

Module Loader.
Import PyStr.

(** A parsed JSON document.  A scalar is held as the text [str(obj)]
    gives for it, an object as its items in the order of the file. *)
#[local] Unset Elimination Schemes.
Inductive Json :=
| JScalar (text : str)
| JList (items : list Json)
| JDict (items : list (str * Json)).
#[local] Set Elimination Schemes.

(** [f"{prefix}[{i}]"] *)
Definition indexed (prefix : str) (i : nat) : str :=
  prefix ++ py "[" ++ list_ascii_of_string (pretty i) ++ py "]".

(** [f"{prefix}.{key}" if prefix else key] *)
Definition keyed (prefix key : str) : str :=
  match prefix with
  | [] => key
  | _ :: _ => prefix ++ py "." ++ key
  end.

(** [flatten_json], the local function of [_load_json]. *)
Fixpoint flatten_json (obj : Json) (prefix : str) : list str :=
  match obj with
  | JDict items =>
      (fix dict_loop (items : list (str * Json)) : list str :=
         match items with
         | [] => []
         | (key, value) :: rest =>
             flatten_json value (keyed prefix key) ++ dict_loop rest
         end) items
  | JList items =>
      (fix list_loop (i : nat) (items : list Json) : list str :=
         match items with
         | [] => []
         | item :: rest =>
             flatten_json item (indexed prefix i) ++ list_loop (S i) rest
         end) 0%nat items
  | JScalar text => [prefix ++ py ": " ++ text]
  end.

(** [_load_json] on the parsed document. *)
Definition _load_json (data : Json) : str :=
  Document.join [Document.LF] (flatten_json data []).

(** The text of one row of [_load_csv]: the pairs of header and value
    whose value is not blank. *)
Definition csv_row_text (headers row : list str) : str :=
  Document.join (py ", ")
    (map (fun hv : str * str => fst hv ++ py ": " ++ snd hv)
       (filter (fun hv : str * str => strip (snd hv) <> [])
          (zip headers row))).

(** The loop of [_load_csv] over the rows after the header row. *)
Fixpoint csv_rows (headers : list str) (reader : list (list str))
    : list str :=
  match reader with
  | [] => []
  | row :: reader' =>
      match csv_row_text headers row with
      | [] => csv_rows headers reader'
      | c :: t => (c :: t) :: csv_rows headers reader'
      end
  end.

(** [_load_csv] on the rows the reader gives; [headers] is the first row,
    or the empty list when there is none. *)
Definition _load_csv (reader : list (list str)) : str :=
  let headers := hd [] reader in
  Document.join [Document.LF] (csv_rows headers (tl reader)).

End Loader.

(** ** [utils/helpers.py] *)

Module Helpers.
Import PyStr.

(** [truncate_text] *)
Definition truncate_text (text : str) (max_length : Z) (suffix : str) : str :=
  if len text <=? max_length then text
  else
    let truncated := slice_to text (max_length - len suffix) in
    let last_space := rfind truncated " " in
    let truncated :=
      if max_length / 2 <? last_space then slice_to truncated last_space
      else truncated in
    truncated ++ suffix.

(** [estimate_tokens] *)
Definition estimate_tokens (text : str) : Z := len text / 4.

(** [range(0, stop, step)] for a positive [step]. *)
Definition range_step (stop step : Z) : list Z :=
  map (fun j => Z.of_nat j * step)
    (seq 0 (Z.to_nat ((stop + step - 1) / step))).

(** [chunk_list]: [range] raises ValueError on the step 0, the answer
    [None], and is empty on a negative step. *)
Definition chunk_list {A : Type} (lst : list A) (chunk_size : Z)
    : option (list (list A)) :=
  if chunk_size =? 0 then None
  else if chunk_size <? 0 then Some []
  else Some (map (fun i => slice lst i (i + chunk_size))
               (range_step (len lst) chunk_size)).

End Helpers.

(** ** [orchestrator.py] *)

Module Orchestrator.
Import PyStr.

(** [_prepare_messages]: the system prompt, the stored messages
    [context.messages[-10:-1]], and the current prompt as a user
    message. *)
Definition _prepare_messages (system_prompt : str)
    (context_messages : list Conversation.ChatMessage) (current_prompt : str)
    : list (str * str) :=
  let history_limit := 10 in
  [(py "system", system_prompt)]
  ++ map Conversation.llm_dict
       (slice context_messages (- history_limit) (-1))
  ++ [(py "user", current_prompt)].

End Orchestrator.

(** ** Inputs and predicates of the statements *)

(** A splitter with a small window, and the default separators. *)
Definition blank_splitter : TextSplitter :=
  {| chunk_size := 4; chunk_overlap := 1; separators := default_separators |}.

(** The messages stored for a conversation. *)
Definition stored_messages {F : Type}
    (svc : Conversation.ConversationService F) (cid : str)
    : list Conversation.ChatMessage :=
  match OD.get cid (Conversation._conversations svc) with
  | Some c => Conversation.messages c
  | None => []
  end.

Definition msg (r c : string) : Conversation.ChatMessage :=
  {| Conversation.role := py r; Conversation.content := py c;
     Conversation.timestamp := 0 |}.

(** A service that retains two messages per conversation, after
    [create_conversation("c")], [add_message("c", system "s")] and
    [add_message("c", user "a")]. *)
Definition capped_service : Conversation.ConversationService Q :=
  match Conversation.create_conversation (Conversation.init 100 2 24)
          (py "c") ∅ 0 with
  | Some (_, s0) =>
      let s1 := snd (Conversation.add_message s0 (py "c") (msg "system" "s") 0) in
      snd (Conversation.add_message s1 (py "c") (msg "user" "a") 0)
  | None => Conversation.init 100 2 24
  end.

(** Quantities of [get_context_for_llm]. *)
Section BudgetDefinitions.
Import PyStr Conversation.
Context {F : Type} `{PyFloat F}.

(** The messages the second loop accepts, most recent first. *)
Fixpoint accepted (max_tokens : Z) (reversed_msgs : list ChatMessage)
    (token_count : F) : list ChatMessage :=
  match reversed_msgs with
  | [] => []
  | m :: rest =>
      let t := fadd token_count (estimate (content m)) in
      if flt (of_int max_tokens) t then []
      else m :: accepted max_tokens rest t
  end.

(** The running total after a list of messages taken in this order. *)
Definition running_total (start : F) (taken : list ChatMessage) : F :=
  fold_left (fun tc m => fadd tc (estimate (content m))) taken start.

(** The count the first loop leaves: the estimate of the first system
    message, if there is one. *)
Definition system_count (msgs : list ChatMessage) : F :=
  match first_system msgs with
  | Some s => fadd (of_int 0) (estimate (content s))
  | None => of_int 0
  end.

End BudgetDefinitions.

(** The sum of the estimates of the entries of an export. *)
Definition export_estimate {F : Type} `{PyFloat F} (out : list (str * str))
    : F :=
  fold_left (fun tc d => fadd tc (Conversation.estimate (snd d))) out
    (of_int 0).

(** Reranking and retrieval on a small index over the rationals. *)
Section RerankDefinitions.
Import VectorStore Rag.
Context {F : Type} `{PyFloat F}.

(** Two entries neither of which has a key below the other's. *)
Definition tied {A : Type} (key : A -> F) (c x : A) : Prop :=
  flt (key c) (key x) = false /\ flt (key x) (key c) = false.

#[export] Instance tied_dec {A : Type} (key : A -> F) (c x : A)
  : Decision (tied key c x).
Proof. unfold tied. apply _. Defined.

(** [a] may stand before [b] in a descending order of keys. *)
Definition not_below {A : Type} (key : A -> F) (a b : A) : Prop :=
  flt (key a) (key b) = false.

(** The number of times an object stands in a list. *)
Definition occurrences (ref : nat) (results : list nat) : nat :=
  length (filter (fun r => r = ref) results).

(** The chunk stands in the store under [ref], and its score is not
    NaN. *)
Definition scored (store : list (DocumentChunk F)) (ref : nat) : Prop :=
  exists c, store !! ref = Some c /\ number (score c).

End RerankDefinitions.

Definition demo_hit (name text : string) (distance : Q) : VectorStore.Hit Q :=
  {| VectorStore.hit_id := py name;
     VectorStore.hit_content := py text;
     VectorStore.hit_metadata := {[ py "source" := VectorStore.MStr (py name) ]};
     VectorStore.hit_distance := distance |}.

Definition demo_hits : list (VectorStore.Hit Q) :=
  [ demo_hit "d1" "retrieval augmented generation" (1 # 10);
    demo_hit "d2" "what is generation" (2 # 10);
    demo_hit "d3" "unrelated text" (6 # 10) ].

(** A backend that answers its first [top_k] stored hits. *)
Definition demo_search (b : VectorStore.ChromaDBBackend Q) (q : list Q)
    (top_k : Z) (f : option (gmap str VectorStore.MetaVal))
    : list (VectorStore.Hit Q) :=
  PyStr.slice_to demo_hits top_k.

Definition demo_hash (s : str) : Z := PyStr.len s.

Definition demo_embeddings (s : str) : option (list Q) :=
  Some [inject_Z (PyStr.len s)].

Definition demo_rag : Rag.RAGService Q :=
  {| Rag.config :=
       {| Rag.top_k_results := 5;
          Rag.similarity_threshold := 7 # 10;
          Rag.rerank_enabled := true |};
     Rag.vector_store :=
       {| VectorStore._backend :=
            {| VectorStore._documents := ∅;
               VectorStore._embeddings := ∅;
               VectorStore._metadatas := ∅ |};
          VectorStore._initialized := true |};
     Rag._embedding_cache := ∅;
     Rag._cache_max_size := 1000 |}.

(** A chunk that shares one term with the query [alpha]. *)
Definition shared_chunk : VectorStore.DocumentChunk Q :=
  {| VectorStore.content := py "alpha";
     VectorStore.source := py "doc";
     VectorStore.chunk_index := 0;
     VectorStore.id := None;
     VectorStore.embedding := None;
     VectorStore.score := 1 # 2;
     VectorStore.metadata := None |}.

(** A chunk whose similarity score is above 1. *)
Definition high_chunk : VectorStore.DocumentChunk Q :=
  {| VectorStore.content := py "alpha";
     VectorStore.source := py "doc";
     VectorStore.chunk_index := 0;
     VectorStore.id := None;
     VectorStore.embedding := None;
     VectorStore.score := 3 # 2;
     VectorStore.metadata := None |}.

(** Traces of the conversation cache. *)
Section CacheTraces.
Import Conversation.
Context {F : Type} `{PyFloat F}.

(** The ids held by the cache, least recently used first. *)
Definition lru_order (svc : ConversationService F) : list str :=
  OD.keys (_conversations svc).

Inductive Op :=
| Create (cid : str) (now : Z)
| Get (cid : str) (now : Z)
| GetOrCreate (cid : str) (now : Z).

Definition op_id (o : Op) : str :=
  match o with
  | Create cid _ | Get cid _ | GetOrCreate cid _ => cid
  end.

(** One call; [None] when it raises. *)
Definition step (svc : ConversationService F) (o : Op)
    : option (ConversationService F) :=
  match o with
  | Create cid now => snd <$> create_conversation svc cid ∅ now
  | Get cid now => Some (snd (get_conversation svc cid now))
  | GetOrCreate cid now => snd <$> get_or_create svc cid ∅ now
  end.

Fixpoint run (svc : ConversationService F) (ops : list Op)
    : option (ConversationService F) :=
  match ops with
  | [] => Some svc
  | o :: ops' =>
      match step svc o with
      | Some svc' => run svc' ops'
      | None => None
      end
  end.

(** The ids a trace creates when the ids [known] exist already, in order
    of creation. *)
Fixpoint new_ids (known : list str) (ops : list Op) : list str :=
  match ops with
  | [] => []
  | Create cid _ :: ops' => cid :: new_ids (cid :: known) ops'
  | Get _ _ :: ops' => new_ids known ops'
  | GetOrCreate cid _ :: ops' =>
      if decide (cid ∈ known) then new_ids known ops'
      else cid :: new_ids (cid :: known) ops'
  end.

(** Every [create_conversation] of the trace names an id not yet
    created. *)
Fixpoint fresh_creates (known : list str) (ops : list Op) : Prop :=
  match ops with
  | [] => True
  | Create cid _ :: ops' =>
      (cid ∉ known) /\ fresh_creates (cid :: known) ops'
  | Get _ _ :: ops' => fresh_creates known ops'
  | GetOrCreate cid _ :: ops' =>
      if decide (cid ∈ known) then fresh_creates known ops'
      else fresh_creates (cid :: known) ops'
  end.

(** The state of the cache while the first conversation is the least
    recently used one and nothing has been evicted. *)
Definition first_is_oldest (c1 : str) (known : list str)
    (svc : ConversationService F) : Prop :=
  head (lru_order svc) = Some c1
  /\ NoDup (lru_order svc)
  /\ (forall k, k ∈ lru_order svc <-> k ∈ known).

End CacheTraces.

(** Overlap between consecutive chunks. *)

(** The suffix [overlap] of [prev] starts inside a word: the character
    before it and its first character are both not spaces. *)
Definition starts_mid_word (prev overlap : str) : bool :=
  match last (take (length prev - length overlap) prev), head overlap with
  | Some before, Some first =>
      negb (PyStr.isspace before) && negb (PyStr.isspace first)
  | _, _ => false
  end.

(** Whatever [_apply_overlap] puts in front of a chunk, followed by a
    space, is a suffix of the previous chunk, no longer than
    [chunk_overlap], that does not start inside a word. *)
Definition overlap_never_mid_word (self : TextSplitter) (chunks : list str)
    : Prop :=
  forall (i : nat) (prev curr o : str),
    chunks !! i = Some prev ->
    chunks !! S i = Some curr ->
    Splitter._apply_overlap self chunks !! S i = Some (o ++ py " " ++ curr) ->
    o `suffix_of` prev
    /\ PyStr.len o <= chunk_overlap self
    /\ starts_mid_word prev o = false.

Definition narrow_splitter : TextSplitter :=
  {| chunk_size := 5; chunk_overlap := 2; separators := default_separators |}.

(** The embedding cache over a run of requests. *)
Section CacheDefinitions.
Import Rag.
Context {F : Type} `{PyFloat F}.
Variable hash : str -> Z.
Variable embeddings : str -> option (list F).

(** The service after [_generate_embedding] was called on the texts of
    [history] in turn; a call that raises leaves the service as it was. *)
Fixpoint after_history (self : RAGService F) (history : list str)
    : RAGService F :=
  match history with
  | [] => self
  | text :: history' =>
      match _generate_embedding hash embeddings self text with
      | Some (_, self') => after_history self' history'
      | None => after_history self history'
      end
  end.

(** Every cached vector was produced for a text of [seen] under whose hash
    it is stored. *)
Definition cache_sound (seen : str -> Prop) (self : RAGService F) : Prop :=
  forall (k : Z) (v : list F),
    _embedding_cache self !! k = Some v ->
    exists t, seen t /\ hash t = k /\ embeddings t = Some v.

End CacheDefinitions.

(** The values of [hash] on a 64-bit build. *)
Definition hash_in_range (hash : str -> Z) : Prop :=
  forall text : str, - 2 ^ 63 <= hash text < 2 ^ 63.

(** Starting from an empty cache, whatever [_generate_embedding] answers
    for a text is what the embedding service produces for it. *)
Definition cache_exact {F : Type} `{PyFloat F} (hash : str -> Z) : Prop :=
  forall (embeddings : str -> option (list F)) (self : Rag.RAGService F)
         (history : list str) (text : str) (v : list F)
         (self' : Rag.RAGService F),
    Rag._embedding_cache self = ∅ ->
    Rag._generate_embedding hash embeddings
      (after_history hash embeddings self history) text = Some (v, self') ->
    embeddings text = Some v.

(** The whole interface of the conversation cache. *)
Section CacheCalls.
Import Conversation.
Context {F : Type} `{PyFloat F}.

Inductive Call :=
| CallCreate (cid : str) (md : gmap str str) (now : Z)
| CallGet (cid : str) (now : Z)
| CallGetOrCreate (cid : str) (md : gmap str str) (now : Z)
| CallAddMessage (cid : str) (message : ChatMessage) (now : Z)
| CallGetMessages (cid : str) (limit : option Z) (include_system : bool)
    (now : Z)
| CallSetSystemMessage (cid : str) (content : str) (now : Z)
| CallClearHistory (cid : str) (keep_system : bool) (now : Z)
| CallDelete (cid : str)
| CallCleanupExpired (now : Z)
| CallContextForLlm (cid : str) (max_tokens : Z) (now : Z)
| CallExport (cid : str) (now : Z)
| CallImport (data : Exported) (now : Z).

(** The cache after [create_conversation], also when it raises: its loop
    has then evicted every conversation. *)
Definition after_create (svc : ConversationService F) (cid : str)
    (md : gmap str str) (now : Z) : ConversationService F :=
  match create_conversation svc cid md now with
  | Some (_, svc') => svc'
  | None => foldl _evict_conversation svc (OD.keys (_conversations svc))
  end.

(** The cache after a call. *)
Definition after_call (svc : ConversationService F) (c : Call)
    : ConversationService F :=
  match c with
  | CallCreate cid md now => after_create svc cid md now
  | CallGet cid now => snd (get_conversation svc cid now)
  | CallGetOrCreate cid md now =>
      match get_conversation svc cid now with
      | (Some _, svc') => svc'
      | (None, svc') => after_create svc' cid md now
      end
  | CallAddMessage cid message now => snd (add_message svc cid message now)
  | CallGetMessages cid limit include_system now =>
      snd (get_messages svc cid limit include_system now)
  | CallSetSystemMessage cid content now =>
      snd (set_system_message svc cid content now)
  | CallClearHistory cid keep_system now =>
      snd (clear_history svc cid keep_system now)
  | CallDelete cid => snd (delete_conversation svc cid)
  | CallCleanupExpired now => snd (cleanup_expired svc now)
  | CallContextForLlm cid max_tokens now =>
      snd (get_context_for_llm svc cid max_tokens now)
  | CallExport cid now => snd (export_conversation svc cid now)
  | CallImport data now => snd (import_conversation svc data now)
  end.

(** The two dictionaries of the cache agree: ids are not repeated, the
    statistics are kept for exactly the cached ids, every context is
    stored under its own id, and the ids number at most
    [max_conversations]. *)
Definition consistent (svc : ConversationService F) : Prop :=
  NoDup (OD.keys (_conversations svc))
  /\ (forall k, k ∈ OD.keys (_conversations svc) <-> is_Some (_stats svc !! k))
  /\ (forall k c, OD.get k (_conversations svc) = Some c -> id c = k)
  /\ PyStr.len (_conversations svc) <= Z.max 0 (max_conversations svc).

End CacheCalls.

(** The message an imported entry becomes. *)
Definition imported_message (now : Z) (x : str * str * Z)
    : Conversation.ChatMessage :=
  {| Conversation.role := x.1.1; Conversation.content := x.1.2;
     Conversation.timestamp := now |}.

(** The conversation [k] counts as expired at the time [now]. *)
Definition stale {F : Type} (svc : Conversation.ConversationService F)
    (now : Z) (k : str) : bool :=
  match Conversation._stats svc !! k with
  | Some s =>
      Conversation.is_expired (now - Conversation.ttl_hours svc * 3600) s
  | None => false
  end.

(** [len(self._embedding_cache)], as [RAGService.get_stats] reports it. *)
Definition cache_size {F : Type} (self : Rag.RAGService F) : Z :=
  Z.of_nat (size (Rag._embedding_cache self)).

(** The in-memory fallback as [_use_fallback] leaves it. *)
Definition empty_backend {F : Type} : VectorStore.ChromaDBBackend F :=
  {| VectorStore._documents := ∅;
     VectorStore._embeddings := ∅;
     VectorStore._metadatas := ∅ |}.

(** Every stored document has a stored vector, and conversely. *)
Definition aligned {F : Type} (b : VectorStore.ChromaDBBackend F) : Prop :=
  forall doc_id : str,
    is_Some (VectorStore._documents b !! doc_id)
    <-> is_Some (VectorStore._embeddings b !! doc_id).

(** The fallback after the three assignments of [add] for each entry
    (id, document, vector, metadata), in order. *)
Fixpoint store_entries {F : Type} (b : VectorStore.ChromaDBBackend F)
    (entries : list (str * (str * (list F * gmap str VectorStore.MetaVal))))
    : VectorStore.ChromaDBBackend F :=
  match entries with
  | [] => b
  | (doc_id, (doc, (emb, md))) :: entries' =>
      store_entries
        {| VectorStore._documents := <[doc_id := doc]> (VectorStore._documents b);
           VectorStore._embeddings :=
             <[doc_id := emb]> (VectorStore._embeddings b);
           VectorStore._metadatas :=
             <[doc_id := md]> (VectorStore._metadatas b) |}
        entries'
  end.

(** What [add_chunks] hands to the backend for a chunk. *)
Definition chunk_entry {F : Type} (c : VectorStore.DocumentChunk F)
    : str * (list F * gmap str VectorStore.MetaVal) :=
  (VectorStore.content c,
   (default [] (VectorStore.embedding c), VectorStore.stored_metadata c)).

(** The calls that change the fallback. *)
Inductive BackendCall {F : Type} :=
| BackendAdd (embeddings : list (list F)) (documents : list str)
    (metadatas : list (gmap str VectorStore.MetaVal)) (ids : list str)
| BackendDelete (ids : list str).
Arguments BackendCall : clear implicits.

(** An [add] call none of whose lists is shorter than its ids, as
    [add_chunks] makes them. *)
Definition long_enough {F : Type} (c : BackendCall F) : Prop :=
  match c with
  | BackendAdd embeddings documents metadatas ids =>
      (length ids <= length documents)%nat
      /\ (length ids <= length embeddings)%nat
      /\ (length ids <= length metadatas)%nat
  | BackendDelete _ => True
  end.

(** The fallback after a list of calls; [None] once a call has raised. *)
Fixpoint backend_after {F : Type} (b : VectorStore.ChromaDBBackend F)
    (calls : list (BackendCall F)) : option (VectorStore.ChromaDBBackend F) :=
  match calls with
  | [] => Some b
  | BackendAdd embeddings documents metadatas ids :: calls' =>
      match VectorStore.backend_add b embeddings documents metadatas ids with
      | VectorStore.Added b' => backend_after b' calls'
      | VectorStore.AddIndexError _ => None
      end
  | BackendDelete ids :: calls' =>
      match VectorStore.backend_delete b ids 0 with
      | Some (_, b') => backend_after b' calls'
      | None => None
      end
  end.

(** A chunk with a vector, an id and metadata of its own. *)
Definition demo_chunk : VectorStore.DocumentChunk Q :=
  {| VectorStore.content := py "retrieval augmented generation";
     VectorStore.source := py "notes.txt";
     VectorStore.chunk_index := 3;
     VectorStore.id := Some (py "notes.txt_3_0a1b2c3d");
     VectorStore.embedding := Some [1 # 2; 1 # 3];
     VectorStore.score := 0%Q;
     VectorStore.metadata :=
       Some {[ py "chunk_number" := VectorStore.MInt 4 ]} |}.

(** A chunk that has no vector yet. *)
Definition bare_chunk : VectorStore.DocumentChunk Q :=
  {| VectorStore.content := py "not embedded";
     VectorStore.source := py "notes.txt";
     VectorStore.chunk_index := 4;
     VectorStore.id := Some (py "notes.txt_4_ffffffff");
     VectorStore.embedding := None;
     VectorStore.score := 0%Q;
     VectorStore.metadata := None |}.

Definition demo_uuid4 (n : nat) : str :=
  py "uuid-" ++ list_ascii_of_string (pretty n).

Definition demo_store : VectorStore.VectorStoreService Q :=
  {| VectorStore._backend := empty_backend;
     VectorStore._initialized := true |}.

(** The fallback that holds the embedded chunk. *)
Definition demo_backend : VectorStore.ChromaDBBackend Q :=
  {| VectorStore._documents :=
       {[ py "notes.txt_3_0a1b2c3d" := py "retrieval augmented generation" ]};
     VectorStore._embeddings :=
       {[ py "notes.txt_3_0a1b2c3d" := [1 # 2; 1 # 3]%Q ]};
     VectorStore._metadatas :=
       {[ py "notes.txt_3_0a1b2c3d"
            := VectorStore.stored_metadata demo_chunk ]} |}.

(** Two calls on the fallback: an [add] of two documents and a [delete]
    of one of them and of an id that is not stored. *)
Definition demo_calls : list (BackendCall Q) :=
  [ BackendAdd [[1 # 2]%Q; [1 # 3]%Q] [py "one"; py "two"] [∅; ∅]
      [py "a"; py "b"];
    BackendDelete [py "a"; py "missing"] ].

(** A text chunk that [chunk_text] keeps: not blank. *)
Definition nonblank (t : str) : Prop := PyStr.strip t <> [].

Global Instance nonblank_dec (t : str) : Decision (nonblank t).
Proof. unfold nonblank. apply _. Defined.

(** A stand-in for the SHA-256 digest, and a document service on a narrow
    splitter. *)
Definition demo_sha256 (s : str) : option str :=
  Some (py "0123456789abcdef").

(** A digest that cannot encode the text [world]. *)
Definition failing_sha256 (s : str) : option str :=
  if decide (s = py "world") then None else Some (py "0123456789abcdef").

Definition demo_documents : Document.DocumentService :=
  Document.init 12 2.

(** The scalars of a JSON document, in the order of the file. *)
Fixpoint scalars (obj : Loader.Json) : list str :=
  match obj with
  | Loader.JScalar text => [text]
  | Loader.JList items =>
      (fix go (items : list Loader.Json) : list str :=
         match items with
         | [] => []
         | item :: rest => scalars item ++ go rest
         end) items
  | Loader.JDict items =>
      (fix go (items : list (str * Loader.Json)) : list str :=
         match items with
         | [] => []
         | (_, value) :: rest => scalars value ++ go rest
         end) items
  end.

(** A line of the flattened document: a path under [prefix], a colon and
    a space, and the text of a scalar. *)
Definition flat_line (prefix : str) (line text : str) : Prop :=
  exists path : str, line = prefix ++ path ++ py ": " ++ text.

(** A small JSON document with an empty list and an empty object. *)
Definition demo_json : Loader.Json :=
  Loader.JDict
    [ (py "name", Loader.JScalar (py "allma"));
      (py "tags", Loader.JList [Loader.JScalar (py "rag");
                                Loader.JScalar (py "chat")]);
      (py "none", Loader.JList []);
      (py "nest", Loader.JDict [(py "k", Loader.JScalar (py "1"));
                                (py "empty", Loader.JDict [])]) ].

(** The rows of a small CSV file, header row first. *)
Definition demo_csv : list (list str) :=
  [ [py "name"; py "role"];
    [py "ada"; py "engineer"; py "dropped"];
    [py " "; py ""];
    [py "bob"; py "  "];
    [py ""; py ""; py "only beyond the headers"] ].

(** * Properties *)

(** ** The Python primitives and the splitter on small inputs *)

Example split_ex :
  PyStr.split (py "A. B. C.") (py ". ") = [py "A"; py "B"; py "C."].
Proof. reflexivity. Qed.

Example words_ex :
  PyStr.words (py "  what is  RAG ") = [py "what"; py "is"; py "RAG"].
Proof. reflexivity. Qed.

Example slice_ex :
  PyStr.slice_from (py "abcde") (-2) = py "de"
  /\ PyStr.slice (py "abcde") 3 10 = py "de"
  /\ PyStr.slice_to (py "abcde") 3 = py "abc"
  /\ PyStr.slice_from (py "abcde") (-0) = py "abcde".
Proof. repeat split; reflexivity. Qed.

Example rfind_ex :
  PyStr.rfind (py "ab cd e") " " = 5 /\ PyStr.find (py "ab cd e") " " = 2
  /\ PyStr.rfind (py "abc") " " = -1.
Proof. repeat split; reflexivity. Qed.

Example split_text_ex1 :
  Splitter.split_text
    {| chunk_size := 4; chunk_overlap := 0; separators := [py ". "] |}
    10 (py "A. B. C.")
  = Some [py "A. B"; py "C."].
Proof. reflexivity. Qed.

Example split_text_ex2 :
  Splitter.split_text
    {| chunk_size := 4; chunk_overlap := 1; separators := default_separators |}
    20 (py "abcdefghij")
  = Some [py "abcd"; py "defg"; py "ghij"; py "j"].
Proof. reflexivity. Qed.

Example split_text_ex3 :
  Splitter.split_text
    {| chunk_size := 5; chunk_overlap := 2; separators := default_separators |}
    20 (py "abcde fghij")
  = Some [py "abcde"; py "de fghij"].
Proof. reflexivity. Qed.

(** ** Deletion by metadata *)

(** C9: [VectorStoreService.delete_by_metadata] answers 0 and leaves the
    service, hence the stored documents, vectors and metadata, as they
    were, whatever the filter and the store; [RAGService.delete_by_source]
    therefore answers 0 for every source and changes nothing. *)
Theorem delete_by_metadata_deletes_nothing :
  forall (F : Type) (HF : PyFloat F),
    (forall (self : VectorStore.VectorStoreService F)
            (md : gmap str VectorStore.MetaVal),
        VectorStore.delete_by_metadata self md = (0, self)
        /\ VectorStore.backend_count
             (VectorStore._backend
                (snd (VectorStore.delete_by_metadata self md)))
           = VectorStore.backend_count (VectorStore._backend self))
    /\ (forall (rag : Rag.RAGService F) (source : str),
           Rag.delete_by_source rag source = (0, rag)).
Proof.
  intros F HF; split.
  - intros self md; split; reflexivity.
  - intros [cfg vs cache mx] source; reflexivity.
Qed.

(** ** Blank input to the splitter *)

(** The two guarded paths: an empty text, and a blank text that fits one
    chunk, give no chunk. *)
Lemma split_text_blank_short (self : TextSplitter) (fuel : nat) (text : str) :
  PyStr.len text <= chunk_size self ->
  PyStr.strip text = [] ->
  Splitter.split_text self fuel text = Some [].
Proof.
  intros Hfit Hblank. unfold Splitter.split_text.
  destruct (separators self); destruct text as [|c text];
    cbn [Splitter._recursive_split]; try reflexivity;
    (destruct (Z.leb_spec (PyStr.len (c :: text)) (chunk_size self));
     [by rewrite Hblank|lia]).
Qed.

(** C8: on five spaces, a whitespace-only text longer than [chunk_size],
    the separators yield nothing, the fixed-width fallback runs, and
    [split_text] answers two empty chunks instead of the empty sequence. *)
Theorem split_text_blank_gives_empty_chunks :
  Splitter.split_text blank_splitter 10 (py "     ") = Some [py ""; py ""].
Proof. vm_compute. reflexivity. Qed.

(** ** The turn cap of [add_message] *)

Section TurnCap.
Import PyStr Conversation.
Context {F : Type} `{PyFloat F}.

Lemma od_get_set_eq {K V : Type} `{EqDecision K} (k : K) (v : V)
    (d : list (K * V)) :
  OD.get k (OD.set k v d) = Some v.
Proof.
  induction d as [|[k' v'] d IH]; simpl.
  - by rewrite decide_True.
  - destruct (decide (k' = k)) as [->|Hne]; simpl.
    + by rewrite decide_True.
    + by rewrite decide_False.
Qed.

Lemma filter_system_others (l : list ChatMessage) :
  filter (fun m => is_system m = true)
    (filter (fun m => is_system m = false) l) = [].
Proof.
  induction l as [|m l IH]; [done|].
  destruct (is_system m) eqn:E.
  - rewrite (filter_cons_False _ m l); [done|]. by rewrite E.
  - rewrite (filter_cons_True _ m l); [|done].
    rewrite filter_cons_False; [done|]. by rewrite E.
Qed.

Lemma filter_system_idem (l : list ChatMessage) :
  filter (fun m => is_system m = true)
    (filter (fun m => is_system m = true) l)
  = filter (fun m => is_system m = true) l.
Proof.
  induction l as [|m l IH]; [done|].
  destruct (is_system m) eqn:E.
  - rewrite (filter_cons_True _ m l); [|done].
    rewrite filter_cons_True; [|done]. by rewrite IH.
  - rewrite (filter_cons_False _ m l); [done|]. by rewrite E.
Qed.

Lemma filter_system_skipn (n : nat) (l : list ChatMessage) :
  filter (fun m => is_system m = true)
    (skipn n (filter (fun m => is_system m = false) l)) = [].
Proof.
  assert (Hall : Forall (fun m => is_system m = false)
                   (filter (fun m => is_system m = false) l)).
  { apply Forall_forall; intros m Hm.
    by apply list_elem_of_filter in Hm as [? _]. }
  revert Hall; generalize (filter (fun m => is_system m = false) l).
  intros l0 Hall.
  assert (Hsk : Forall (fun m => is_system m = false) (skipn n l0))
    by (by apply Forall_drop).
  induction Hsk as [|m l1 Hm _ IH]; [done|].
  rewrite filter_cons_False; [done|]. by rewrite Hm.
Qed.

(** Trimming keeps every system message, in order. *)
Lemma trim_messages_keeps_system (max : Z) (msgs : list ChatMessage) :
  filter (fun m => is_system m = true) (trim_messages max msgs)
  = filter (fun m => is_system m = true) msgs.
Proof.
  unfold trim_messages. destruct (max <=? len msgs); [|done].
  rewrite filter_app, filter_system_idem. unfold slice_from.
  by rewrite filter_system_skipn, app_nil_r.
Qed.

(** What is dropped is a prefix of the non-system messages: the oldest. *)
Lemma trim_messages_drops_oldest (max : Z) (msgs : list ChatMessage) :
  max <= len msgs ->
  exists dropped kept,
    filter (fun m => is_system m = false) msgs = dropped ++ kept
    /\ trim_messages max msgs
       = filter (fun m => is_system m = true) msgs ++ kept.
Proof.
  intros Hle. unfold trim_messages.
  destruct (Z.leb_spec max (len msgs)); [|lia].
  eexists (take _ _), (slice_from _ _); split; [|reflexivity].
  unfold slice_from. by rewrite take_drop.
Qed.

(** With a positive [keep_count] the trimmed list leaves room for the
    message to append. *)
Lemma trim_messages_cap (max : Z) (msgs : list ChatMessage) :
  0 < max - len (filter (fun m => is_system m = true) msgs) - 1 ->
  forall m : ChatMessage, len (trim_messages max msgs ++ [m]) <= max.
Proof.
  intros Hkeep m. unfold trim_messages.
  destruct (Z.leb_spec max (len msgs)) as [Hfull|Hroom].
  - unfold len in *. rewrite !length_app; simpl.
    unfold slice_from, bound, len.
    set (sys := filter (fun m => is_system m = true) msgs) in *.
    set (oth := filter (fun m => is_system m = false) msgs) in *.
    rewrite length_drop.
    destruct (Z.ltb_spec (- (max - Z.of_nat (length sys) - 1)) 0); lia.
  - unfold len in *. rewrite length_app; simpl. lia.
Qed.

(** [add_message] stores the trimmed history followed by the new
    message. *)
Lemma add_message_stored (self : ConversationService F) (cid : str)
    (context : ConversationContext) (message : ChatMessage) (now : Z) :
  OD.get cid (_conversations self) = Some context ->
  fst (add_message self cid message now) = true
  /\ stored_messages (snd (add_message self cid message now)) cid
     = trim_messages (max_messages self) (messages context) ++ [message].
Proof.
  intros Hget. unfold add_message, get_conversation. rewrite Hget. simpl.
  split; [done|]. unfold stored_messages; simpl.
  by rewrite od_get_set_eq.
Qed.

End TurnCap.

(** C3: with [max_messages_per_conversation = 2] and a stored history of
    one system and one user message, [keep_count] is 0, the slice
    [other_msgs[-0:]] keeps every non-system message, and the append
    leaves three stored messages, one more than the cap. *)
Theorem add_message_at_cap_keeps_three :
  stored_messages capped_service (py "c")
    = [msg "system" "s"; msg "user" "a"]
  /\ Conversation.max_messages capped_service = 2
  /\ fst (Conversation.add_message capped_service (py "c") (msg "user" "b") 0)
     = true
  /\ stored_messages
       (snd (Conversation.add_message capped_service (py "c")
               (msg "user" "b") 0)) (py "c")
     = [msg "system" "s"; msg "user" "a"; msg "user" "b"].
Proof. vm_compute. repeat split; reflexivity. Qed.

(** ** The token-budgeted export *)

Section TokenBudget.
Import PyStr Conversation.
Context {F : Type} `{PyFloat F}.

Lemma budget_loop_after_head (max_tokens : Z) (revs : list ChatMessage)
    (h : str * str) (acc : list (str * str)) (tc : F) :
  budget_loop max_tokens revs (h :: acc) tc
  = (h :: map llm_dict (rev (accepted max_tokens revs tc)) ++ acc,
     running_total tc (accepted max_tokens revs tc)).
Proof.
  revert acc tc. induction revs as [|m revs IH]; intros acc tc; simpl.
  - reflexivity.
  - destruct (flt _ _); simpl; [reflexivity|].
    unfold insert_at; simpl. rewrite IH.
    by rewrite map_app, <- app_assoc.
Qed.

(** Without a leading entry the first accepted message takes the front
    and the later ones are inserted behind it. *)
Lemma budget_loop_empty (max_tokens : Z) (revs : list ChatMessage) (tc : F) :
  budget_loop max_tokens revs [] tc
  = (match accepted max_tokens revs tc with
     | [] => []
     | m :: taken => llm_dict m :: map llm_dict (rev taken)
     end,
     running_total tc (accepted max_tokens revs tc)).
Proof.
  destruct revs as [|m revs]; simpl; [reflexivity|].
  destruct (flt _ _); simpl; [reflexivity|].
  unfold insert_at; simpl. rewrite budget_loop_after_head.
  by rewrite app_nil_r.
Qed.

Lemma accepted_prefix (max_tokens : Z) (revs : list ChatMessage) (tc : F) :
  exists rest,
    revs = accepted max_tokens revs tc ++ rest
    /\ forall d, head rest = Some d ->
         flt (of_int max_tokens)
           (fadd (running_total tc (accepted max_tokens revs tc))
              (estimate (content d))) = true.
Proof.
  revert tc. induction revs as [|m revs IH]; intros tc; simpl.
  - exists []; split; [reflexivity|]. intros d Hd; discriminate.
  - destruct (flt _ _) eqn:E; simpl.
    + exists (m :: revs); split; [reflexivity|].
      intros d Hd; simpl in Hd; by simplify_eq.
    + destruct (IH (fadd tc (estimate (content m)))) as (rest & Heq & Hstop).
      exists rest; split; [by rewrite <- Heq|exact Hstop].
Qed.

Lemma accepted_within_budget (max_tokens : Z) (revs : list ChatMessage)
    (tc : F) :
  accepted max_tokens revs tc <> []
  \/ flt (of_int max_tokens) tc = false ->
  flt (of_int max_tokens) (running_total tc (accepted max_tokens revs tc))
  = false.
Proof.
  revert tc. induction revs as [|m revs IH]; intros tc; simpl.
  - intros [Hne|Hle]; [done|exact Hle].
  - destruct (flt (of_int max_tokens) (fadd tc _)) eqn:E; simpl.
    + intros [Hne|Hle]; [done|exact Hle].
    + intros _. apply IH. by right.
Qed.

Lemma context_for_llm_loop (msgs : list ChatMessage) (max_tokens : Z) :
  context_for_llm msgs max_tokens
  = budget_loop max_tokens
      (rev (filter (fun m => is_system m = false) msgs))
      match first_system msgs with
      | Some s => [llm_dict s]
      | None => []
      end
      (system_count msgs).
Proof.
  unfold context_for_llm, system_count.
  by destruct (first_system msgs).
Qed.

(** [get_context_for_llm] answers the export of the stored messages, and
    nothing for an unknown conversation. *)
Lemma get_context_for_llm_found (self : ConversationService F) (cid : str)
    (max_tokens now : Z) :
  fst (get_context_for_llm self cid max_tokens now)
  = match OD.get cid (_conversations self) with
    | Some context => fst (context_for_llm (messages context) max_tokens)
    | None => []
    end.
Proof.
  unfold get_context_for_llm, get_conversation.
  by destruct (OD.get cid (_conversations self)).
Qed.

Lemma last_rev_head {A : Type} (l : list A) : last (rev l) = head l.
Proof. destruct l as [|x l]; [done|]. simpl. by rewrite last_snoc. Qed.

End TokenBudget.

(** C1 (as stated, refuted): a conversation holding only a system message
    of ten words is exported whole under a budget of 5 tokens, although
    its estimate is 13. *)
Lemma system_turn_alone_exceeds_budget :
  fst (Conversation.context_for_llm (F := Q)
         [msg "system" "a b c d e f g h i j"] 5)
    = [(py "system", py "a b c d e f g h i j")]
  /\ fle (export_estimate (F := Q)
            (fst (Conversation.context_for_llm (F := Q)
                    [msg "system" "a b c d e f g h i j"] 5)))
         (of_int 5) = false.
Proof. vm_compute. split; reflexivity. Qed.

(** Without a system message the first accepted message stays in front of
    the older ones inserted behind it. *)
Example context_for_llm_without_system :
  fst (Conversation.context_for_llm (F := Q)
         [msg "user" "a"; msg "assistant" "b"; msg "user" "c"] 100)
  = [(py "user", py "c"); (py "user", py "a"); (py "assistant", py "b")].
Proof. vm_compute. reflexivity. Qed.

(** C1 (amended): the non-system messages split into an older part that is
    dropped and a recent part that is kept.  When the conversation has a
    system message the export is the first system message followed by the
    kept messages in chronological order; without one the export holds
    exactly the kept messages.  The final token count is the running total
    of the estimates, from the system message on and then from the most
    recent kept message to the oldest; it is not greater than [max_tokens]
    as soon as a non-system message is kept or the system message alone
    fits; and the most recent dropped message is the first one that would
    have exceeded the budget. *)
Theorem context_for_llm_budgeted :
  forall (F : Type) (HF : PyFloat F)
         (msgs : list Conversation.ChatMessage) (max_tokens : Z),
    let others := filter (fun m => Conversation.is_system m = false) msgs in
    let out := fst (Conversation.context_for_llm msgs max_tokens) in
    let total := snd (Conversation.context_for_llm msgs max_tokens) in
    exists dropped kept,
      others = dropped ++ kept
      /\ (forall s, Conversation.first_system msgs = Some s ->
            out = Conversation.llm_dict s :: map Conversation.llm_dict kept)
      /\ (Conversation.first_system msgs = None ->
            Permutation out (map Conversation.llm_dict kept))
      /\ total = running_total (system_count msgs) (rev kept)
      /\ (kept <> [] \/ flt (of_int max_tokens) (system_count msgs) = false ->
            flt (of_int max_tokens) total = false)
      /\ (forall d, last dropped = Some d ->
            flt (of_int max_tokens)
              (fadd total (Conversation.estimate (Conversation.content d)))
            = true).
Proof.
  intros F HF msgs max_tokens others out total.
  set (tc := system_count msgs).
  destruct (accepted_prefix max_tokens (rev others) tc) as (rest & Hsplit & Hstop).
  remember (accepted max_tokens (rev others) tc) as acc eqn:Hacc.
  exists (rev rest), (rev acc).
  assert (Htotal : total = running_total tc acc).
  { subst total tc acc. rewrite context_for_llm_loop. fold others.
    destruct (Conversation.first_system msgs).
    - by rewrite budget_loop_after_head.
    - by rewrite budget_loop_empty. }
  split; [|split; [|split; [|split; [|split]]]].
  - rewrite <- rev_app_distr, <- Hsplit. by rewrite rev_involutive.
  - intros s Hs. subst out tc acc.
    rewrite context_for_llm_loop. fold others.
    rewrite Hs, budget_loop_after_head. simpl. by rewrite app_nil_r.
  - intros Hs. subst out.
    rewrite context_for_llm_loop. fold others. fold tc.
    rewrite Hs, budget_loop_empty, <- Hacc. simpl.
    destruct acc as [|m taken]; simpl; [apply perm_nil|].
    rewrite map_app. simpl. apply Permutation_cons_append.
  - by rewrite rev_involutive.
  - intros Hfit. rewrite Htotal, Hacc. apply accepted_within_budget.
    destruct Hfit as [Hne|Hle]; [left|by right].
    intros Hnil. apply Hne. by rewrite Hacc, Hnil.
  - intros d Hd. rewrite last_rev_head in Hd. rewrite Htotal. by apply Hstop.
Qed.

(** ** The rationals satisfy the laws *)

#[export] Instance Q_laws : PyFloatLaws Q.
Proof.
  assert (Hnum : forall a : Q, number a).
  { intros a. unfold number. simpl. apply Qle_bool_iff. apply Qle_refl. }
  split; simpl.
  - intros a b _. split; apply Hnum.
  - intros a b _ _. by rewrite negb_involutive.
  - intros a b Hab. apply negb_true_iff in Hab. apply negb_false_iff.
    apply Qle_bool_iff. destruct (Qle_bool b a) eqn:E; [done|].
    destruct (Qlt_le_dec a b) as [Hlt|Hle].
    + by apply Qlt_le_weak.
    + apply Qle_bool_iff in Hle. congruence.
  - intros a b c _ Hab Hbc.
    apply negb_false_iff, Qle_bool_iff in Hab.
    apply negb_false_iff, Qle_bool_iff in Hbc.
    apply negb_false_iff, Qle_bool_iff. exact (Qle_trans _ _ _ Hbc Hab).
  - intros a b _ Hb _. apply Qle_bool_iff in Hb. apply Qle_bool_iff.
    change (inject_Z 0) with 0%Q in Hb. lra.
  - intros n Hn. apply Qle_bool_iff.
    unfold Qle, Qmult, inject_Z; simpl. lia.
  - reflexivity.
  - apply Hnum.
Qed.

(** ** Threshold and top-k selection *)

Section Retrieval.
Import PyStr VectorStore Rag.
Context {F : Type} `{PyFloat F}.
Variable hash : str -> Z.
Variable embeddings : str -> option (list F).
Variable backend_search :
  ChromaDBBackend F -> list F -> Z -> option (gmap str MetaVal)
  -> list (Hit F).

Lemma generate_embedding_frame (self self' : RAGService F) (text : str)
    (e : list F) :
  _generate_embedding hash embeddings self text = Some (e, self') ->
  config self' = config self /\ vector_store self' = vector_store self.
Proof.
  unfold _generate_embedding.
  destruct (_embedding_cache self !! hash text); [by intros [= <- <-]|].
  destruct (embeddings text); [|done].
  destruct (_ <? _); by intros [= <- <-].
Qed.

Lemma slice_to_nonneg {A : Type} (l : list A) (k : Z) :
  0 <= k -> slice_to l k = take (Z.to_nat k) l /\ len (slice_to l k) <= k.
Proof.
  intros Hk. unfold slice_to, bound, len.
  destruct (Z.ltb_spec k 0); [lia|].
  destruct (Z.le_gt_cases k (Z.of_nat (length l))) as [Hle|Hgt].
  - rewrite Z.min_l, Z.max_r by lia. split; [done|].
    rewrite length_take. lia.
  - rewrite Z.min_r, Z.max_r by lia. rewrite Nat2Z.id.
    rewrite !firstn_all2 by lia. split; [done|lia].
Qed.

End Retrieval.

(** C6 (as stated, refuted): a caller who passes [top_k = 0] is served
    with the configured default of 5, and gets two chunks. *)
Lemma retrieve_context_top_k_zero :
  (Rag.chunks_returned ∘ fst)
    <$> Rag.retrieve_context demo_hash demo_embeddings demo_search
          demo_rag (py "what is retrieval") (Some 0) None
  = Some 2.
Proof. vm_compute. reflexivity. Qed.

(** C6 (amended): the chunks [retrieve_context] answers are the threshold
    survivors of the search results, reranked when reranking is enabled,
    cut by [[:k]] where [k] is the caller's [top_k] when it is given and
    not 0 and the configured default otherwise; every one of them has a
    score at least [similarity_threshold]; and when [k] is not negative
    they are the first [k] survivors, so at most [k]. *)
Theorem retrieve_context_threshold_top_k :
  forall (F : Type) (HF : PyFloat F) (hash : str -> Z)
         (embeddings : str -> option (list F))
         (backend_search :
            VectorStore.ChromaDBBackend F -> list F -> Z
            -> option (gmap str VectorStore.MetaVal)
            -> list (VectorStore.Hit F))
         (self self' : Rag.RAGService F) (query : str) (top_k : option Z)
         (filter_metadata : option (gmap str VectorStore.MetaVal))
         (ctx : Rag.RAGContext F),
    Rag.retrieve_context hash embeddings backend_search self query top_k
      filter_metadata = Some (ctx, self') ->
    let k := Rag.effective_k self top_k in
    exists query_embedding,
      Rag._generate_embedding hash embeddings self query
        = Some (query_embedding, self')
      /\ let survivors :=
           Rag.threshold_filter self
             (Rag.rerank_step self query
                (VectorStore.search backend_search (Rag.vector_store self)
                   query_embedding (k * 2) filter_metadata)) in
         Rag.chunks ctx = PyStr.slice_to survivors k
         /\ Forall (fun c =>
                      fle (Rag.similarity_threshold (Rag.config self))
                        (VectorStore.score c) = true) (Rag.chunks ctx)
         /\ (0 <= k ->
               Rag.chunks ctx = take (Z.to_nat k) survivors
               /\ PyStr.len (Rag.chunks ctx) <= k).
Proof.
  intros F HF hash embeddings backend_search self self' query top_k
    filter_metadata ctx Hret k.
  unfold Rag.retrieve_context in Hret. fold k in Hret.
  destruct (Rag._generate_embedding hash embeddings self query)
    as [[e s1]|] eqn:Hemb; [|done].
  injection Hret as <- <-. exists e; split; [done|].
  destruct (generate_embedding_frame _ _ _ _ _ _ Hemb) as [Hcfg Hvs].
  assert (Hfilter : forall l, Rag.threshold_filter s1 l
                              = Rag.threshold_filter self l).
  { intros l. unfold Rag.threshold_filter. by rewrite Hcfg. }
  assert (Hrerank : forall l, Rag.rerank_step s1 query l
                              = Rag.rerank_step self query l).
  { intros l. unfold Rag.rerank_step. by rewrite Hcfg. }
  cbn zeta. simpl Rag.chunks. rewrite Hfilter, Hrerank, Hvs.
  split; [done|]. split.
  - unfold PyStr.slice_to. apply Forall_take, Forall_forall.
    intros c Hc. unfold Rag.threshold_filter in Hc.
    by apply list_elem_of_filter in Hc as [? _].
  - intros Hk. by apply slice_to_nonneg.
Qed.

(** The theorem on the small index, for a caller asking for one chunk. *)
Lemma retrieve_context_threshold_top_k_witness :
  exists ctx self',
    Rag.retrieve_context demo_hash demo_embeddings demo_search demo_rag
      (py "what is retrieval") (Some 1) None = Some (ctx, self')
    /\ Forall (fun c => fle (7 # 10)%Q (VectorStore.score c) = true)
         (Rag.chunks ctx)
    /\ PyStr.len (Rag.chunks ctx) <= 1.
Proof.
  eexists _, _. split; [reflexivity|].
  match goal with
  | |- context [Rag.chunks ?c] => set (ctx := c)
  end.
  destruct (retrieve_context_threshold_top_k Q Q_float demo_hash
              demo_embeddings demo_search demo_rag _ (py "what is retrieval")
              (Some 1) None ctx eq_refl)
    as (e & _ & _ & Hall & Hk).
  split; [exact Hall|]. apply Hk. done.
Defined.

(** ** Reranking *)

Section Rerank.
Import PyStr VectorStore Rag.
Context {F : Type} `{PyFloatLaws F}.

Lemma sorted_snoc {A : Type} (R : A -> A -> Prop) (l : list A) (x : A) :
  StronglySorted R l -> Forall (fun y => R y x) l ->
  StronglySorted R (l ++ [x]).
Proof.
  induction 1 as [|y l Hsorted IH Hall]; intros Hx; simpl.
  - repeat constructor.
  - apply Forall_cons in Hx as [Hyx Hx].
    constructor; [by apply IH|].
    apply Forall_app; split; [exact Hall|by constructor].
Qed.

Lemma sorted_rev {A : Type} (R : A -> A -> Prop) (l : list A) :
  StronglySorted (fun a b => R b a) l -> StronglySorted R (rev l).
Proof.
  induction 1 as [|y l Hsorted IH Hall]; simpl; [constructor|].
  apply sorted_snoc; [exact IH|].
  apply Forall_forall. intros z Hz.
  apply list_elem_of_In, in_rev, list_elem_of_In in Hz.
  by apply (proj1 (Forall_forall _ _) Hall).
Qed.

Lemma filter_rev {A : Type} (P : A -> Prop) `{forall x, Decision (P x)}
    (l : list A) :
  filter P (rev l) = rev (filter P l).
Proof. rewrite !rev_alt. apply filter_reverse. Qed.

Lemma fle_trans (a b c : F) :
  fle a b = true -> fle b c = true -> fle a c = true.
Proof.
  intros Hab Hbc.
  destruct (fle_numbers _ _ Hab) as [Ha Hb].
  destruct (fle_numbers _ _ Hbc) as [_ Hc].
  rewrite fle_flt in Hab, Hbc |- * by done.
  apply negb_true_iff in Hab, Hbc. apply negb_true_iff.
  by apply (flt_negtrans c b a).
Qed.

Section KeySort.
Context {A : Type} (key : A -> F).

Lemma insert_asc_perm (x : A) (l : list A) :
  Permutation (insert_asc key x l) (x :: l).
Proof.
  induction l as [|y l IH]; simpl; [done|].
  destruct (flt (key y) (key x)); [|done].
  rewrite IH. apply perm_swap.
Qed.

Lemma sort_asc_perm (l : list A) : Permutation (sort_asc key l) l.
Proof.
  induction l as [|x l IH]; simpl; [done|].
  by rewrite insert_asc_perm, IH.
Qed.

Lemma sort_by_key_reverse_perm (l : list A) :
  Permutation (sort_by_key_reverse key l) l.
Proof.
  unfold sort_by_key_reverse.
  by rewrite <- Permutation_rev, sort_asc_perm, <- Permutation_rev.
Qed.

Lemma insert_asc_sorted (x : A) (l : list A) :
  Forall (fun y => number (key y)) l ->
  StronglySorted (fun a b => not_below key b a) l ->
  StronglySorted (fun a b => not_below key b a) (insert_asc key x l).
Proof.
  intros Hnum. induction 1 as [|y l Hsorted IH Hall]; simpl.
  - repeat constructor.
  - apply Forall_cons in Hnum as [Hy Hnum].
    destruct (flt (key y) (key x)) eqn:E.
    + constructor; [by apply IH|].
      rewrite insert_asc_perm. constructor; [|exact Hall].
      unfold not_below. by apply flt_asym.
    + constructor; [by constructor|].
      constructor; [exact E|].
      eapply Forall_impl; [exact Hall|].
      intros z Hz; simpl in Hz. unfold not_below in *.
      by apply (flt_negtrans _ (key y)).
Qed.

Lemma sort_asc_sorted (l : list A) :
  Forall (fun y => number (key y)) l ->
  StronglySorted (fun a b => not_below key b a) (sort_asc key l).
Proof.
  induction l as [|x l IH]; intros Hnum; simpl; [constructor|].
  apply Forall_cons in Hnum as [_ Hnum].
  apply insert_asc_sorted; [by rewrite sort_asc_perm|by apply IH].
Qed.

Lemma insert_asc_stable (c x : A) (l : list A) :
  number (key c) ->
  filter (tied key c) (insert_asc key x l) = filter (tied key c) (x :: l).
Proof.
  intros Hc. induction l as [|y l IH]; simpl; [done|].
  destruct (flt (key y) (key x)) eqn:E; [|done].
  rewrite (filter_cons _ y), IH, !filter_cons.
  destruct (decide (tied key c y)) as [[Hcy Hyc]|Hy];
    destruct (decide (tied key c x)) as [[Hcx Hxc]|Hx]; try done.
  rewrite (flt_negtrans _ _ _ Hc Hyc Hcx) in E. done.
Qed.

Lemma sort_asc_stable (c : A) (l : list A) :
  number (key c) ->
  filter (tied key c) (sort_asc key l) = filter (tied key c) l.
Proof.
  intros Hc. induction l as [|x l IH]; simpl; [done|].
  by rewrite insert_asc_stable, !filter_cons, IH.
Qed.

Lemma sort_by_key_reverse_spec (l : list A) :
  Forall (fun y => number (key y)) l ->
  StronglySorted (not_below key) (sort_by_key_reverse key l)
  /\ forall c, number (key c) ->
       filter (tied key c) (sort_by_key_reverse key l)
       = filter (tied key c) l.
Proof.
  intros Hnum. unfold sort_by_key_reverse. split.
  - apply sorted_rev, sort_asc_sorted. by rewrite <- Permutation_rev.
  - intros c Hc.
    by rewrite filter_rev, sort_asc_stable, filter_rev, rev_involutive.
Qed.

End KeySort.

Lemma keyword_bonus_range (n : Z) :
  0 <= n ->
  fle (of_int 0) (keyword_bonus n) = true
  /\ fle (keyword_bonus n) lit_0_2 = true.
Proof.
  intros Hn. unfold keyword_bonus, fmin.
  pose proof (fmul_0_05_nonneg n Hn) as Hmul.
  pose proof lit_0_2_nonneg as Hlit.
  destruct (fle_numbers _ _ Hmul) as [_ Hx].
  destruct (fle_numbers _ _ Hlit) as [_ Hy].
  destruct (flt lit_0_2 _) eqn:E; [by split|].
  split; [done|]. rewrite fle_flt by done. by rewrite E.
Qed.

Lemma rescore_sum (qt : gset str) (c : DocumentChunk F) :
  number (score c) ->
  fle (score c) (fadd (score c) (keyword_bonus (overlap qt c))) = true.
Proof.
  intros Hc.
  destruct (keyword_bonus_range (overlap qt c)) as [Hlo Hhi];
    [unfold overlap; lia|].
  by apply fadd_bonus.
Qed.

Lemma rescore_capped (qt : gset str) (c : DocumentChunk F) :
  number (score c) -> fle (score (rescore qt c)) lit_1_0 = true.
Proof.
  intros Hc. pose proof (rescore_sum qt c Hc) as Hsum.
  destruct (fle_numbers _ _ Hsum) as [_ Hs].
  unfold rescore, with_score; simpl. unfold fmin at 1.
  destruct (flt lit_1_0 _) eqn:E; [apply lit_1_0_number|].
  rewrite fle_flt; [by rewrite E|done|apply lit_1_0_number].
Qed.

Lemma rescore_not_lower (qt : gset str) (c : DocumentChunk F) :
  fle (score c) lit_1_0 = true ->
  fle (score c) (score (rescore qt c)) = true.
Proof.
  intros Hle. destruct (fle_numbers _ _ Hle) as [Hc _].
  unfold rescore, with_score; simpl. unfold fmin at 1.
  destruct (flt _ _); [exact Hle|]. by apply rescore_sum.
Qed.

Lemma rescore_iter_number (qt : gset str) (k : nat) (c : DocumentChunk F) :
  number (score c) -> number (score (Nat.iter k (rescore qt) c)).
Proof.
  intros Hc. induction k as [|k IH]; [done|]. simpl.
  by destruct (fle_numbers _ _ (rescore_capped qt _ IH)).
Qed.

Lemma rescore_iter_not_lower (qt : gset str) (k : nat)
    (c : DocumentChunk F) :
  fle (score c) lit_1_0 = true ->
  fle (score c) (score (Nat.iter k (rescore qt) c)) = true
  /\ fle (score (Nat.iter k (rescore qt) c)) lit_1_0 = true.
Proof.
  intros Hle. destruct (fle_numbers _ _ Hle) as [Hc _].
  induction k as [|k [IHlo IHhi]]; [by split|]. simpl. split.
  - eapply fle_trans; [exact IHlo|]. by apply rescore_not_lower.
  - apply rescore_capped. by destruct (fle_numbers _ _ IHhi).
Qed.

Lemma rescore_loop_lookup (qt : gset str) (results : list nat) :
  forall (store : list (DocumentChunk F)) (ref : nat),
    rescore_loop qt store results !! ref
    = Nat.iter (occurrences ref results) (rescore qt) <$> store !! ref.
Proof.
  unfold rescore_loop, occurrences.
  induction results as [|r results IH]; intros store ref.
  { rewrite filter_nil. simpl. by destruct (store !! ref). }
  cbn [foldl]. rewrite IH. destruct (decide (r = ref)) as [->|Hne].
  - rewrite filter_cons_True by done. rewrite list_lookup_alter_eq.
    destruct (store !! ref) as [c|]; [|done]. simpl.
    by rewrite <- Nat.iter_succ_r.
  - rewrite filter_cons_False by done. by rewrite list_lookup_alter_ne.
Qed.

Lemma rescore_loop_length (qt : gset str) (results : list nat) :
  forall store : list (DocumentChunk F),
    length (rescore_loop qt store results) = length store.
Proof.
  unfold rescore_loop.
  induction results as [|r results IH]; intros store; simpl; [done|].
  by rewrite IH, length_alter.
Qed.

Lemma rescore_loop_scored (qt : gset str) (store : list (DocumentChunk F))
    (results : list nat) (ref : nat) :
  scored store ref -> scored (rescore_loop qt store results) ref.
Proof.
  intros (c & Hc & Hnum). unfold scored.
  rewrite rescore_loop_lookup, Hc. simpl.
  eexists. split; [done|]. by apply rescore_iter_number.
Qed.

Lemma scored_key (store : list (DocumentChunk F)) (ref : nat) :
  scored store ref -> number (score (store !!! ref)).
Proof.
  intros (c & Hc & Hnum). by rewrite (list_lookup_total_correct _ _ _ Hc).
Qed.

Lemma rerank_step_length (self : RAGService F) (query : str)
    (results : list (DocumentChunk F)) :
  length (rerank_step self query results) = length results.
Proof.
  unfold rerank_step. destruct results as [|c results]; [done|].
  destruct (rerank_enabled (config self)); [|done].
  unfold _rerank_results. cbv zeta. rewrite length_map.
  rewrite (Permutation_length (sort_by_key_reverse_perm _ _)).
  by rewrite length_seq.
Qed.

End Rerank.


(** A chunk object that stands twice in the list is rescored twice: a
    score of 0.5 and one shared term give 0.6, not 0.55. *)
Example rerank_shared_chunk :
  map (fun c => Qred (VectorStore.score c))
    (snd (Rag._rerank_results (py "alpha") [shared_chunk] [0%nat; 0%nat]))
    = [(3 # 5)%Q]
  /\ fst (Rag._rerank_results (py "alpha") [shared_chunk] [0%nat; 0%nat])
     = [0%nat; 0%nat].
Proof. vm_compute. split; reflexivity. Qed.



(** ** Least-recently-used eviction *)

Section OrderedDictFacts.
Context {K V : Type} `{EqDecision K}.
Implicit Types (d : list (K * V)) (k : K) (v : V).

Lemma od_get_None k d : OD.get k d = None <-> k ∉ OD.keys d.
Proof.
  induction d as [|[k' v'] d IH]; simpl.
  - split; [intros _; apply not_elem_of_nil|done].
  - destruct (decide (k' = k)) as [->|Hne].
    + split; [done|]. intros Hn. exfalso. apply Hn. left.
    + rewrite IH. rewrite not_elem_of_cons. intuition congruence.
Qed.

Lemma od_get_Some k d : is_Some (OD.get k d) <-> k ∈ OD.keys d.
Proof.
  destruct (OD.get k d) eqn:E.
  - split; [intros _|by eauto].
    destruct (decide (k ∈ OD.keys d)) as [|Hn]; [done|].
    apply od_get_None in Hn. congruence.
  - apply od_get_None in E. split; [by intros [? ?]|done].
Qed.

Lemma od_keys_set_new k v d :
  k ∉ OD.keys d -> OD.keys (OD.set k v d) = OD.keys d ++ [k].
Proof.
  induction d as [|[k' v'] d IH]; simpl; [done|].
  intros Hn. apply not_elem_of_cons in Hn as [Hne Hn].
  rewrite decide_False by done. simpl. by rewrite IH.
Qed.

Lemma od_keys_set_old k v d :
  k ∈ OD.keys d -> OD.keys (OD.set k v d) = OD.keys d.
Proof.
  induction d as [|[k' v'] d IH]; simpl.
  - intros Hin. by apply elem_of_nil in Hin.
  - intros Hin. destruct (decide (k' = k)) as [->|Hne]; simpl; [done|].
    apply elem_of_cons in Hin as [->|Hin]; [done|]. by rewrite IH.
Qed.

Lemma od_keys_pop_elem k x d :
  NoDup (OD.keys d) ->
  x ∈ OD.keys (OD.pop k d) <-> x ∈ OD.keys d /\ x <> k.
Proof.
  induction d as [|[k' v'] d IH]; simpl.
  - intros _. split; [intros Hx; by apply elem_of_nil in Hx|].
    intros [Hx _]; by apply elem_of_nil in Hx.
  - intros Hnd. apply NoDup_cons in Hnd as [Hk' Hnd].
    destruct (decide (k' = k)) as [->|Hne]; simpl.
    + rewrite elem_of_cons. split.
      * intros Hx. split; [by right|]. intros ->. done.
      * intros [[->|Hx] Hxk]; done.
    + rewrite !elem_of_cons, (IH Hnd). intuition congruence.
Qed.

Lemma od_keys_pop_NoDup k d :
  NoDup (OD.keys d) -> NoDup (OD.keys (OD.pop k d)).
Proof.
  induction d as [|[k' v'] d IH]; simpl; [done|].
  intros Hnd. pose proof Hnd as Hnd0.
  apply NoDup_cons in Hnd as [Hk' Hnd].
  destruct (decide (k' = k)) as [->|Hne]; simpl; [done|].
  apply NoDup_cons. split; [|by apply IH].
  intros Hin. apply (od_keys_pop_elem k k' d Hnd) in Hin as [Hin _]. done.
Qed.

Lemma od_keys_pop_length k d :
  k ∈ OD.keys d ->
  S (length (OD.keys (OD.pop k d))) = length (OD.keys d).
Proof.
  induction d as [|[k' v'] d IH]; simpl.
  - intros Hin. by apply elem_of_nil in Hin.
  - intros Hin. destruct (decide (k' = k)) as [->|Hne]; simpl; [done|].
    apply elem_of_cons in Hin as [->|Hin]; [done|]. by rewrite IH.
Qed.

Lemma od_keys_pop_head k k1 d :
  head (OD.keys d) = Some k1 -> k <> k1 ->
  head (OD.keys (OD.pop k d)) = Some k1.
Proof.
  destruct d as [|[k' v'] d]; simpl; [done|].
  intros [= ->] Hne. by rewrite decide_False.
Qed.

Lemma od_keys_move_to_end k d :
  k ∈ OD.keys d ->
  OD.keys (OD.move_to_end k d) = OD.keys (OD.pop k d) ++ [k].
Proof.
  intros Hin. unfold OD.move_to_end.
  apply od_get_Some in Hin as [v ->].
  unfold OD.keys. by rewrite map_app.
Qed.

Lemma od_move_to_end_NoDup k d :
  NoDup (OD.keys d) -> NoDup (OD.keys (OD.move_to_end k d)).
Proof.
  intros Hnd. destruct (decide (k ∈ OD.keys d)) as [Hin|Hn].
  - rewrite od_keys_move_to_end by done.
    apply NoDup_app. split; [by apply od_keys_pop_NoDup|]. split.
    + intros x Hx Hx'. apply list_elem_of_singleton in Hx' as ->.
      by apply od_keys_pop_elem in Hx as [_ ?].
    + apply NoDup_singleton.
  - unfold OD.move_to_end. apply od_get_None in Hn. by rewrite Hn.
Qed.

Lemma od_move_to_end_elem k x d :
  NoDup (OD.keys d) ->
  x ∈ OD.keys (OD.move_to_end k d) <-> x ∈ OD.keys d.
Proof.
  intros Hnd. destruct (decide (k ∈ OD.keys d)) as [Hin|Hn].
  - rewrite od_keys_move_to_end by done.
    rewrite elem_of_app, od_keys_pop_elem, list_elem_of_singleton by done.
    destruct (decide (x = k)) as [->|]; tauto.
  - unfold OD.move_to_end. apply od_get_None in Hn. by rewrite Hn.
Qed.

Lemma od_move_to_end_length k d :
  length (OD.keys (OD.move_to_end k d)) = length (OD.keys d).
Proof.
  destruct (decide (k ∈ OD.keys d)) as [Hin|Hn].
  - rewrite od_keys_move_to_end, length_app by done. simpl.
    rewrite <- (od_keys_pop_length k d Hin). lia.
  - unfold OD.move_to_end. apply od_get_None in Hn. by rewrite Hn.
Qed.

Lemma od_move_to_end_head k k1 d :
  head (OD.keys d) = Some k1 -> k <> k1 ->
  head (OD.keys (OD.move_to_end k d)) = Some k1.
Proof.
  intros Hhd Hne. destruct (decide (k ∈ OD.keys d)) as [Hin|Hn].
  - rewrite od_keys_move_to_end by done.
    pose proof (od_keys_pop_head k k1 d Hhd Hne) as Hp.
    destruct (OD.keys (OD.pop k d)); [done|exact Hp].
  - unfold OD.move_to_end. apply od_get_None in Hn. by rewrite Hn.
Qed.

End OrderedDictFacts.

Section Lru.
Import PyStr Conversation.
Context {F : Type} `{PyFloat F}.
Implicit Types (svc : ConversationService F) (cid : str).

Lemma evict_oldest_room (max : Z) (convs : list (str * ConversationContext))
    (stats : gmap str (ConversationStats F)) :
  len convs < max -> evict_oldest max convs stats = Some (convs, stats).
Proof.
  intros Hlt. destruct convs as [|[k c] rest]; simpl.
  - unfold len in Hlt; simpl in Hlt.
    destruct (Z.leb_spec max 0); [lia|done].
  - destruct (Z.leb_spec max (len ((k, c) :: rest))); [lia|done].
Qed.

Lemma evict_oldest_full (k : str) (c : ConversationContext)
    (rest : list (str * ConversationContext))
    (stats : gmap str (ConversationStats F)) :
  evict_oldest (len ((k, c) :: rest)) ((k, c) :: rest) stats
  = Some (rest, delete k stats).
Proof.
  cbn [evict_oldest]. rewrite Z.leb_refl.
  apply evict_oldest_room. unfold len; simpl. lia.
Qed.

(** A creation below capacity appends the new id. *)
Lemma create_with_room svc cid (now : Z) :
  len (_conversations svc) < max_conversations svc ->
  cid ∉ lru_order svc ->
  exists svc',
    step svc (Create cid now) = Some svc'
    /\ max_conversations svc' = max_conversations svc
    /\ lru_order svc' = lru_order svc ++ [cid].
Proof.
  intros Hroom Hnew. unfold step, create_conversation.
  rewrite evict_oldest_room by done. simpl.
  eexists; split; [reflexivity|]. split; [done|].
  unfold lru_order; simpl. by apply od_keys_set_new.
Qed.

(** A creation at capacity evicts the first id, with its statistics, and
    nothing else. *)
Lemma create_when_full svc cid (now : Z) (k1 : str) (rest : list str) :
  lru_order svc = k1 :: rest ->
  NoDup (lru_order svc) ->
  len (lru_order svc) = max_conversations svc ->
  cid ∉ lru_order svc ->
  exists svc',
    step svc (Create cid now) = Some svc'
    /\ lru_order svc' = rest ++ [cid]
    /\ _stats svc' !! k1 = None.
Proof.
  unfold lru_order. destruct svc as [mx mm ttl convs stats]; simpl.
  destruct convs as [|[k c] convs]; simpl; [done|].
  intros [= <- <-] Hnd Hlen Hnew.
  unfold step, create_conversation; simpl _conversations; simpl _stats;
    simpl max_conversations.
  assert (Hmx : mx = len ((k, c) :: convs)).
  { unfold len, OD.keys in *. cbn [length map] in *.
    rewrite length_map in Hlen. lia. }
  rewrite Hmx, evict_oldest_full. simpl.
  eexists; split; [reflexivity|]. simpl.
  apply not_elem_of_cons in Hnew as [Hne Hnew]. split.
  - by apply od_keys_set_new.
  - rewrite lookup_insert_ne by done. apply lookup_delete_eq.
Qed.

(** An access keeps the ids, moves the accessed one to the end and leaves
    the first in place unless it is the one accessed. *)
Lemma get_conversation_order svc cid (now : Z) :
  let svc' := snd (get_conversation svc cid now) in
  max_conversations svc' = max_conversations svc
  /\ lru_order svc' = OD.keys (OD.move_to_end cid (_conversations svc))
  /\ (cid ∈ lru_order svc -> last (lru_order svc') = Some cid).
Proof.
  unfold get_conversation, lru_order.
  destruct (OD.get cid (_conversations svc)) eqn:E; simpl.
  - split; [done|]. split; [done|]. intros Hin.
    rewrite od_keys_move_to_end by done. apply last_snoc.
  - split; [done|]. split.
    + unfold OD.move_to_end. by rewrite E.
    + intros Hin. apply od_get_Some in Hin as [? ?]. congruence.
Qed.

Lemma get_or_create_present svc cid (now : Z) :
  cid ∈ lru_order svc ->
  step svc (GetOrCreate cid now) = step svc (Get cid now).
Proof.
  intros Hin. apply od_get_Some in Hin as [c Hc].
  unfold step, get_or_create, get_conversation. by rewrite Hc.
Qed.

Lemma get_or_create_absent svc cid (now : Z) :
  cid ∉ lru_order svc ->
  step svc (GetOrCreate cid now) = step svc (Create cid now).
Proof.
  intros Hn. apply od_get_None in Hn.
  unfold step, get_or_create, get_conversation. by rewrite Hn.
Qed.

Lemma step_get_quiet (c1 : str) (known : list str) svc cid (now : Z) :
  cid <> c1 -> first_is_oldest c1 known svc ->
  first_is_oldest c1 known (snd (get_conversation svc cid now))
  /\ length (lru_order (snd (get_conversation svc cid now)))
     = length (lru_order svc).
Proof.
  intros Hne (Hhd & Hnd & Hknown).
  destruct (get_conversation_order svc cid now) as (_ & Hord & _).
  unfold first_is_oldest. rewrite Hord. unfold lru_order in *.
  split; [split; [|split]|].
  - by apply od_move_to_end_head.
  - by apply od_move_to_end_NoDup.
  - intros k. by rewrite od_move_to_end_elem.
  - apply od_move_to_end_length.
Qed.

Lemma step_create_quiet (c1 : str) (known : list str) svc cid (now : Z) :
  cid ∉ known -> first_is_oldest c1 known svc ->
  len (_conversations svc) < max_conversations svc ->
  exists svc',
    step svc (Create cid now) = Some svc'
    /\ max_conversations svc' = max_conversations svc
    /\ first_is_oldest c1 (cid :: known) svc'
    /\ length (lru_order svc') = S (length (lru_order svc)).
Proof.
  intros Hnew (Hhd & Hnd & Hknown) Hroom.
  assert (Hnew' : cid ∉ lru_order svc) by (by rewrite Hknown).
  destruct (create_with_room svc cid now Hroom Hnew') as (svc' & Hs & Hmx & Hord).
  exists svc'. split; [done|]. split; [done|].
  unfold first_is_oldest. rewrite Hord. split; [split; [|split]|].
  - destruct (lru_order svc); [done|exact Hhd].
  - apply NoDup_app. split; [done|]. split; [|apply NoDup_singleton].
    intros x Hx Hx'. by apply list_elem_of_singleton in Hx' as ->.
  - intros k. rewrite elem_of_app, list_elem_of_singleton, elem_of_cons, Hknown.
    tauto.
  - rewrite length_app. simpl. lia.
Qed.

(** A trace that does not name the first conversation and creates no more
    conversations than fit leaves it the least recently used one. *)
Lemma run_quiet (c1 : str) (ops : list Op) :
  forall (known : list str) svc,
    first_is_oldest c1 known svc ->
    c1 ∉ map op_id ops ->
    fresh_creates known ops ->
    len (lru_order svc) + len (new_ids known ops) <= max_conversations svc ->
    exists svc',
      run svc ops = Some svc'
      /\ max_conversations svc' = max_conversations svc
      /\ first_is_oldest c1 (new_ids known ops ++ known) svc'
      /\ len (lru_order svc') = len (lru_order svc) + len (new_ids known ops).
Proof.
  assert (Hperm : forall (a : str) l1 l2 k,
             k ∈ l1 ++ a :: l2 <-> k ∈ (a :: l1) ++ l2).
  { intros a l1 l2 k. rewrite !elem_of_app, !elem_of_cons. tauto. }
  assert (Hcreate : forall cid now ops' known svc,
    (forall known' svc0,
        first_is_oldest c1 known' svc0 ->
        c1 ∉ map op_id ops' ->
        fresh_creates known' ops' ->
        len (lru_order svc0) + len (new_ids known' ops')
          <= max_conversations svc0 ->
        exists svc',
          run svc0 ops' = Some svc'
          /\ max_conversations svc' = max_conversations svc0
          /\ first_is_oldest c1 (new_ids known' ops' ++ known') svc'
          /\ len (lru_order svc')
             = len (lru_order svc0) + len (new_ids known' ops')) ->
    first_is_oldest c1 known svc ->
    c1 ∉ map op_id ops' ->
    cid ∉ known ->
    fresh_creates (cid :: known) ops' ->
    len (lru_order svc) + len (cid :: new_ids (cid :: known) ops')
      <= max_conversations svc ->
    forall o, step svc o = step svc (Create cid now) ->
    exists svc',
      run svc (o :: ops') = Some svc'
      /\ max_conversations svc' = max_conversations svc
      /\ first_is_oldest c1 ((cid :: new_ids (cid :: known) ops') ++ known)
           svc'
      /\ len (lru_order svc')
         = len (lru_order svc) + len (cid :: new_ids (cid :: known) ops')).
  { intros cid now ops' known svc IH Hinv Hc1 Hnew Hfresh Hcap o Ho.
    unfold len in Hcap; simpl in Hcap.
    assert (Hroom : len (_conversations svc) < max_conversations svc).
    { unfold len, lru_order, OD.keys in *. rewrite length_map in Hcap. lia. }
    destruct (step_create_quiet c1 known svc cid now Hnew Hinv Hroom)
      as (svc1 & Hs & Hmx & Hinv1 & Hlen1).
    destruct (IH (cid :: known) svc1 Hinv1 Hc1 Hfresh) as (svc' & Hr & Hmx' & Hinv' & Hlen').
    { unfold len in *. rewrite Hmx, Hlen1. lia. }
    exists svc'. simpl. rewrite Ho, Hs. split; [done|].
    split; [congruence|]. split.
    - destruct Hinv' as (? & ? & Hk). split; [done|]. split; [done|].
      intros k. rewrite Hk. apply Hperm.
    - unfold len in *. simpl. rewrite Hlen', Hlen1. lia. }
  induction ops as [|o ops IH]; intros known svc Hinv Hc1 Hfresh Hcap.
  - exists svc. simpl. split; [done|]. split; [done|]. split; [done|].
    unfold len; simpl; lia.
  - simpl in Hc1. apply not_elem_of_cons in Hc1 as [Hne Hc1].
    destruct o as [cid now|cid now|cid now]; simpl in Hne.
    + destruct Hfresh as [Hnew Hfresh].
      by apply (Hcreate cid now ops known svc IH Hinv Hc1 Hnew Hfresh Hcap).
    + destruct (step_get_quiet c1 known svc cid now) as [Hinv1 Hlen1];
        [done|done|].
      pose proof (get_conversation_order svc cid now) as (Hmx1 & _ & _).
      destruct (IH known (snd (get_conversation svc cid now)) Hinv1 Hc1 Hfresh)
        as (svc' & Hr & Hmx' & Hinv' & Hlen').
      { simpl in Hcap. unfold len in *. rewrite Hmx1, Hlen1. exact Hcap. }
      exists svc'. simpl. split; [done|]. split; [congruence|].
      split; [done|]. unfold len in *. rewrite Hlen', Hlen1. done.
    + simpl in Hfresh, Hcap |- *.
      destruct (decide (cid ∈ known)) as [Hin|Hnew].
      * assert (Hin' : cid ∈ lru_order svc) by (by apply Hinv).
        pose proof (get_or_create_present svc cid now Hin') as Hstep.
        destruct (step_get_quiet c1 known svc cid now) as [Hinv1 Hlen1];
          [done|done|].
        pose proof (get_conversation_order svc cid now) as (Hmx1 & _ & _).
        destruct (IH known (snd (get_conversation svc cid now)) Hinv1 Hc1
                    Hfresh) as (svc' & Hr & Hmx' & Hinv' & Hlen').
        { unfold len in *. rewrite Hmx1, Hlen1. exact Hcap. }
        exists svc'. simpl in Hstep. rewrite Hstep.
        split; [done|]. split; [congruence|].
        split; [done|]. unfold len in *. rewrite Hlen', Hlen1. done.
      * assert (Hnew' : cid ∉ lru_order svc).
        { intros Hin. apply Hnew. by apply Hinv. }
        apply (Hcreate cid now ops known svc IH Hinv Hc1 Hnew Hfresh Hcap
                 (GetOrCreate cid now)).
        by apply get_or_create_absent.
Qed.

Lemma run_app svc (ops1 ops2 : list Op) :
  run svc (ops1 ++ ops2)
  = match run svc ops1 with
    | Some svc' => run svc' ops2
    | None => None
    end.
Proof.
  revert svc. induction ops1 as [|o ops1 IH]; intros svc; simpl; [done|].
  destruct (step svc o); [apply IH|done].
Qed.

Lemma new_ids_named (known : list str) (ops : list Op) (k : str) :
  k ∈ new_ids known ops -> k ∈ map op_id ops.
Proof.
  revert known. induction ops as [|o ops IH]; intros known; simpl.
  - intros Hk. by apply elem_of_nil in Hk.
  - destruct o as [cid now|cid now|cid now]; simpl.
    + rewrite !elem_of_cons. intros [->|Hk]; [by left|right; eauto].
    + rewrite elem_of_cons. intros Hk; right; eauto.
    + destruct (decide (cid ∈ known)); rewrite ?elem_of_cons.
      * intros Hk; right; eauto.
      * intros [->|Hk]; [by left|right; eauto].
Qed.

(** The cache after the first creation and a quiet trace that fills it. *)
Lemma run_fills (N mm ttl : Z) (c1 : str) (now0 : Z) (ops : list Op) :
  1 <= N ->
  c1 ∉ map op_id ops ->
  fresh_creates [c1] ops ->
  len (new_ids [c1] ops) = N - 1 ->
  exists svc,
    run (init N mm ttl) (Create c1 now0 :: ops) = Some svc
    /\ max_conversations svc = N
    /\ first_is_oldest c1 (new_ids [c1] ops ++ [c1]) svc
    /\ len (lru_order svc) = N.
Proof.
  intros HN Hc1 Hfresh Hcount.
  destruct (create_with_room (init N mm ttl) c1 now0) as (svc1 & Hs & Hmx & Hord).
  { unfold len; simpl. lia. }
  { unfold lru_order; simpl. apply not_elem_of_nil. }
  unfold lru_order at 2 in Hord; simpl in Hord.
  assert (Hinv1 : first_is_oldest c1 [c1] svc1).
  { unfold first_is_oldest. rewrite Hord. split; [done|].
    split; [apply NoDup_singleton|done]. }
  destruct (run_quiet c1 ops [c1] svc1 Hinv1 Hc1 Hfresh)
    as (svc & Hr & Hmx' & Hinv & Hlen).
  { rewrite Hord, Hmx, Hcount. unfold len; simpl. lia. }
  exists svc. cbn [run]. rewrite Hs. split; [done|].
  split; [by rewrite Hmx', Hmx|]. split; [done|].
  rewrite Hlen, Hord, Hcount. unfold len; simpl. lia.
Qed.

(** An access followed by a creation at capacity keeps the conversation
    accessed, when the cache holds at least two. *)
Lemma access_protects svc (c cnew : str) (now now' : Z) :
  NoDup (lru_order svc) ->
  len (lru_order svc) = max_conversations svc ->
  2 <= max_conversations svc ->
  c ∈ lru_order svc ->
  cnew ∉ lru_order svc ->
  let svc1 := snd (get_conversation svc c now) in
  last (lru_order svc1) = Some c
  /\ exists svc2,
       step svc1 (Create cnew now') = Some svc2
       /\ c ∈ lru_order svc2
       /\ len (lru_order svc2) = max_conversations svc.
Proof.
  intros Hnd Hlen Hmax Hc Hnew svc1.
  destruct (get_conversation_order svc c now) as (Hmx1 & Hord1 & Hlast).
  fold svc1 in Hmx1, Hord1, Hlast. split; [by apply Hlast|].
  assert (Hord1' : lru_order svc1 = OD.keys (OD.pop c (_conversations svc)) ++ [c]).
  { rewrite Hord1. by apply od_keys_move_to_end. }
  pose proof (od_keys_pop_length c (_conversations svc) Hc) as Hpl.
  fold (lru_order svc) in Hpl.
  destruct (OD.keys (OD.pop c (_conversations svc))) as [|h t] eqn:Hpop.
  { unfold len in *. simpl in Hpl. lia. }
  destruct (create_when_full svc1 cnew now' h (t ++ [c])) as (svc2 & Hs & Hord2 & _).
  - by rewrite Hord1'.
  - rewrite Hord1. by apply od_move_to_end_NoDup.
  - rewrite Hmx1, Hord1, <- Hlen. unfold len, lru_order.
    by rewrite od_move_to_end_length.
  - rewrite Hord1. unfold lru_order in Hnew. by rewrite od_move_to_end_elem.
  - exists svc2. split; [done|]. rewrite Hord2. split.
    + rewrite !elem_of_app, list_elem_of_singleton. by left; right.
    + rewrite <- Hlen. unfold len in *. rewrite !length_app. simpl.
      simpl in Hpl. lia.
Qed.

End Lru.

(** C5 (as stated, refuted): with room for one conversation, the
    conversation just accessed is evicted by the next creation. *)
Lemma lru_capacity_one_evicts_accessed :
  lru_order
    <$> run (Conversation.init (F := Q) 1 100 24)
          [Create (py "a") 0; Get (py "a") 1; Create (py "b") 2]
  = Some [py "b"].
Proof. vm_compute. reflexivity. Qed.

(** C5 (amended): let the cache have room for [N >= 1] conversations.
    Create a first conversation, then run any calls of
    [create_conversation], [get_conversation] and [get_or_create] that
    never name the first conversation and create [N - 1] further
    conversations with distinct ids, then create one more with a new id:
    exactly the first conversation is evicted, with its statistics, and
    the other [N] remain.  If [N >= 2] and a conversation of the cache is
    accessed through [get_conversation] or [get_or_create] just before
    that last creation, the access makes it the most recently used one
    and it survives the creation. *)
Theorem lru_evicts_first_created :
  forall (F : Type) (HF : PyFloat F) (N mm ttl : Z) (c1 cnew : str)
         (now0 now1 now2 : Z) (ops : list Op),
    1 <= N ->
    c1 ∉ map op_id ops ->
    fresh_creates [c1] ops ->
    PyStr.len (new_ids [c1] ops) = N - 1 ->
    cnew ∉ c1 :: new_ids [c1] ops ->
    (exists svc : Conversation.ConversationService F,
        run (Conversation.init N mm ttl)
          (Create c1 now0 :: ops ++ [Create cnew now1]) = Some svc
        /\ (c1 ∉ lru_order svc)
        /\ Conversation._stats svc !! c1 = None
        /\ (forall k, k ∈ new_ids [c1] ops ++ [cnew] -> k ∈ lru_order svc)
        /\ PyStr.len (lru_order svc) = N)
    /\ (2 <= N ->
        forall (c : str) (access : Op),
          c ∈ c1 :: new_ids [c1] ops ->
          access = Get c now2 \/ access = GetOrCreate c now2 ->
          exists svc1 svc2 : Conversation.ConversationService F,
            run (Conversation.init N mm ttl)
              (Create c1 now0 :: ops ++ [access]) = Some svc1
            /\ last (lru_order svc1) = Some c
            /\ step svc1 (Create cnew now1) = Some svc2
            /\ c ∈ lru_order svc2
            /\ PyStr.len (lru_order svc2) = N).
Proof.
  intros F HF N mm ttl c1 cnew now0 now1 now2 ops HN Hc1 Hfresh Hcount Hnew.
  destruct (run_fills N mm ttl c1 now0 ops HN Hc1 Hfresh Hcount)
    as (svcf & Hrun & Hmx & (Hhd & Hnd & Hknown) & Hlen).
  assert (Hnew' : cnew ∉ lru_order svcf).
  { rewrite Hknown. intros Hin. apply Hnew.
    apply elem_of_app in Hin as [Hin|Hin]; [by right|].
    apply list_elem_of_singleton in Hin as ->. by left. }
  split.
  - destruct (lru_order svcf) as [|k1 rest] eqn:Hord; [done|].
    injection Hhd as ->.
    destruct (create_when_full svcf cnew now1 c1 rest Hord)
      as (svc & Hs & Hord' & Hstats).
    { by rewrite Hord. }
    { by rewrite Hord, Hlen, Hmx. }
    { by rewrite Hord. }
    exists svc. rewrite app_comm_cons, run_app, Hrun. cbn [run].
    rewrite Hs. split; [done|]. rewrite Hord'.
    apply NoDup_cons in Hnd as [Hc1rest Hnd].
    apply not_elem_of_cons in Hnew as [Hne _].
    split; [|split; [done|split]].
    + rewrite elem_of_app, list_elem_of_singleton. intros [?|?]; done.
    + intros k Hk. apply elem_of_app in Hk as [Hk|Hk].
      * apply elem_of_app; left.
        assert (Hk' : k ∈ c1 :: rest).
        { apply Hknown, elem_of_app. by left. }
        apply elem_of_cons in Hk' as [->|Hk']; [|done].
        exfalso. apply Hc1. by apply (new_ids_named [c1]).
      * apply elem_of_app; by right.
    + rewrite <- Hlen. unfold PyStr.len. rewrite length_app. simpl. lia.
  - intros HN2 c access Hc Haccess.
    assert (Hc' : c ∈ lru_order svcf).
    { apply Hknown. apply elem_of_cons in Hc as [->|Hc].
      - apply elem_of_app; right. by apply list_elem_of_singleton.
      - apply elem_of_app; by left. }
    destruct (access_protects svcf c cnew now2 now1) as (Hlast & svc2 & Hs & Hin & Hl);
      [done|by rewrite Hlen, Hmx|by rewrite Hmx|done|done|].
    exists (snd (Conversation.get_conversation svcf c now2)), svc2.
    rewrite app_comm_cons, run_app, Hrun. cbn [run].
    assert (Hstep : step svcf access
                    = Some (snd (Conversation.get_conversation svcf c now2))).
    { destruct Haccess as [->| ->]; [done|].
      by rewrite get_or_create_present. }
    rewrite Hstep. split; [done|]. split; [done|]. split; [done|].
    split; [done|]. by rewrite Hl, Hmx.
Qed.

(** The theorem on a cache of two: ["a"] is created, ["b"] is created and
    read, and the creation of ["c"] evicts ["a"]. *)
Lemma lru_evicts_first_created_witness :
  exists svc : Conversation.ConversationService Q,
    run (Conversation.init 2 100 24)
      (Create (py "a") 0
         :: [Create (py "b") 1; Get (py "b") 2] ++ [Create (py "c") 3])
    = Some svc
    /\ (py "a" ∉ lru_order svc)
    /\ Conversation._stats svc !! py "a" = None.
Proof.
  destruct (lru_evicts_first_created Q Q_float 2 100 24 (py "a") (py "c")
              0 3 4 [Create (py "b") 1; Get (py "b") 2])
    as [(svc & Hrun & Hgone & Hstats & _) _].
  - lia.
  - vm_compute. intros Hin. repeat (apply elem_of_cons in Hin as [Hin|Hin];
      [discriminate Hin|]). by apply elem_of_nil in Hin.
  - split; [|exact I]. vm_compute. intros Hin.
    repeat (apply elem_of_cons in Hin as [Hin|Hin]; [discriminate Hin|]).
    by apply elem_of_nil in Hin.
  - reflexivity.
  - vm_compute. intros Hin.
    repeat (apply elem_of_cons in Hin as [Hin|Hin]; [discriminate Hin|]).
    by apply elem_of_nil in Hin.
  - exists svc. split; [exact Hrun|]. split; [exact Hgone|exact Hstats].
Defined.

(** ** Termination of the splitter *)

Section SplitterTermination.
Import PyStr Splitter.
Variable self : TextSplitter.
Hypothesis size_pos : 1 <= chunk_size self.
Hypothesis overlap_nonneg : 0 <= chunk_overlap self.
Hypothesis overlap_small : chunk_overlap self <= chunk_size self / 2.

(** The window moves forward by at least one character, and by at least
    [chunk_size / 2 + 1 - chunk_overlap] when it is cut at a space. *)
Lemma next_start_advances (text : str) (start : Z) :
  1 <= next_start self text start - start
  /\ ((start + chunk_size self <? len text) = true ->
      (chunk_size self / 2
         <? rfind (slice text start (start + chunk_size self)) " ") = true ->
      snd (window self text start)
        = start + rfind (slice text start (start + chunk_size self)) " "
      /\ chunk_size self / 2 + 1 - chunk_overlap self
         <= next_start self text start - start).
Proof.
  unfold next_start, window.
  destruct (start + chunk_size self <? len text) eqn:Eend.
  - destruct (chunk_size self / 2 <? rfind _ " ") eqn:Ecut; simpl.
    + apply Z.ltb_lt in Ecut. split; [lia|]. intros _ _. split; [done|lia].
    + split; [|done]. Z.div_mod_to_equations; lia.
  - simpl. split; [|done]. Z.div_mod_to_equations; lia.
Qed.

Lemma split_by_size_loop_terminates (text : str) (fuel : nat) :
  forall (start : Z) (chunks : list str),
    Z.max 0 (len text - start) < Z.of_nat fuel ->
    exists r, split_by_size_loop self fuel text start chunks = Some r.
Proof.
  induction fuel as [|fuel IH]; intros start chunks Hfuel; [lia|].
  simpl. destruct (Z.ltb_spec start (len text)) as [Hin|Hout]; [|by eauto].
  apply IH. pose proof (next_start_advances text start) as [Hadv _]. lia.
Qed.

Lemma split_by_size_terminates (text : str) (fuel : nat) :
  (length text < fuel)%nat ->
  exists r, _split_by_size self fuel text = Some r.
Proof.
  intros Hfuel. apply split_by_size_loop_terminates. unfold len. lia.
Qed.

Lemma split_go_length (sep : str) (s : str) :
  forall (skip : nat) (cur p : str),
    p ∈ split_go sep skip cur s -> (length p <= length cur + length s)%nat.
Proof.
  induction s as [|c s IH]; intros skip cur p; simpl.
  - intros Hp. apply list_elem_of_singleton in Hp as ->.
    rewrite length_rev. lia.
  - destruct skip as [|k].
    + destruct (startswith sep (c :: s)).
      * intros Hp. apply elem_of_cons in Hp as [->|Hp].
        -- rewrite length_rev. lia.
        -- apply IH in Hp. simpl in Hp. lia.
      * intros Hp. apply IH in Hp. simpl in Hp. lia.
    + intros Hp. apply IH in Hp. lia.
Qed.

Lemma separator_loop_terminates (recurse : str -> option (list str))
    (separator : str) (splits : list str) :
  (forall s, s ∈ splits -> exists r, recurse s = Some r) ->
  forall (chunks : list str) (current_chunk : str),
    exists r,
      separator_loop self recurse separator splits chunks current_chunk
      = Some r.
Proof.
  induction splits as [|split splits IH]; intros Hrec chunks cur; simpl.
  - by eauto.
  - assert (Hrec' : forall s, s ∈ splits -> exists r, recurse s = Some r).
    { intros s Hs. apply Hrec. by right. }
    destruct (strip split); [by apply IH|].
    destruct (_ <=? _); [by apply IH|].
    destruct (_ <? _); [|by apply IH].
    destruct (Hrec split) as [sub ->]; [by left|]. by apply IH.
Qed.

Lemma try_separators_terminates (recurse : str -> option (list str))
    (fallback : option (list str)) (text : str) (seps : list str) :
  (forall s, (length s <= length text)%nat -> exists r, recurse s = Some r) ->
  (exists r, fallback = Some r) ->
  exists r, try_separators self recurse fallback text seps = Some r.
Proof.
  intros Hrec Hfall. induction seps as [|sep seps IH]; simpl; [done|].
  destruct sep as [|a sep]; [done|].
  destruct (contains _ _); [|done].
  unfold _split_with_separator.
  destruct (separator_loop_terminates recurse (a :: sep)
              (split text (a :: sep))) with (chunks := @nil str)
      (current_chunk := @nil ascii) as [[chunks cur] ->].
  - intros s Hs. apply Hrec. unfold split in Hs.
    apply split_go_length in Hs. simpl in Hs. lia.
  - destruct (_apply_overlap _ _); [done|by eauto].
Qed.

Lemma recursive_split_terminates (fuel : nat) (seps : list str) :
  forall text : str,
    (length text < fuel)%nat ->
    exists r, _recursive_split self fuel seps text = Some r.
Proof.
  induction seps as [|sep seps IH]; intros text Hfuel;
    (destruct text as [|c text]; cbn [_recursive_split]; [by eauto|]);
    (destruct (_ <=? _); [by eauto|]).
  - cbn [try_separators]. by apply split_by_size_terminates.
  - apply try_separators_terminates.
    + intros s Hs. apply IH. lia.
    + by apply split_by_size_terminates.
Qed.

End SplitterTermination.

(** C10: with [chunk_size >= 1] and [0 <= chunk_overlap <= chunk_size / 2]
    (integer division), [split_text] answers on every text once the fuel
    exceeds the length of the text; a recursive call of [_recursive_split]
    is made on the separators without the first, a strictly shorter list;
    and every iteration of the fixed-width fallback moves the start of
    the window forward by at least one character, and by at least
    [chunk_size / 2 + 1 - chunk_overlap] when it cuts at a space past the
    midpoint of the window. *)
Theorem split_text_terminates :
  forall (self : TextSplitter) (text : str) (fuel : nat),
    1 <= chunk_size self ->
    0 <= chunk_overlap self ->
    chunk_overlap self <= chunk_size self / 2 ->
    (length text < fuel)%nat ->
    (exists chunks, Splitter.split_text self fuel text = Some chunks)
    /\ (forall (sep : str) (remaining : list str) (c : ascii) (t : str),
          chunk_size self < PyStr.len (c :: t) ->
          Splitter._recursive_split self fuel (sep :: remaining) (c :: t)
          = Splitter.try_separators self
              (Splitter._recursive_split self fuel remaining)
              (Splitter._split_by_size self fuel (c :: t)) (c :: t)
              (sep :: remaining)
          /\ remaining = PyStr.slice_from (sep :: remaining) 1
          /\ (length remaining < length (sep :: remaining))%nat)
    /\ (forall start : Z,
          1 <= Splitter.next_start self text start - start
          /\ ((start + chunk_size self <? PyStr.len text) = true ->
              (chunk_size self / 2
                 <? PyStr.rfind
                      (PyStr.slice text start (start + chunk_size self)) " ")
              = true ->
              snd (Splitter.window self text start)
                = start
                  + PyStr.rfind
                      (PyStr.slice text start (start + chunk_size self)) " "
              /\ chunk_size self / 2 + 1 - chunk_overlap self
                 <= Splitter.next_start self text start - start)).
Proof.
  intros self text fuel Hsize Hov Hov2 Hfuel. split; [|split].
  - by apply recursive_split_terminates.
  - intros sep remaining c t Hlong. split; [|split].
    + cbn [Splitter._recursive_split].
      destruct (Z.leb_spec (PyStr.len (c :: t)) (chunk_size self)); [lia|done].
    + assert (Hb : PyStr.bound (sep :: remaining) 1 = 1%nat).
      { unfold PyStr.bound, PyStr.len. cbn [length].
        change (1 <? 0) with false. cbv iota. lia. }
      unfold PyStr.slice_from. by rewrite Hb.
    + simpl. lia.
  - intros start. by apply next_start_advances.
Qed.

(** The theorem on the default configuration and a short text. *)
Lemma split_text_terminates_witness :
  exists chunks,
    Splitter.split_text
      {| chunk_size := 1000; chunk_overlap := 200;
         separators := default_separators |}
      12 (py "hello world") = Some chunks.
Proof.
  apply (split_text_terminates
           {| chunk_size := 1000; chunk_overlap := 200;
              separators := default_separators |} (py "hello world") 12).
  - simpl; lia.
  - simpl; lia.
  - vm_compute. discriminate.
  - simpl; lia.
Defined.

(** ** Overlap between consecutive chunks *)

Section Overlap.
Import PyStr Splitter.
Variable self : TextSplitter.

Lemma find_from_split (c : ascii) (s : str) :
  forall i : Z,
    find_from i c s = -1 /\ c ∉ s
    \/ exists s1 s2,
         s = s1 ++ c :: s2 /\ (c ∉ s1) /\ find_from i c s = i + len s1.
Proof.
  induction s as [|a s IH]; intros i; simpl.
  - left. split; [done|apply not_elem_of_nil].
  - destruct (decide (a = c)) as [->|Hne].
    + right. exists [], s. split; [done|]. split; [apply not_elem_of_nil|].
      unfold len; simpl. lia.
    + destruct (IH (i + 1)) as [[Hnone Hnot]|(s1 & s2 & -> & Hnot & Hfound)].
      * left. split; [done|]. rewrite not_elem_of_cons. by split.
      * right. exists (a :: s1), s2. split; [done|].
        split; [rewrite not_elem_of_cons; by split|].
        rewrite Hfound. unfold len; simpl length. lia.
Qed.

Lemma overlap_window_suffix (prev : str) :
  0 < chunk_overlap self ->
  overlap_window self prev `suffix_of` prev
  /\ len (overlap_window self prev) <= chunk_overlap self.
Proof.
  intros Hov. unfold overlap_window.
  destruct (Z.ltb_spec (chunk_overlap self) (len prev)) as [Hlong|Hshort].
  - unfold slice_from. split; [apply suffix_drop|].
    unfold bound, len in *. rewrite length_drop.
    destruct (Z.ltb_spec (- chunk_overlap self) 0); lia.
  - split; [done|lia].
Qed.

Lemma trim_to_word_suffix (w : str) :
  trim_to_word w `suffix_of` w.
Proof.
  unfold trim_to_word. destruct (0 <? find w " "); [|done].
  apply suffix_drop.
Qed.

(** When the window holds a space after its first character, the overlap
    is what follows the first space. *)
Lemma trim_to_word_after_space (w : str) :
  0 < find w " " ->
  exists w1, w = w1 ++ " "%char :: trim_to_word w.
Proof.
  intros Hfound. unfold trim_to_word.
  destruct (Z.ltb_spec 0 (find w " ")) as [_|]; [|lia].
  unfold find in *.
  destruct (find_from_split " "%char w 0) as [[Hnone _]|(w1 & w2 & Hw & _ & Hidx)];
    [lia|].
  exists w1. rewrite Hidx. rewrite Hw at 1. f_equal. f_equal.
  unfold slice_from, bound.
  assert (Hlen : len w = len w1 + 1 + len w2).
  { rewrite Hw. unfold len. rewrite length_app. simpl. lia. }
  destruct (Z.ltb_spec (0 + len w1 + 1) 0); [unfold len in *; lia|].
  replace (Z.to_nat (0 `max` ((0 + len w1 + 1) `min` len w)))
    with (length w1 + 1)%nat by (unfold len in *; lia).
  rewrite Hw, (cons_middle _ w1 w2), app_assoc.
  rewrite drop_app_length'; [done|]. rewrite length_app. simpl. lia.
Qed.

Lemma overlap_text_suffix (prev : str) :
  0 < chunk_overlap self ->
  overlap_text self prev `suffix_of` prev
  /\ len (overlap_text self prev) <= chunk_overlap self.
Proof.
  intros Hov. destruct (overlap_window_suffix prev Hov) as [Hsuf Hlen].
  pose proof (trim_to_word_suffix (overlap_window self prev)) as Htrim.
  split; [by etrans|].
  apply suffix_length in Htrim. unfold overlap_text, len in *. lia.
Qed.

Lemma overlap_text_word_aligned (prev : str) :
  0 < chunk_overlap self ->
  0 < find (overlap_window self prev) " " ->
  starts_mid_word prev (overlap_text self prev) = false.
Proof.
  intros Hov Hfound.
  destruct (overlap_window_suffix prev Hov) as [[p Hp] _].
  destruct (trim_to_word_after_space _ Hfound) as [w1 Hw].
  unfold overlap_text. set (o := trim_to_word (overlap_window self prev)) in *.
  unfold starts_mid_word.
  assert (Hprev : prev = (p ++ w1 ++ [" "%char]) ++ o).
  { rewrite Hp, Hw. by rewrite <- !app_assoc. }
  rewrite Hprev at 1 2.
  replace (length ((p ++ w1 ++ [" "%char]) ++ o) - length o)%nat
    with (length (p ++ w1 ++ [" "%char])) by (rewrite (length_app _ o); lia).
  rewrite take_app_length.
  rewrite (app_assoc p w1), last_snoc. by destruct (head o).
Qed.

Lemma overlap_loop_lookup (rest : list str) :
  forall (first : str) (i : nat) (prev curr : str),
    (first :: rest) !! i = Some prev ->
    (first :: rest) !! S i = Some curr ->
    (first :: overlap_loop self first rest) !! S i
      = Some (overlap_text self prev ++ py " " ++ curr)
    /\ exists prev',
         (first :: overlap_loop self first rest) !! i = Some prev'
         /\ prev `suffix_of` prev'.
Proof.
  induction rest as [|c rest IH]; intros first i prev curr Hprev Hcurr.
  - destruct i; simpl in *; discriminate.
  - destruct i as [|i].
    + simpl in *. simplify_eq. split; [done|]. by exists prev.
    + cbn [overlap_loop]. change ((first :: c :: rest) !! S i)
        with ((c :: rest) !! i) in Hprev.
      change ((first :: c :: rest) !! S (S i))
        with ((c :: rest) !! S i) in Hcurr.
      destruct (IH c i prev curr Hprev Hcurr) as (Hout & prev' & Hprev' & Hsuf).
      split; [exact Hout|].
      destruct i as [|i].
      * simpl in *. simplify_eq. eexists; split; [reflexivity|].
        exists (overlap_text self first ++ [" "%char]).
        by rewrite <- app_assoc.
      * exists prev'. split; [exact Hprev'|exact Hsuf].
Qed.

(** Where the answer of [split_text] comes from. *)
Lemma try_separators_origin (recurse : str -> option (list str))
    (fallback : option (list str)) (text : str) (seps : list str)
    (out : list str) :
  try_separators self recurse fallback text seps = Some out ->
  fallback = Some out \/ exists chunks, out = _apply_overlap self chunks.
Proof.
  induction seps as [|sep seps IH]; simpl; [by left|].
  destruct sep as [|a sep]; [exact IH|].
  destruct (contains _ _); [|exact IH].
  unfold _split_with_separator.
  destruct (separator_loop _ _ _ _ _ _) as [[chunks cur]|]; [|done].
  destruct (_apply_overlap _ _) eqn:E; [exact IH|].
  intros [= <-]. right. eexists. by rewrite <- E.
Qed.

End Overlap.

(** C2 (as stated, refuted): with [chunk_size = 5] and
    [chunk_overlap = 2] the text ["abcde fghij"] is split at the space into
    ["abcde"] and ["fghij"]; the overlap put before the second chunk is
    ["de"], which holds no space and starts in the middle of ["abcde"]. *)
Lemma overlap_starts_mid_word :
  Splitter.split_text narrow_splitter 20 (py "abcde fghij")
    = Some (Splitter._apply_overlap narrow_splitter [py "abcde"; py "fghij"])
  /\ ~ overlap_never_mid_word narrow_splitter [py "abcde"; py "fghij"].
Proof.
  split; [vm_compute; reflexivity|].
  intros Hclaim.
  destruct (Hclaim 0%nat (py "abcde") (py "fghij") (py "de")
              eq_refl eq_refl eq_refl) as (_ & _ & Hmid).
  vm_compute in Hmid. discriminate.
Qed.

(** C2 (amended): let [chunk_overlap > 0].  The answer of [split_text] is
    empty, the single stripped text, the answer of the fixed-width
    fallback, or an answer of [_apply_overlap]; and in every answer of
    [_apply_overlap] each chunk but the first is an overlap, a space and
    the chunk it was made from, where the overlap is a suffix of the
    previous chunk, both as given and as answered, of length at most
    [chunk_overlap]: the last [chunk_overlap] characters of the previous
    chunk (all of it when it is shorter), cut after their first space when
    there is one past their first character, in which case the overlap
    does not start inside a word, and left whole otherwise. *)
Theorem apply_overlap_continuity :
  forall self : TextSplitter,
    0 < chunk_overlap self ->
    (forall (fuel : nat) (text : str) (out : list str),
        Splitter.split_text self fuel text = Some out ->
        out = []
        \/ out = [PyStr.strip text]
        \/ Splitter._split_by_size self fuel text = Some out
        \/ exists chunks, out = Splitter._apply_overlap self chunks)
    /\ (forall (chunks : list str) (i : nat) (prev curr : str),
          chunks !! i = Some prev ->
          chunks !! S i = Some curr ->
          let o := Splitter.overlap_text self prev in
          let w := Splitter.overlap_window self prev in
          Splitter._apply_overlap self chunks !! S i
            = Some (o ++ py " " ++ curr)
          /\ o `suffix_of` prev
          /\ (exists prev',
                Splitter._apply_overlap self chunks !! i = Some prev'
                /\ o `suffix_of` prev')
          /\ PyStr.len o <= chunk_overlap self
          /\ w = (if chunk_overlap self <? PyStr.len prev
                  then drop (length prev - Z.to_nat (chunk_overlap self)) prev
                  else prev)
          /\ (0 < PyStr.find w " " ->
                (exists w1, w = w1 ++ " "%char :: o)
                /\ starts_mid_word prev o = false)
          /\ (PyStr.find w " " <= 0 -> o = w)).
Proof.
  intros self Hov. split.
  - intros fuel text out. unfold Splitter.split_text.
    destruct (separators self) as [|sep seps];
      (destruct text as [|c text]; cbn [Splitter._recursive_split];
       [intros [= <-]; by left|]);
      (destruct (_ <=? _);
       [intros [= <-]; unfold PyStr.strip at 1;
        destruct (PyStr.rstrip _) eqn:E;
        [by left|right; left; unfold PyStr.strip; by rewrite E]|]).
    + cbn [Splitter.try_separators]. intros Hout. by right; right; left.
    + intros Hout. apply try_separators_origin in Hout as [Hout|Hout].
      * by right; right; left.
      * by right; right; right.
  - intros chunks i prev curr Hprev Hcurr o w.
    destruct chunks as [|first rest]; [done|].
    unfold Splitter._apply_overlap.
    destruct (Z.eqb_spec (chunk_overlap self) 0) as [Hz|_]; [lia|].
    destruct (overlap_loop_lookup self rest first i prev curr Hprev Hcurr)
      as (Hout & prev' & Hprev' & Hsuf).
    destruct (overlap_text_suffix self prev Hov) as [Hosuf Holen].
    split; [exact Hout|]. split; [exact Hosuf|].
    split; [exists prev'; split; [exact Hprev'|by etrans]|].
    split; [exact Holen|]. split; [|split].
    + subst w. unfold Splitter.overlap_window.
      destruct (Z.ltb_spec (chunk_overlap self) (PyStr.len prev)); [|done].
      unfold PyStr.slice_from, PyStr.bound, PyStr.len in *.
      destruct (Z.ltb_spec (- chunk_overlap self) 0); [|lia].
      f_equal. lia.
    + intros Hfound. split.
      * by apply trim_to_word_after_space.
      * by apply overlap_text_word_aligned.
    + intros Hnone. subst o w. unfold Splitter.overlap_text, Splitter.trim_to_word.
      destruct (Z.ltb_spec 0 (PyStr.find (Splitter.overlap_window self prev) " "));
        [lia|done].
Qed.

(** The theorem on the splitter with [chunk_overlap = 2]. *)
Lemma apply_overlap_continuity_witness :
  Splitter._apply_overlap narrow_splitter [py "abcde"; py "fghij"] !! 1%nat
    = Some (py "de" ++ py " " ++ py "fghij")
  /\ py "de" `suffix_of` py "abcde".
Proof.
  destruct (apply_overlap_continuity narrow_splitter) as [_ Hpairs];
    [simpl; lia|].
  destruct (Hpairs [py "abcde"; py "fghij"] 0%nat (py "abcde") (py "fghij")
              eq_refl eq_refl) as (Hout & Hsuf & _).
  split; [exact Hout|exact Hsuf].
Defined.

(** ** The embedding cache *)

Section Pigeonhole.

Lemma bounded_search (P : nat -> Prop) `{forall i, Decision (P i)} (m : nat) :
  (exists i, (i <= m)%nat /\ P i) \/ (forall i, (i <= m)%nat -> ~ P i).
Proof.
  induction m as [|m IH].
  - destruct (decide (P 0%nat)) as [H0|H0].
    + left. exists 0%nat. by split.
    + right. intros i Hi. by replace i with 0%nat by lia.
  - destruct IH as [(i & Hi & HP)|Hnone].
    + left. exists i. split; [lia|done].
    + destruct (decide (P (S m))) as [HS|HS].
      * left. exists (S m). by split.
      * right. intros i Hi. destruct (decide (i = S m)) as [->|]; [done|].
        apply Hnone. lia.
Qed.

(** [n + 1] values among [n] possible ones hold a repetition. *)
Lemma collision (n : nat) :
  forall f : nat -> Z,
    (forall i, (i <= n)%nat -> 0 <= f i < Z.of_nat n) ->
    exists i j, (i < j <= n)%nat /\ f i = f j.
Proof.
  induction n as [|m IH]; intros f Hf.
  - specialize (Hf 0%nat). lia.
  - destruct (bounded_search (fun i => f i = f (S m)) m)
      as [(i & Hi & Heq)|Hnone].
    + exists i, (S m). split; [lia|done].
    + set (v := f (S m)).
      destruct (IH (fun i => if f i <? v then f i else f i - 1))
        as (i & j & Hij & Heq).
      * intros i Hi. pose proof (Hf i) as Hfi. pose proof (Hf (S m)) as Hfv.
        pose proof (Hnone i Hi) as Hne. fold v in Hne, Hfv.
        destruct (Z.ltb_spec (f i) v); lia.
      * exists i, j. split; [lia|].
        pose proof (Hnone i) as Hni. pose proof (Hnone j) as Hnj.
        fold v in Hni, Hnj. simpl in Heq.
        destruct (Z.ltb_spec (f i) v), (Z.ltb_spec (f j) v); lia.
Qed.

(** A hash with 64-bit values sends two different texts to one value. *)
Lemma hash_collides (hash : str -> Z) :
  hash_in_range hash ->
  exists t1 t2 : str, t1 <> t2 /\ hash t1 = hash t2.
Proof.
  intros Hrange. unfold hash_in_range in Hrange.
  remember (2 ^ 63) as B eqn:HB.
  assert (HBpos : 0 < B) by (subst B; reflexivity).
  clear HB.
  destruct (collision (Z.to_nat (2 * B))
              (fun i => hash (repeat "a"%char i) + B))
    as (i & j & Hij & Heq).
  - intros i _. specialize (Hrange (repeat "a"%char i)). lia.
  - exists (repeat "a"%char i), (repeat "a"%char j). split; [|lia].
    intros Hrep. apply (f_equal length) in Hrep.
    rewrite !repeat_length in Hrep. lia.
Qed.

End Pigeonhole.

Section EmbeddingCache.
Import Rag.
Context {F : Type} `{PyFloat F}.
Variable hash : str -> Z.
Variable embeddings : str -> option (list F).

Lemma generate_embedding_sound (seen : str -> Prop) (self self' : RAGService F)
    (text : str) (v : list F) :
  cache_sound hash embeddings seen self -> seen text ->
  _generate_embedding hash embeddings self text = Some (v, self') ->
  cache_sound hash embeddings seen self'.
Proof.
  intros Hsound Hseen. unfold _generate_embedding.
  destruct (_embedding_cache self !! hash text) eqn:Hhit;
    [by intros [= <- <-]|].
  destruct (embeddings text) as [e|] eqn:Hemb; [|done].
  destruct (_ <? _); intros [= <- <-]; [|done].
  intros k v'. simpl. rewrite lookup_insert.
  destruct (decide (hash text = k)) as [<-|Hne]; [|by apply Hsound].
  intros [= <-]. by exists text.
Qed.

Lemma after_history_sound (seen : str -> Prop) (history : list str) :
  forall self : RAGService F,
    cache_sound hash embeddings seen self ->
    (forall t, t ∈ history -> seen t) ->
    cache_sound hash embeddings seen (after_history hash embeddings self history).
Proof.
  induction history as [|text history IH]; intros self Hsound Hseen; [done|].
  simpl.
  assert (Hrest : forall t, t ∈ history -> seen t).
  { intros t Ht. apply Hseen. by right. }
  destruct (_generate_embedding hash embeddings self text) as [[v self']|] eqn:E.
  - apply IH; [|done]. eapply generate_embedding_sound; [done| |done].
    apply Hseen. by left.
  - by apply IH.
Qed.

End EmbeddingCache.

(** C4 (as stated, refuted): hashes with 64-bit values exist, and none
    makes the cache exact.  Two different texts share a hash value; once the first is
    cached, a request for the second is answered with the vector of the
    first. *)
Lemma hash_keyed_cache_not_exact :
  hash_in_range (fun _ => 0)
  /\ ~ exists hash : str -> Z,
        hash_in_range hash /\ cache_exact (F := Q) hash.
Proof.
  split; [intros text; split; [discriminate|reflexivity]|].
  intros (hash & Hrange & Hexact).
  destruct (hash_collides hash Hrange) as (t1 & t2 & Hne & Hcoll).
  set (embeddings := fun t : str =>
         if decide (t = t1) then Some [0%Q] else Some [1%Q]).
  assert (Hfirst :
    Rag._generate_embedding hash embeddings demo_rag t1
    = Some ([0%Q], Rag.with_cache demo_rag (<[hash t1 := [0%Q]]> ∅))).
  { unfold Rag._generate_embedding. unfold demo_rag at 1 2 3.
    cbn [Rag._embedding_cache Rag._cache_max_size].
    rewrite lookup_empty, map_size_empty.
    unfold embeddings. by rewrite decide_True. }
  assert (Hanswer :
    Rag._generate_embedding hash embeddings
      (after_history hash embeddings demo_rag [t1]) t2
    = Some ([0%Q], after_history hash embeddings demo_rag [t1])).
  { cbn [after_history]. rewrite Hfirst.
    unfold Rag._generate_embedding, Rag.with_cache.
    cbn [Rag._embedding_cache]. by rewrite <- Hcoll, lookup_insert_eq. }
  apply (Hexact embeddings demo_rag [t1] t2) in Hanswer; [|done].
  unfold embeddings in Hanswer. rewrite decide_False in Hanswer by done.
  discriminate.
Qed.

(** C4 (amended): let the cache start empty and let [_generate_embedding]
    have been called on the texts of [history].  A request whose hash is
    not in the cache goes to the embedding service and answers what the
    service produces for that text; a request whose hash is in the cache
    answers the cached vector, which the service produced for a text of
    [history] with the same hash; so the answer is the vector of the very
    text requested whenever no other text of [history] shares its hash. *)
Theorem generate_embedding_cache_by_hash :
  forall (F : Type) (HF : PyFloat F) (hash : str -> Z)
         (embeddings : str -> option (list F)) (self : Rag.RAGService F)
         (history : list str) (text : str),
    Rag._embedding_cache self = ∅ ->
    let s := after_history hash embeddings self history in
    (Rag._embedding_cache s !! hash text = None ->
       fst <$> Rag._generate_embedding hash embeddings s text
       = embeddings text)
    /\ (forall v,
          Rag._embedding_cache s !! hash text = Some v ->
          Rag._generate_embedding hash embeddings s text = Some (v, s)
          /\ exists t,
               t ∈ history /\ hash t = hash text /\ embeddings t = Some v)
    /\ ((forall t, t ∈ history -> hash t = hash text -> t = text) ->
        forall v s',
          Rag._generate_embedding hash embeddings s text = Some (v, s') ->
          embeddings text = Some v).
Proof.
  intros F HF hash embeddings self history text Hempty s.
  assert (Hsound : cache_sound hash embeddings (fun t => t ∈ history) s).
  { apply after_history_sound; [|done].
    intros k v. by rewrite Hempty, lookup_empty. }
  split; [|split].
  - intros Hmiss. unfold Rag._generate_embedding. rewrite Hmiss.
    destruct (embeddings text); [|done]. by destruct (_ <? _).
  - intros v Hhit. split.
    + unfold Rag._generate_embedding. by rewrite Hhit.
    + by apply Hsound.
  - intros Hunique v s' Hcall. unfold Rag._generate_embedding in Hcall.
    destruct (Rag._embedding_cache s !! hash text) as [cached|] eqn:Hhit.
    + injection Hcall as <- <-.
      destruct (Hsound _ _ Hhit) as (t & Ht & Hhash & Hemb).
      by rewrite <- (Hunique t Ht Hhash).
    + destruct (embeddings text); [|done].
      destruct (_ <? _); by injection Hcall as <- <-.
Qed.

(** The theorem on the small index: a repeated request is served from the
    cache with the vector of the very text. *)
Lemma generate_embedding_cache_by_hash_witness :
  match
    Rag._generate_embedding demo_hash demo_embeddings
      (after_history demo_hash demo_embeddings demo_rag [py "ab"]) (py "ab")
  with
  | Some (v, _) => demo_embeddings (py "ab") = Some v
  | None => False
  end.
Proof.
  destruct (generate_embedding_cache_by_hash Q Q_float demo_hash
              demo_embeddings demo_rag [py "ab"] (py "ab") eq_refl)
    as (_ & _ & Hexact).
  destruct (Rag._generate_embedding demo_hash demo_embeddings
              (after_history demo_hash demo_embeddings demo_rag [py "ab"])
              (py "ab")) as [[v s']|] eqn:E.
  - apply (Hexact (fun t Ht _ => proj1 (list_elem_of_singleton t _) Ht) v s').
    reflexivity.
  - vm_compute in E. discriminate E.
Defined.

(** ** The two dictionaries of the conversation cache stay consistent *)

Section OrderedDictLookups.
Context {K V : Type} `{EqDecision K}.
Implicit Types (d : list (K * V)) (k : K) (v : V).

Lemma od_get_pop_ne k k' d : k <> k' -> OD.get k (OD.pop k' d) = OD.get k d.
Proof.
  intros Hne. induction d as [|[k0 v0] d IH]; simpl; [done|].
  destruct (decide (k0 = k')) as [->|Hk0]; simpl.
  - by rewrite decide_False.
  - by rewrite IH.
Qed.

Lemma od_get_pop_eq k d : NoDup (OD.keys d) -> OD.get k (OD.pop k d) = None.
Proof.
  intros Hnd. apply od_get_None. intros Hin.
  by apply od_keys_pop_elem in Hin as [_ ?].
Qed.

Lemma od_get_app k d1 d2 :
  OD.get k (d1 ++ d2)
  = match OD.get k d1 with Some v => Some v | None => OD.get k d2 end.
Proof.
  induction d1 as [|[k0 v0] d1 IH]; simpl; [done|].
  by destruct (decide (k0 = k)).
Qed.

Lemma od_get_move_to_end k k' d :
  NoDup (OD.keys d) -> OD.get k (OD.move_to_end k' d) = OD.get k d.
Proof.
  intros Hnd. unfold OD.move_to_end.
  destruct (OD.get k' d) as [v|] eqn:E; [|done].
  rewrite od_get_app. destruct (decide (k = k')) as [->|Hne].
  - rewrite od_get_pop_eq by done. simpl. by rewrite decide_True.
  - rewrite od_get_pop_ne by done. destruct (OD.get k d); [done|].
    simpl. by rewrite decide_False.
Qed.

Lemma od_get_set k k' v d :
  OD.get k (OD.set k' v d)
  = if decide (k' = k) then Some v else OD.get k d.
Proof.
  induction d as [|[k0 v0] d IH]; simpl.
  - by destruct (decide (k' = k)).
  - destruct (decide (k0 = k')) as [->|Hk0]; simpl.
    + by destruct (decide (k' = k)).
    + rewrite IH. destruct (decide (k0 = k)) as [->|]; [|done].
      by rewrite decide_False.
Qed.

Lemma od_keys_set_length k v d :
  length (OD.keys (OD.set k v d))
  = if decide (k ∈ OD.keys d) then length (OD.keys d)
    else S (length (OD.keys d)).
Proof.
  destruct (decide (k ∈ OD.keys d)) as [Hin|Hn].
  - by rewrite od_keys_set_old.
  - rewrite od_keys_set_new, length_app by done. simpl. lia.
Qed.

Lemma od_keys_pop_le k d :
  (length (OD.keys (OD.pop k d)) <= length (OD.keys d))%nat.
Proof.
  induction d as [|[k0 v0] d IH]; simpl; [done|].
  destruct (decide (k0 = k)); simpl; lia.
Qed.

Lemma od_mem_elem k d : OD.mem k d = true <-> k ∈ OD.keys d.
Proof.
  unfold OD.mem. rewrite <- od_get_Some.
  destruct (OD.get k d); split; try done; try (by eauto); by intros [? ?].
Qed.

End OrderedDictLookups.

Section Consistency.
Import PyStr Conversation.
Context {F : Type} `{PyFloat F}.
Implicit Types (svc : ConversationService F) (cid : str).

Lemma len_keys {V : Type} (d : list (str * V)) :
  len d = Z.of_nat (length (OD.keys d)).
Proof. unfold len, OD.keys. by rewrite length_map. Qed.

Lemma consistent_evict svc cid :
  consistent svc -> consistent (_evict_conversation svc cid).
Proof.
  intros (Hnd & Hdom & Hid & Hlen). unfold consistent; simpl.
  split; [by apply od_keys_pop_NoDup|]. split; [|split].
  - intros k. rewrite od_keys_pop_elem, Hdom by done.
    rewrite lookup_delete. destruct (decide (cid = k)) as [->|Hne].
    + split; [by intros [_ ?]|by intros [? ?]].
    + split; [by intros [? _]|]. intros Hk. split; [done|congruence].
  - intros k c Hget. destruct (decide (k = cid)) as [->|Hne].
    + by rewrite od_get_pop_eq in Hget.
    + rewrite od_get_pop_ne in Hget by done. by apply Hid.
  - rewrite len_keys in *. pose proof (od_keys_pop_le cid (_conversations svc)).
    lia.
Qed.

Lemma consistent_evict_all svc (ids : list str) :
  consistent svc -> consistent (foldl _evict_conversation svc ids).
Proof.
  revert svc. induction ids as [|k ids IH]; intros svc Hc; simpl; [done|].
  by apply IH, consistent_evict.
Qed.

(** Replacing the context of a cached id, and changing statistics without
    adding or removing any, keeps the cache consistent. *)
Lemma consistent_update svc cid (c c' : ConversationContext)
    (stats' : gmap str (ConversationStats F)) :
  consistent svc ->
  OD.get cid (_conversations svc) = Some c ->
  id c' = cid ->
  (forall k, is_Some (stats' !! k) <-> is_Some (_stats svc !! k)) ->
  consistent (with_state svc (OD.set cid c' (_conversations svc)) stats').
Proof.
  intros (Hnd & Hdom & Hid & Hlen) Hget Hc' Hstats.
  assert (Hin : cid ∈ OD.keys (_conversations svc)).
  { apply od_get_Some. by eauto. }
  unfold consistent; simpl. rewrite od_keys_set_old by done.
  split; [done|]. split; [|split].
  - intros k. by rewrite Hstats.
  - intros k c0. rewrite od_get_set.
    destruct (decide (cid = k)) as [->|Hne]; [by intros [= <-]|by apply Hid].
  - rewrite len_keys, od_keys_set_old by done. by rewrite <- len_keys.
Qed.

Lemma alter_is_Some {A : Type} (f : A -> A) (m : gmap str A) (k k' : str) :
  is_Some (alter f k m !! k') <-> is_Some (m !! k').
Proof.
  rewrite lookup_alter. destruct (decide (k = k')) as [->|]; [|done].
  by rewrite fmap_is_Some.
Qed.

Lemma consistent_get svc cid (now : Z) :
  consistent svc -> consistent (snd (get_conversation svc cid now)).
Proof.
  intros (Hnd & Hdom & Hid & Hlen). unfold get_conversation.
  destruct (OD.get cid (_conversations svc)) as [c|] eqn:Hget; simpl;
    [|done].
  unfold consistent; simpl.
  split; [by apply od_move_to_end_NoDup|]. split; [|split].
  - intros k. by rewrite od_move_to_end_elem, alter_is_Some.
  - intros k c0. rewrite od_get_move_to_end by done. by apply Hid.
  - rewrite len_keys, od_move_to_end_length. by rewrite <- len_keys.
Qed.

(** What [get_conversation] finds is still stored afterwards, under the
    same id. *)
Lemma get_conversation_found svc cid (now : Z) :
  consistent svc ->
  OD.get cid (_conversations (snd (get_conversation svc cid now)))
  = fst (get_conversation svc cid now)
  /\ fst (get_conversation svc cid now) = OD.get cid (_conversations svc)
  /\ max_conversations (snd (get_conversation svc cid now))
     = max_conversations svc
  /\ max_messages (snd (get_conversation svc cid now)) = max_messages svc
  /\ ttl_hours (snd (get_conversation svc cid now)) = ttl_hours svc.
Proof.
  intros (Hnd & _). unfold get_conversation.
  destruct (OD.get cid (_conversations svc)) as [c|] eqn:Hget; simpl.
  - by rewrite od_get_move_to_end.
  - done.
Qed.

(** The loop of [create_conversation] leaves a consistent cache with room
    for one more conversation. *)
Lemma consistent_evict_oldest svc
    (convs convs' : list (str * ConversationContext))
    (stats stats' : gmap str (ConversationStats F)) :
  consistent (with_state svc convs stats) ->
  evict_oldest (max_conversations svc) convs stats = Some (convs', stats') ->
  consistent (with_state svc convs' stats')
  /\ len convs' < max_conversations svc.
Proof.
  revert stats. induction convs as [|[k c] convs IH]; intros stats Hc; simpl.
  - destruct (Z.leb_spec (max_conversations svc) 0); [done|].
    intros [= <- <-]. split; [done|]. unfold len; simpl. lia.
  - destruct (Z.leb_spec (max_conversations svc) (len ((k, c) :: convs))).
    + intros Hev. apply (IH (delete k stats)); [|done].
      apply (consistent_evict _ k) in Hc.
      unfold _evict_conversation in Hc; simpl in Hc.
      by rewrite decide_True in Hc.
    + intros [= <- <-]. by split.
Qed.

Lemma evict_oldest_raises (max : Z)
    (convs : list (str * ConversationContext))
    (stats : gmap str (ConversationStats F)) :
  evict_oldest max convs stats = None -> max <= 0.
Proof.
  revert stats. induction convs as [|[k c] convs IH]; intros stats; simpl.
  - by destruct (Z.leb_spec max 0).
  - destruct (max <=? len ((k, c) :: convs)); [apply IH|done].
Qed.

Lemma with_state_same svc :
  with_state svc (_conversations svc) (_stats svc) = svc.
Proof. by destruct svc. Qed.

Lemma consistent_create svc cid (md : gmap str str) (now : Z) :
  consistent svc -> consistent (after_create svc cid md now).
Proof.
  intros Hc. unfold after_create, create_conversation.
  destruct (evict_oldest _ _ _) as [[convs stats]|] eqn:Hev;
    [|by apply consistent_evict_all].
  destruct (consistent_evict_oldest svc (_conversations svc) convs
              (_stats svc) stats) as [Hc' Hroom];
    [by rewrite with_state_same|done|].
  destruct Hc' as (Hnd & Hdom & Hid & Hlen); simpl in *.
  unfold consistent; simpl. split; [|split; [|split]].
  - destruct (decide (cid ∈ OD.keys convs)) as [Hin|Hn].
    + by rewrite od_keys_set_old.
    + rewrite od_keys_set_new by done. apply NoDup_app.
      split; [done|]. split; [|apply NoDup_singleton].
      intros x Hx Hx'. by apply list_elem_of_singleton in Hx' as ->.
  - intros k. rewrite lookup_insert.
    destruct (decide (cid = k)) as [->|Hne].
    + split; [by eauto|intros _].
      destruct (decide (k ∈ OD.keys convs)) as [Hin|Hn].
      * by rewrite od_keys_set_old.
      * rewrite od_keys_set_new by done. apply elem_of_app; right.
        by apply list_elem_of_singleton.
    + rewrite <- Hdom. destruct (decide (cid ∈ OD.keys convs)) as [Hin|Hn].
      * by rewrite od_keys_set_old.
      * rewrite od_keys_set_new, elem_of_app, list_elem_of_singleton by done.
        split; [intros [?|?]; [done|congruence]|by left].
  - intros k c. rewrite od_get_set.
    destruct (decide (cid = k)) as [->|Hne]; [by intros [= <-]|by apply Hid].
  - rewrite len_keys, od_keys_set_length. rewrite len_keys in Hroom, Hlen.
    destruct (decide (cid ∈ OD.keys convs)); lia.
Qed.

Lemma consistent_add_message svc cid (message : ChatMessage) (now : Z) :
  consistent svc -> consistent (snd (add_message svc cid message now)).
Proof.
  intros Hc. unfold add_message.
  pose proof (consistent_get svc cid now Hc) as Hc1.
  destruct (get_conversation_found svc cid now Hc) as (Hfound & _).
  destruct (get_conversation svc cid now) as [[c|] svc1]; simpl in *;
    [|done].
  apply (consistent_update svc1 cid c); [done|done| |].
  - simpl. by apply Hc1.
  - intros k. apply alter_is_Some.
Qed.

Lemma consistent_set_system_message svc cid (text : str) (now : Z) :
  consistent svc -> consistent (snd (set_system_message svc cid text now)).
Proof.
  intros Hc. unfold set_system_message.
  pose proof (consistent_get svc cid now Hc) as Hc1.
  destruct (get_conversation_found svc cid now Hc) as (Hfound & _).
  destruct (get_conversation svc cid now) as [[c|] svc1]; simpl in *;
    [|done].
  apply (consistent_update svc1 cid c); [done|done| |done].
  simpl. by apply Hc1.
Qed.

Lemma consistent_clear_history svc cid (keep_system : bool) (now : Z) :
  consistent svc -> consistent (snd (clear_history svc cid keep_system now)).
Proof.
  intros Hc. unfold clear_history.
  pose proof (consistent_get svc cid now Hc) as Hc1.
  destruct (get_conversation_found svc cid now Hc) as (Hfound & _).
  destruct (get_conversation svc cid now) as [[c|] svc1]; simpl in *;
    [|done].
  apply (consistent_update svc1 cid c); [done|done| |done].
  simpl. by apply Hc1.
Qed.

Lemma consistent_add_imported svc cid (now : Z)
    (msgs : list (str * str * Z)) :
  consistent svc -> consistent (foldl (add_imported cid now) svc msgs).
Proof.
  revert svc. induction msgs as [|m msgs IH]; intros svc Hc; simpl; [done|].
  apply IH. by apply consistent_add_message.
Qed.

Lemma consistent_after_call svc (c : Call) :
  consistent svc -> consistent (after_call svc c).
Proof.
  intros Hc. destruct c; simpl.
  - by apply consistent_create.
  - by apply consistent_get.
  - pose proof (consistent_get svc cid now Hc) as Hc1.
    destruct (get_conversation svc cid now) as [[c|] svc1]; simpl in *;
      [done|by apply consistent_create].
  - by apply consistent_add_message.
  - unfold get_messages. pose proof (consistent_get svc cid now Hc) as Hc1.
    by destruct (get_conversation svc cid now) as [[c|] svc1].
  - by apply consistent_set_system_message.
  - by apply consistent_clear_history.
  - unfold delete_conversation. destruct (OD.mem _ _); simpl; [|done].
    by apply consistent_evict.
  - unfold cleanup_expired; simpl. by apply consistent_evict_all.
  - unfold get_context_for_llm.
    pose proof (consistent_get svc cid now Hc) as Hc1.
    by destruct (get_conversation svc cid now) as [[c|] svc1].
  - unfold export_conversation.
    pose proof (consistent_get svc cid now Hc) as Hc1.
    by destruct (get_conversation svc cid now) as [[c|] svc1].
  - unfold import_conversation.
    pose proof (consistent_create svc (exported_id data)
                  (exported_metadata data) now Hc) as Hc1.
    unfold after_create in Hc1.
    destruct (create_conversation _ _ _ _) as [[c svc1]|]; simpl; [|done].
    by apply consistent_add_imported.
Qed.

Lemma evict_all_max svc (ids : list str) :
  max_conversations (foldl _evict_conversation svc ids)
  = max_conversations svc.
Proof.
  revert svc. induction ids as [|k ids IH]; intros svc; simpl; [done|].
  by rewrite IH.
Qed.

Lemma add_message_max svc cid (message : ChatMessage) (now : Z) :
  max_conversations (snd (add_message svc cid message now))
  = max_conversations svc
  /\ max_messages (snd (add_message svc cid message now)) = max_messages svc.
Proof.
  unfold add_message, get_conversation.
  by destruct (OD.get cid (_conversations svc)).
Qed.

Lemma add_imported_max svc cid (now : Z) (msgs : list (str * str * Z)) :
  max_conversations (foldl (add_imported cid now) svc msgs)
  = max_conversations svc
  /\ max_messages (foldl (add_imported cid now) svc msgs) = max_messages svc.
Proof.
  revert svc. induction msgs as [|m msgs IH]; intros svc; simpl; [done|].
  destruct (IH (add_imported cid now svc m)) as [-> ->].
  apply add_message_max.
Qed.

Lemma after_create_max svc cid (md : gmap str str) (now : Z) :
  max_conversations (after_create svc cid md now) = max_conversations svc.
Proof.
  unfold after_create, create_conversation.
  destruct (evict_oldest _ _ _) as [[convs stats]|]; [done|].
  apply evict_all_max.
Qed.

Lemma after_call_max svc (c : Call) :
  max_conversations (after_call svc c) = max_conversations svc.
Proof.
  destruct c; simpl.
  - apply after_create_max.
  - unfold get_conversation. by destruct (OD.get _ _).
  - unfold get_conversation. destruct (OD.get _ _); [done|].
    apply after_create_max.
  - apply add_message_max.
  - unfold get_messages, get_conversation. by destruct (OD.get _ _).
  - unfold set_system_message, get_conversation. by destruct (OD.get _ _).
  - unfold clear_history, get_conversation. by destruct (OD.get _ _).
  - unfold delete_conversation. by destruct (OD.mem _ _).
  - unfold cleanup_expired; simpl. apply evict_all_max.
  - unfold get_context_for_llm, get_conversation. by destruct (OD.get _ _).
  - unfold export_conversation, get_conversation. by destruct (OD.get _ _).
  - unfold import_conversation, create_conversation.
    destruct (evict_oldest _ _ _) as [[convs stats]|]; simpl.
    + by destruct (add_imported_max
                     (with_state svc
                        (OD.set (exported_id data)
                           {| id := exported_id data; messages := [];
                              metadata := exported_metadata data;
                              created_at := now |} convs)
                        (<[exported_id data :=
                             {| message_count := 0; user_messages := 0;
                                assistant_messages := 0;
                                total_tokens_estimate := of_int 0;
                                started_at := Some now;
                                last_activity := Some now |}]> stats))
                     (exported_id data) now (exported_messages data))
        as [-> _].
    + apply evict_all_max.
Qed.

End Consistency.

(** Started empty, the cache is consistent after any calls. *)
Lemma calls_consistent {F : Type} `{PyFloat F} (N mm ttl : Z)
    (calls : list Call) :
  consistent (foldl after_call (Conversation.init N mm ttl) calls)
  /\ Conversation.max_conversations
       (foldl after_call (Conversation.init N mm ttl) calls) = N.
Proof.
  induction calls as [|c calls IH] using rev_ind.
  - split; [|done]. unfold consistent; simpl.
    split; [apply NoDup_nil_2|]. split; [|split].
    + intros k. rewrite lookup_empty. split.
      * intros Hk. by apply elem_of_nil in Hk.
      * by intros [? ?].
    + done.
    + unfold PyStr.len; simpl. lia.
  - rewrite foldl_app. simpl. destruct IH as [IH Hmax].
    split; [by apply consistent_after_call|].
    by rewrite after_call_max.
Qed.

(** X1: started empty, the conversation cache is consistent after any
    sequence of calls of its interface: no id is cached twice, statistics
    exist for exactly the cached ids, every context is stored under its
    own id, and at most [max_conversations] conversations are cached. *)
Theorem cache_always_consistent :
  forall (F : Type) (HF : PyFloat F) (N mm ttl : Z) (calls : list Call),
    let svc := foldl after_call (Conversation.init N mm ttl) calls in
    consistent svc
    /\ NoDup (lru_order svc)
    /\ (forall k, k ∈ lru_order svc <-> is_Some (Conversation.get_stats svc k))
    /\ PyStr.len (lru_order svc) <= Z.max 0 N.
Proof.
  intros F HF N mm ttl calls svc.
  destruct (calls_consistent N mm ttl calls) as [Hc Hmax]. fold svc in Hc, Hmax.
  split; [done|].
  destruct Hc as (Hnd & Hdom & _ & Hlen).
  split; [done|]. split; [done|].
  unfold lru_order, OD.keys, PyStr.len in *. rewrite length_map.
  by rewrite <- Hmax.
Qed.

Lemma capped_service_consistent : consistent capped_service.
Proof.
  apply (calls_consistent (F := Q) 100 2 24
           [CallCreate (py "c") ∅ 0;
            CallAddMessage (py "c") (msg "system" "s") 0;
            CallAddMessage (py "c") (msg "user" "a") 0]).
Qed.


(** ** Calls on single conversations *)

Section SingleConversation.
Import PyStr Conversation.
Context {F : Type} `{PyFloat F}.
Implicit Types (svc : ConversationService F) (cid : str).

Lemma od_keys_pop_filter {V : Type} (k : str) (d : list (str * V)) :
  NoDup (OD.keys d) ->
  OD.keys (OD.pop k d) = filter (fun x => x <> k) (OD.keys d).
Proof.
  induction d as [|[k0 v0] d IH]; simpl; [done|].
  intros Hnd. apply NoDup_cons in Hnd as [Hk0 Hnd].
  destruct (decide (k0 = k)) as [->|Hne]; simpl.
  - rewrite filter_cons_False by (by intros ?).
    symmetry. clear IH. induction (OD.keys d) as [|x l IHl]; [done|].
    apply not_elem_of_cons in Hk0 as [Hx Hl]. apply NoDup_cons in Hnd as [_ Hnd].
    rewrite filter_cons_True by done. f_equal. by apply IHl.
  - rewrite filter_cons_True by done. f_equal. by apply IH.
Qed.

Lemma slice_from_suffix {A : Type} (l : list A) (n : Z) :
  0 < n ->
  slice_from l (- n) `suffix_of` l /\ len (slice_from l (- n)) = Z.min n (len l).
Proof.
  intros Hn. unfold slice_from. split; [apply suffix_drop|].
  unfold len, bound. rewrite length_drop.
  destruct (Z.ltb_spec (- n) 0); [|lia]. unfold len. lia.
Qed.

End SingleConversation.

(** X2: on a cached conversation [set_system_message] succeeds and leaves
    the new system message in front of the former non-system messages, in
    their order; it is then the only system message, whatever number of
    them the conversation held. *)
Theorem set_system_message_replaces :
  forall (F : Type) (HF : PyFloat F)
         (svc : Conversation.ConversationService F) (cid text : str)
         (now : Z) (c : Conversation.ConversationContext),
    OD.get cid (Conversation._conversations svc) = Some c ->
    let r := Conversation.set_system_message svc cid text now in
    let sys :=
      {| Conversation.role := py "system"; Conversation.content := text;
         Conversation.timestamp := now |} in
    fst r = true
    /\ stored_messages (snd r) cid
       = sys :: filter (fun m => Conversation.is_system m = false)
                  (Conversation.messages c)
    /\ filter (fun m => Conversation.is_system m = true)
         (stored_messages (snd r) cid) = [sys]
    /\ Conversation.first_system (stored_messages (snd r) cid) = Some sys.
Proof.
  intros F HF svc cid text now c Hget r sys.
  assert (Hstored : stored_messages (snd r) cid
            = sys :: filter (fun m => Conversation.is_system m = false)
                       (Conversation.messages c)).
  { subst r. unfold Conversation.set_system_message,
      Conversation.get_conversation. rewrite Hget. simpl.
    unfold stored_messages; simpl. by rewrite od_get_set_eq. }
  split; [|split; [done|]].
  - subst r. unfold Conversation.set_system_message,
      Conversation.get_conversation. by rewrite Hget.
  - rewrite Hstored. split; [|done].
    rewrite filter_cons_True by done. f_equal.
    apply filter_system_others.
Qed.

Lemma set_system_message_replaces_witness :
  stored_messages
    (snd (Conversation.set_system_message capped_service (py "c") (py "t") 7))
    (py "c")
  = [ {| Conversation.role := py "system"; Conversation.content := py "t";
         Conversation.timestamp := 7 |};
      msg "user" "a" ].
Proof.
  destruct (set_system_message_replaces Q Q_float capped_service (py "c")
              (py "t") 7
              {| Conversation.id := py "c";
                 Conversation.messages := [msg "system" "s"; msg "user" "a"];
                 Conversation.metadata := ∅;
                 Conversation.created_at := 0 |} eq_refl)
    as (_ & Hstored & _).
  exact Hstored.
Defined.

(** X3: every call that names a conversation which is not cached reports
    failure ([None], [False] or an empty list) and leaves the cache
    exactly as it was. *)
Theorem unknown_conversation_untouched :
  forall (F : Type) (HF : PyFloat F)
         (svc : Conversation.ConversationService F) (cid : str) (now : Z),
    cid ∉ lru_order svc ->
    Conversation.get_conversation svc cid now = (None, svc)
    /\ (forall m, Conversation.add_message svc cid m now = (false, svc))
    /\ (forall limit sys,
          Conversation.get_messages svc cid limit sys now = ([], svc))
    /\ (forall text,
          Conversation.set_system_message svc cid text now = (false, svc))
    /\ (forall keep,
          Conversation.clear_history svc cid keep now = (false, svc))
    /\ Conversation.delete_conversation svc cid = (false, svc)
    /\ (forall max_tokens,
          Conversation.get_context_for_llm svc cid max_tokens now = ([], svc))
    /\ Conversation.export_conversation svc cid now = (None, svc)
    /\ Conversation.get_stats (snd (Conversation.get_conversation svc cid now))
         cid = Conversation.get_stats svc cid.
Proof.
  intros F HF svc cid now Hn. apply od_get_None in Hn.
  assert (Hget : Conversation.get_conversation svc cid now = (None, svc)).
  { unfold Conversation.get_conversation. by rewrite Hn. }
  split; [done|].
  unfold Conversation.add_message, Conversation.get_messages,
    Conversation.set_system_message, Conversation.clear_history,
    Conversation.get_context_for_llm, Conversation.export_conversation,
    Conversation.delete_conversation, OD.mem.
  rewrite Hget, Hn. by repeat split.
Qed.

Lemma unknown_conversation_untouched_witness :
  Conversation.add_message capped_service (py "zz") (msg "user" "x") 1
  = (false, capped_service).
Proof.
  destruct (unknown_conversation_untouched Q Q_float capped_service (py "zz") 1)
    as (_ & Hadd & _).
  - vm_compute. intros Hin.
    repeat (apply elem_of_cons in Hin as [Hin|Hin]; [discriminate Hin|]).
    by apply elem_of_nil in Hin.
  - apply Hadd.
Defined.

(** X4: [delete_conversation] on a cached id answers [True] and removes
    the conversation and its statistics; the other conversations keep
    their contexts, statistics and order, and the id is unknown
    afterwards. *)
Theorem delete_conversation_removes :
  forall (F : Type) (HF : PyFloat F)
         (svc : Conversation.ConversationService F) (cid : str) (now : Z),
    consistent svc ->
    cid ∈ lru_order svc ->
    let r := Conversation.delete_conversation svc cid in
    fst r = true
    /\ lru_order (snd r) = filter (fun k => k <> cid) (lru_order svc)
    /\ Conversation.get_stats (snd r) cid = None
    /\ fst (Conversation.get_conversation (snd r) cid now) = None
    /\ (forall k, k <> cid ->
          OD.get k (Conversation._conversations (snd r))
            = OD.get k (Conversation._conversations svc)
          /\ Conversation.get_stats (snd r) k = Conversation.get_stats svc k).
Proof.
  intros F HF svc cid now (Hnd & _) Hin r. subst r.
  unfold Conversation.delete_conversation.
  apply od_mem_elem in Hin as Hmem. rewrite Hmem. simpl.
  split; [done|]. split; [by apply od_keys_pop_filter|].
  split; [apply lookup_delete_eq|]. split.
  - unfold Conversation.get_conversation; simpl.
    by rewrite od_get_pop_eq.
  - intros k Hne. split; [by apply od_get_pop_ne|].
    unfold Conversation.get_stats; simpl. by apply lookup_delete_ne.
Qed.

Lemma delete_conversation_removes_witness :
  lru_order (snd (Conversation.delete_conversation capped_service (py "c")))
  = [].
Proof.
  destruct (delete_conversation_removes Q Q_float capped_service (py "c") 0)
    as (_ & Hord & _).
  - apply capped_service_consistent.
  - vm_compute. left.
  - rewrite Hord. vm_compute. reflexivity.
Defined.

(** X5: on a cached conversation [clear_history] keeps exactly the system
    messages, in order, when [keep_system] is set, and no message
    otherwise; in both cases the message counters of the statistics stay
    as they were. *)
Theorem clear_history_keeps_counters :
  forall (F : Type) (HF : PyFloat F)
         (svc : Conversation.ConversationService F) (cid : str)
         (keep_system : bool) (now : Z)
         (c : Conversation.ConversationContext),
    OD.get cid (Conversation._conversations svc) = Some c ->
    let r := Conversation.clear_history svc cid keep_system now in
    fst r = true
    /\ stored_messages (snd r) cid
       = (if keep_system
          then filter (fun m => Conversation.is_system m = true)
                 (Conversation.messages c)
          else [])
    /\ Conversation.message_count <$> Conversation.get_stats (snd r) cid
       = Conversation.message_count <$> Conversation.get_stats svc cid
    /\ Conversation.user_messages <$> Conversation.get_stats (snd r) cid
       = Conversation.user_messages <$> Conversation.get_stats svc cid
    /\ Conversation.assistant_messages <$> Conversation.get_stats (snd r) cid
       = Conversation.assistant_messages <$> Conversation.get_stats svc cid.
Proof.
  intros F HF svc cid keep_system now c Hget r. subst r.
  unfold Conversation.clear_history, Conversation.get_conversation.
  rewrite Hget. simpl. split; [done|]. split.
  - unfold stored_messages; simpl. by rewrite od_get_set_eq.
  - unfold Conversation.get_stats; simpl. rewrite lookup_alter_eq.
    by destruct (Conversation._stats svc !! cid).
Qed.

Lemma clear_history_keeps_counters_witness :
  stored_messages
    (snd (Conversation.clear_history capped_service (py "c") true 5)) (py "c")
  = [msg "system" "s"]
  /\ Conversation.message_count
       <$> Conversation.get_stats
             (snd (Conversation.clear_history capped_service (py "c") true 5))
             (py "c")
     = Some 2.
Proof.
  destruct (clear_history_keeps_counters Q Q_float capped_service (py "c")
              true 5
              {| Conversation.id := py "c";
                 Conversation.messages := [msg "system" "s"; msg "user" "a"];
                 Conversation.metadata := ∅;
                 Conversation.created_at := 0 |} eq_refl)
    as (_ & Hstored & Hcount & _).
  split; [exact Hstored|]. rewrite Hcount. vm_compute. reflexivity.
Defined.

(** X6: on a cached conversation [get_messages] with a positive [limit]
    answers the last [limit] messages (all of them when there are fewer),
    after the system messages were left out when [include_system] is
    unset; with no limit, or the limit 0, it answers all of them. *)
Theorem get_messages_limit :
  forall (F : Type) (HF : PyFloat F)
         (svc : Conversation.ConversationService F) (cid : str)
         (limit : option Z) (include_system : bool) (now : Z)
         (c : Conversation.ConversationContext),
    OD.get cid (Conversation._conversations svc) = Some c ->
    let all :=
      if include_system then Conversation.messages c
      else filter (fun m => Conversation.is_system m = false)
             (Conversation.messages c) in
    let out :=
      fst (Conversation.get_messages svc cid limit include_system now) in
    (limit = None \/ limit = Some 0 -> out = all)
    /\ (forall n, limit = Some n -> 0 < n ->
          out `suffix_of` all /\ PyStr.len out = Z.min n (PyStr.len all)).
Proof.
  intros F HF svc cid limit include_system now c Hget all out. subst out.
  unfold Conversation.get_messages, Conversation.get_conversation.
  rewrite Hget. simpl. fold all. split.
  - by intros [-> | ->].
  - intros n -> Hn. destruct (Z.eqb_spec n 0); [lia|].
    by apply slice_from_suffix.
Qed.

Lemma get_messages_limit_witness :
  fst (Conversation.get_messages capped_service (py "c") (Some 1) true 3)
    `suffix_of` [msg "system" "s"; msg "user" "a"]
  /\ PyStr.len
       (fst (Conversation.get_messages capped_service (py "c") (Some 1) true 3))
     = 1.
Proof.
  destruct (get_messages_limit Q Q_float capped_service (py "c") (Some 1)
              true 3
              {| Conversation.id := py "c";
                 Conversation.messages := [msg "system" "s"; msg "user" "a"];
                 Conversation.metadata := ∅;
                 Conversation.created_at := 0 |} eq_refl)
    as (_ & Hlimit).
  destruct (Hlimit 1 eq_refl) as [Hsuf Hlen]; [lia|].
  split; [exact Hsuf|exact Hlen].
Defined.

(** ** Export and import *)

Section ImportExport.
Import PyStr Conversation.
Context {F : Type} `{PyFloat F}.
Implicit Types (svc : ConversationService F) (cid : str).

Lemma add_message_step svc cid (c : ConversationContext) (m : ChatMessage)
    (now : Z) :
  OD.get cid (_conversations svc) = Some c ->
  OD.get cid (_conversations (snd (add_message svc cid m now)))
  = Some (with_messages c
            (trim_messages (max_messages svc) (messages c) ++ [m]))
  /\ _stats (snd (add_message svc cid m now)) !! cid
     = count_message m now <$> (touch now <$> _stats svc !! cid).
Proof.
  intros Hget. unfold add_message, get_conversation. rewrite Hget. simpl.
  split; [by rewrite od_get_set_eq|]. by rewrite !lookup_alter_eq.
Qed.

Lemma trim_messages_room (max : Z) (msgs : list ChatMessage) :
  len msgs < max -> trim_messages max msgs = msgs.
Proof.
  intros Hlt. unfold trim_messages.
  by destruct (Z.leb_spec max (len msgs)); [lia|].
Qed.

Lemma add_imported_fold cid (now : Z) (msgs : list (str * str * Z)) :
  forall svc (c : ConversationContext) (st : ConversationStats F),
    OD.get cid (_conversations svc) = Some c ->
    _stats svc !! cid = Some st ->
    exists c' st',
      OD.get cid (_conversations (foldl (add_imported cid now) svc msgs))
        = Some c'
      /\ _stats (foldl (add_imported cid now) svc msgs) !! cid = Some st'
      /\ id c' = id c /\ metadata c' = metadata c
      /\ created_at c' = created_at c
      /\ message_count st' = message_count st + len msgs
      /\ (len (messages c) + len msgs <= max_messages svc ->
          messages c' = messages c ++ map (imported_message now) msgs).
Proof.
  induction msgs as [|x msgs IH]; intros svc c st Hget Hst; simpl.
  - exists c, st. repeat split; try done.
    + unfold len; simpl; lia.
    + intros _. by rewrite app_nil_r.
  - destruct (add_message_step svc cid c (imported_message now x) now Hget)
      as [Hget1 Hst1].
    rewrite Hst in Hst1. simpl in Hst1.
    destruct (add_message_max svc cid (imported_message now x) now)
      as [_ Hmm].
    destruct (IH (add_imported cid now svc x) _ _ Hget1 Hst1)
      as (c' & st' & Hc' & Hst' & Hid & Hmd & Hcr & Hcount & Hmsgs).
    exists c', st'. split; [done|]. split; [done|].
    split; [done|]. split; [done|]. split; [done|]. split.
    + rewrite Hcount. simpl. unfold len; simpl length. lia.
    + intros Hroom. unfold len in Hroom; simpl length in Hroom.
      rewrite Hmsgs.
      * simpl. rewrite trim_messages_room by (unfold len; lia).
        by rewrite <- app_assoc.
      * unfold add_imported. fold (imported_message now x). rewrite Hmm.
        simpl. rewrite trim_messages_room by (unfold len; lia).
        unfold len. rewrite length_app. simpl. lia.
Qed.

End ImportExport.

(** What [import_conversation] stores. *)
Lemma import_stores :
  forall (F : Type) (HF : PyFloat F)
         (svc : Conversation.ConversationService F)
         (data : Conversation.Exported) (now : Z),
    1 <= Conversation.max_conversations svc ->
    let r := Conversation.import_conversation svc data now in
    exists ctx,
      fst r = Some ctx
      /\ Conversation.id ctx = Conversation.exported_id data
      /\ Conversation.metadata ctx = Conversation.exported_metadata data
      /\ stored_messages (snd r) (Conversation.exported_id data)
         = Conversation.messages ctx
      /\ Conversation.message_count
           <$> Conversation.get_stats (snd r) (Conversation.exported_id data)
         = Some (PyStr.len (Conversation.exported_messages data))
      /\ (PyStr.len (Conversation.exported_messages data)
            <= Conversation.max_messages svc ->
          Conversation.messages ctx
          = map (imported_message now) (Conversation.exported_messages data)).
Proof.
  intros F HF svc data now Hmax r. subst r.
  unfold Conversation.import_conversation, Conversation.create_conversation.
  destruct (Conversation.evict_oldest _ _ _) as [[convs stats]|] eqn:Hev.
  2:{ apply evict_oldest_raises in Hev. lia. }
  simpl.
  match goal with
  | |- context [foldl _ ?s _] => set (svc1 := s)
  end.
  destruct (add_imported_fold (Conversation.exported_id data) now
              (Conversation.exported_messages data) svc1
              {| Conversation.id := Conversation.exported_id data;
                 Conversation.messages := [];
                 Conversation.metadata := Conversation.exported_metadata data;
                 Conversation.created_at := now |}
              {| Conversation.message_count := 0;
                 Conversation.user_messages := 0;
                 Conversation.assistant_messages := 0;
                 Conversation.total_tokens_estimate := of_int 0;
                 Conversation.started_at := Some now;
                 Conversation.last_activity := Some now |})
    as (c' & st' & Hc' & Hst' & Hid & Hmd & _ & Hcount & Hmsgs).
  { subst svc1; simpl. apply od_get_set_eq. }
  { subst svc1; simpl. apply lookup_insert_eq. }
  exists c'. split; [done|]. split; [done|]. split; [done|]. split.
  - unfold stored_messages. by rewrite Hc'.
  - split.
    + unfold Conversation.get_stats. rewrite Hst'. simpl. by rewrite Hcount.
    + intros Hfit. by apply Hmsgs.
Qed.

(** X7: when the cache has room for at least one conversation,
    [import_conversation] answers the conversation it stored under the
    exported id, with the exported metadata; the statistics count every
    imported message; and when the messages number at most
    [max_messages_per_conversation] they are all stored, in order, with
    their roles and contents and the time of the import as timestamp. *)
Theorem import_conversation_stores :
  forall (F : Type) (HF : PyFloat F)
         (svc : Conversation.ConversationService F)
         (data : Conversation.Exported) (now : Z),
    1 <= Conversation.max_conversations svc ->
    let r := Conversation.import_conversation svc data now in
    exists ctx,
      fst r = Some ctx
      /\ Conversation.id ctx = Conversation.exported_id data
      /\ Conversation.metadata ctx = Conversation.exported_metadata data
      /\ stored_messages (snd r) (Conversation.exported_id data)
         = Conversation.messages ctx
      /\ Conversation.message_count
           <$> Conversation.get_stats (snd r) (Conversation.exported_id data)
         = Some (PyStr.len (Conversation.exported_messages data))
      /\ (PyStr.len (Conversation.exported_messages data)
            <= Conversation.max_messages svc ->
          Conversation.messages ctx
          = map (imported_message now) (Conversation.exported_messages data)).
Proof. exact import_stores. Qed.

Lemma import_conversation_stores_witness :
  exists ctx,
    fst (Conversation.import_conversation capped_service
           {| Conversation.exported_id := py "i";
              Conversation.exported_messages :=
                [(py "user", py "hi", 1); (py "assistant", py "yo", 2)];
              Conversation.exported_metadata := ∅;
              Conversation.exported_created_at := 0;
              Conversation.exported_message_count := 2;
              Conversation.exported_user_messages := 1;
              Conversation.exported_assistant_messages := 1 |} 9)
    = Some ctx
    /\ Conversation.messages ctx
       = [ {| Conversation.role := py "user"; Conversation.content := py "hi";
              Conversation.timestamp := 9 |};
           {| Conversation.role := py "assistant";
              Conversation.content := py "yo";
              Conversation.timestamp := 9 |} ].
Proof.
  destruct (import_conversation_stores Q Q_float capped_service
              {| Conversation.exported_id := py "i";
                 Conversation.exported_messages :=
                   [(py "user", py "hi", 1); (py "assistant", py "yo", 2)];
                 Conversation.exported_metadata := ∅;
                 Conversation.exported_created_at := 0;
                 Conversation.exported_message_count := 2;
                 Conversation.exported_user_messages := 1;
                 Conversation.exported_assistant_messages := 1 |} 9)
    as (ctx & Hfst & _ & _ & _ & _ & Hmsgs).
  - vm_compute. discriminate.
  - exists ctx. split; [exact Hfst|]. apply Hmsgs. vm_compute. discriminate.
Defined.

(** X8: exporting a cached conversation and importing the result into a
    cache with room for it gives a conversation with the same id and
    metadata and the same roles and contents in the same order; the
    timestamps are not carried over: every message and the conversation
    bear the time of the import. *)
Theorem export_import_round_trip :
  forall (F : Type) (HF : PyFloat F)
         (svc1 svc2 : Conversation.ConversationService F) (cid : str)
         (c : Conversation.ConversationContext) (now1 now2 : Z),
    OD.get cid (Conversation._conversations svc1) = Some c ->
    1 <= Conversation.max_conversations svc2 ->
    PyStr.len (Conversation.messages c) <= Conversation.max_messages svc2 ->
    exists data ctx,
      fst (Conversation.export_conversation svc1 cid now1) = Some data
      /\ fst (Conversation.import_conversation svc2 data now2) = Some ctx
      /\ Conversation.id ctx = Conversation.id c
      /\ Conversation.metadata ctx = Conversation.metadata c
      /\ map (fun m => (Conversation.role m, Conversation.content m))
           (Conversation.messages ctx)
         = map (fun m => (Conversation.role m, Conversation.content m))
             (Conversation.messages c)
      /\ Forall (fun m => Conversation.timestamp m = now2)
           (Conversation.messages ctx).
Proof.
  intros F HF svc1 svc2 cid c now1 now2 Hget Hmax Hfit.
  unfold Conversation.export_conversation, Conversation.get_conversation.
  rewrite Hget. simpl. eexists. 
  match goal with
  | |- context [Conversation.import_conversation svc2 ?d now2] =>
      destruct (import_stores F HF svc2 d now2 Hmax)
        as (ctx & Hfst & Hid & Hmd & _ & _ & Hmsgs)
  end.
  exists ctx. split; [done|]. split; [exact Hfst|].
  split; [exact Hid|]. split; [exact Hmd|].
  simpl in Hmsgs. rewrite Hmsgs.
  2:{ unfold PyStr.len in *. by rewrite length_map. }
  split.
  - rewrite !map_map. by apply map_ext.
  - apply Forall_forall. intros m Hm.
    apply list_elem_of_In, in_map_iff in Hm as (x & <- & _). done.
Qed.

Lemma export_import_round_trip_witness :
  exists data ctx,
    fst (Conversation.export_conversation capped_service (py "c") 5)
      = Some data
    /\ fst (Conversation.import_conversation
              (Conversation.init (F := Q) 10 10 24) data 9) = Some ctx
    /\ map (fun m => (Conversation.role m, Conversation.content m))
         (Conversation.messages ctx)
       = [(py "system", py "s"); (py "user", py "a")].
Proof.
  destruct (export_import_round_trip Q Q_float capped_service
              (Conversation.init 10 10 24) (py "c")
              {| Conversation.id := py "c";
                 Conversation.messages := [msg "system" "s"; msg "user" "a"];
                 Conversation.metadata := ∅;
                 Conversation.created_at := 0 |} 5 9 eq_refl)
    as (data & ctx & Hexp & Himp & _ & _ & Hmsgs & _).
  - vm_compute. discriminate.
  - vm_compute. discriminate.
  - exists data, ctx. split; [exact Hexp|]. split; [exact Himp|exact Hmsgs].
Defined.

(** ** Expiry and listing *)

Section Expiry.
Import PyStr Conversation.
Context {F : Type} `{PyFloat F}.
Implicit Types (svc : ConversationService F) (cid : str).

Lemma evict_all_stats svc (ids : list str) (k : str) :
  _stats (foldl _evict_conversation svc ids) !! k
  = if decide (k ∈ ids) then None else _stats svc !! k.
Proof.
  revert svc. induction ids as [|x ids IH]; intros svc; cbn [foldl].
  - destruct (decide (k ∈ [])) as [Hin|_]; [|done].
    by apply elem_of_nil in Hin.
  - rewrite IH. cbn [_evict_conversation _stats with_state].
    destruct (decide (k ∈ ids)) as [Hin|Hn];
      destruct (decide (k ∈ x :: ids)) as [Hin'|Hn']; try done.
    + exfalso. apply Hn'. by right.
    + apply elem_of_cons in Hin' as [->|?]; [|done].
      apply lookup_delete_eq.
    + apply not_elem_of_cons in Hn' as [Hne _].
      by apply lookup_delete_ne.
Qed.

Lemma evict_all_get svc (ids : list str) (k : str) :
  k ∉ ids ->
  OD.get k (_conversations (foldl _evict_conversation svc ids))
  = OD.get k (_conversations svc).
Proof.
  revert svc. induction ids as [|x ids IH]; intros svc Hn; simpl; [done|].
  apply not_elem_of_cons in Hn as [Hne Hn]. rewrite IH by done. simpl.
  by apply od_get_pop_ne.
Qed.

Lemma evict_all_order svc (ids : list str) :
  NoDup (lru_order svc) ->
  lru_order (foldl _evict_conversation svc ids)
  = filter (fun k => k ∉ ids) (lru_order svc).
Proof.
  revert svc. induction ids as [|x ids IH]; intros svc Hnd; simpl.
  - symmetry. unfold lru_order.
    induction (OD.keys (_conversations svc)) as [|k l IHl]; [done|].
    rewrite filter_cons_True by apply not_elem_of_nil. by rewrite IHl.
  - rewrite IH.
    2:{ unfold lru_order; simpl. by apply od_keys_pop_NoDup. }
    unfold lru_order at 1; simpl. rewrite od_keys_pop_filter by done.
    fold (lru_order svc). rewrite list_filter_filter.
    apply list_filter_iff. intros k. rewrite not_elem_of_cons. tauto.
Qed.

Lemma expired_ids svc (now : Z) (k : str) :
  k ∈ (map_to_list
         (filter (fun kv => is_expired (now - ttl_hours svc * 3600) kv.2 = true)
            (_stats svc))).*1
  <-> stale svc now k = true.
Proof.
  unfold stale. rewrite list_elem_of_fmap. split.
  - intros ([k' s] & -> & Hin). apply elem_of_map_to_list in Hin.
    apply map_lookup_filter_Some in Hin as [Hs Hexp]. simpl in *.
    by rewrite Hs.
  - destruct (_stats svc !! k) as [s|] eqn:Hs; [|done]. intros Hexp.
    exists (k, s). split; [done|]. apply elem_of_map_to_list.
    by apply map_lookup_filter_Some.
Qed.

(** The ids of [list_conversations]: the loop stops once a non-zero
    [limit] is reached. *)
Lemma list_loop_ids (stats : gmap str (ConversationStats F))
    (limit : option Z) (items : list (str * ConversationContext)) :
  forall acc : list Summary,
    map summary_id (list_loop stats limit items acc)
    = map summary_id acc ++
      match limit with
      | Some n =>
          if n =? 0 then OD.keys items
          else take (Z.to_nat (Z.max 1 (n - len acc))) (OD.keys items)
      | None => OD.keys items
      end.
Proof.
  induction items as [|[k c] items IH]; intros acc; simpl.
  - destruct limit as [n|]; [|by rewrite app_nil_r].
    destruct (n =? 0); by rewrite ?take_nil, app_nil_r.
  - destruct limit as [n|].
    + destruct (Z.eqb_spec n 0) as [->|Hn]; simpl.
      * rewrite IH, map_app. simpl. by rewrite <- app_assoc.
      * match goal with
        | |- context [n <=? ?x] =>
            destruct (Z.leb_spec n x) as [Hstop|Hgo]
        end; cbn [andb].
        -- rewrite map_app. simpl. f_equal.
           unfold len in Hstop. rewrite length_app in Hstop. simpl in Hstop.
           replace (Z.to_nat (Z.max 1 (n - len acc))) with 1%nat
             by (unfold len; lia).
           simpl. by rewrite take_0.
        -- rewrite IH, map_app. simpl. rewrite <- app_assoc. simpl.
           f_equal. unfold len in *. rewrite length_app in *. simpl in *.
           replace (Z.to_nat (Z.max 1 (n - Z.of_nat (length acc))))
             with (S (Z.to_nat (Z.max 1 (n - Z.of_nat (length acc + 1)))))
             by lia.
           done.
    + rewrite IH, map_app. simpl. by rewrite <- app_assoc.
Qed.

End Expiry.

(** X9: on a consistent cache [cleanup_expired] answers the number of
    cached conversations whose last activity is older than the time to
    live, removes exactly these with their statistics, leaves the others
    with their contexts, statistics and order, and no conversation that is
    left is expired. *)
Theorem cleanup_expired_removes_stale :
  forall (F : Type) (HF : PyFloat F)
         (svc : Conversation.ConversationService F) (now : Z),
    consistent svc ->
    let r := Conversation.cleanup_expired svc now in
    fst r = PyStr.len (filter (fun k => stale svc now k = true) (lru_order svc))
    /\ lru_order (snd r)
       = filter (fun k => stale svc now k = false) (lru_order svc)
    /\ (forall k, stale svc now k = false ->
          OD.get k (Conversation._conversations (snd r))
            = OD.get k (Conversation._conversations svc)
          /\ Conversation.get_stats (snd r) k = Conversation.get_stats svc k)
    /\ (forall k, stale (snd r) now k = false).
Proof.
  intros F HF svc now (Hnd & Hdom & _) r. subst r.
  unfold Conversation.cleanup_expired. cbn [fst snd].
  set (expired := (map_to_list _).*1).
  assert (Hexp : forall k, k ∈ expired <-> stale svc now k = true)
    by apply expired_ids.
  assert (Hnot : forall k, k ∉ expired <-> stale svc now k = false).
  { intros k. rewrite Hexp. by destruct (stale svc now k). }
  split; [|split; [|split]].
  - unfold PyStr.len. f_equal. apply Permutation_length.
    apply NoDup_Permutation.
    + apply NoDup_fst_map_to_list.
    + by apply NoDup_filter.
    + intros k. rewrite list_elem_of_filter, Hexp. split; [|by intros [? _]].
      intros Hst. split; [done|]. apply Hdom. unfold stale in Hst.
      destruct (Conversation._stats svc !! k); [by eauto|done].
  - rewrite evict_all_order by done. apply list_filter_iff. exact Hnot.
  - intros k Hk. apply Hnot in Hk. split; [by apply evict_all_get|].
    unfold Conversation.get_stats. rewrite evict_all_stats.
    by rewrite decide_False.
  - intros k. unfold stale at 1. rewrite evict_all_stats.
    destruct (decide (k ∈ expired)) as [Hin|Hn]; [done|].
    apply Hnot in Hn. unfold stale in Hn.
    assert (Httl : Conversation.ttl_hours
                     (foldl Conversation._evict_conversation svc expired)
                   = Conversation.ttl_hours svc).
    { clear. generalize svc. induction expired as [|x l IH]; intros s;
        simpl; [done|]. by rewrite IH. }
    by rewrite Httl.
Qed.

Lemma cleanup_expired_removes_stale_witness :
  fst (Conversation.cleanup_expired capped_service 1000000) = 1
  /\ lru_order (snd (Conversation.cleanup_expired capped_service 1000000)) = [].
Proof.
  destruct (cleanup_expired_removes_stale Q Q_float capped_service 1000000
              capped_service_consistent) as (Hn & Hord & _).
  split; [rewrite Hn|rewrite Hord]; vm_compute; reflexivity.
Defined.

(** X10: [list_conversations] lists the cached conversations from the
    most to the least recently used: all of them without a limit or with
    the limit 0, the first [limit] with a positive limit, and a single one
    with a negative limit.  In particular, unless the cache is empty, the
    conversation just read through [get_conversation] is listed first. *)
Theorem list_conversations_most_recent_first :
  forall (F : Type) (HF : PyFloat F)
         (svc : Conversation.ConversationService F) (limit : option Z),
    map Conversation.summary_id (Conversation.list_conversations svc limit)
    = match limit with
      | None => rev (lru_order svc)
      | Some n =>
          if n =? 0 then rev (lru_order svc)
          else take (Z.to_nat (Z.max 1 n)) (rev (lru_order svc))
      end
    /\ (forall cid now,
          cid ∈ lru_order svc ->
          head (map Conversation.summary_id
                  (Conversation.list_conversations
                     (snd (Conversation.get_conversation svc cid now)) limit))
          = Some cid).
Proof.
  intros F HF svc limit.
  assert (Hids : forall s : Conversation.ConversationService F,
    map Conversation.summary_id (Conversation.list_conversations s limit)
    = match limit with
      | None => rev (lru_order s)
      | Some n =>
          if n =? 0 then rev (lru_order s)
          else take (Z.to_nat (Z.max 1 n)) (rev (lru_order s))
      end).
  { intros s. unfold Conversation.list_conversations.
    rewrite list_loop_ids. simpl.
    unfold lru_order, OD.keys. rewrite map_rev.
    destruct limit as [n|]; [|done]. destruct (n =? 0); [done|].
    by rewrite Z.sub_0_r. }
  split; [apply Hids|].
  intros cid now Hin. rewrite Hids.
  destruct (get_conversation_order svc cid now) as (_ & Hord & _).
  rewrite Hord, od_keys_move_to_end by done.
  rewrite rev_app_distr. simpl.
  destruct limit as [n|]; [|done]. destruct (n =? 0); [done|].
  destruct (Z.to_nat (Z.max 1 n)) eqn:E; [lia|done].
Qed.

(** ** The size of the chunks *)

Section ChunkSize.
Import PyStr Splitter.
Variable self : TextSplitter.

Lemma lstrip_suffix (s : str) : lstrip s `suffix_of` s.
Proof.
  induction s as [|c s IH]; simpl; [done|].
  destruct (isspace c); [by apply suffix_cons_r|done].
Qed.

Lemma strip_length (s : str) : (length (strip s) <= length s)%nat.
Proof.
  unfold strip, rstrip. rewrite length_rev.
  pose proof (suffix_length _ _ (lstrip_suffix (rev (lstrip s)))) as H1.
  pose proof (suffix_length _ _ (lstrip_suffix s)) as H2.
  rewrite length_rev in H1. lia.
Qed.

Lemma slice_window_length {A : Type} (l : list A) (start size : Z) :
  0 <= size -> len (slice l start (start + size)) <= size.
Proof.
  intros Hsize. unfold slice, bound, len.
  rewrite length_take, length_drop.
  destruct (Z.ltb_spec start 0), (Z.ltb_spec (start + size) 0); lia.
Qed.

Lemma slice_to_length {A : Type} (l : list A) (hi : Z) :
  (length (slice_to l hi) <= length l)%nat.
Proof. unfold slice_to. rewrite length_take. lia. Qed.

(** Every chunk of the fixed-width fallback fits the window. *)
Lemma split_by_size_loop_bounded (fuel : nat) (text : str) :
  0 <= chunk_size self ->
  forall (start : Z) (chunks out : list str),
    Forall (fun c => len c <= chunk_size self) chunks ->
    split_by_size_loop self fuel text start chunks = Some out ->
    Forall (fun c => len c <= chunk_size self) out.
Proof.
  intros Hsize. induction fuel as [|fuel IH]; intros start chunks out Hall;
    simpl; [done|].
  destruct (start <? len text); [|by intros [= <-]].
  apply IH. apply Forall_app; split; [done|]. constructor; [|done].
  pose proof (strip_length (fst (window self text start))) as Hstrip.
  assert (Hwin : len (fst (window self text start)) <= chunk_size self).
  { unfold window.
    pose proof (slice_window_length text start (chunk_size self) Hsize) as Hs.
    destruct (_ <? len text); [|done].
    destruct (_ <? rfind _ _); [|done]. simpl.
    pose proof (slice_to_length
                  (slice text start (start + chunk_size self))
                  (rfind (slice text start (start + chunk_size self)) " ")).
    unfold len in *. lia. }
  unfold len in *. lia.
Qed.

Lemma separator_loop_bounded (recurse : str -> option (list str))
    (separator : str) (splits : list str) :
  (forall s sub, recurse s = Some sub ->
                 Forall (fun c => len c <= chunk_size self) sub) ->
  forall (chunks : list str) (cur : str) (chunks' : list str) (cur' : str),
    Forall (fun c => len c <= chunk_size self) chunks ->
    len cur <= chunk_size self ->
    separator_loop self recurse separator splits chunks cur
      = Some (chunks', cur') ->
    Forall (fun c => len c <= chunk_size self) chunks'
    /\ len cur' <= chunk_size self.
Proof.
  intros Hrec. induction splits as [|split splits IH];
    intros chunks cur chunks' cur' Hall Hcur; simpl.
  - by intros [= <- <-].
  - destruct (strip split); [by apply IH|].
    match goal with
    | |- context [len ?p <=? chunk_size self] =>
        destruct (Z.leb_spec (len p) (chunk_size self)) as [Hfit|Hover]
    end; [by apply IH|].
    assert (Hall1 : Forall (fun c => len c <= chunk_size self)
                      match cur with
                      | [] => chunks
                      | _ :: _ => chunks ++ [strip cur]
                      end).
    { destruct cur as [|c0 cur0]; [done|].
      apply Forall_app; split; [done|].
      constructor; [|done]. pose proof (strip_length (c0 :: cur0)).
      unfold len in *. lia. }
    destruct (Z.ltb_spec (chunk_size self) (len split)) as [Hbig|Hsmall].
    + destruct (recurse split) as [sub|] eqn:Hsub; [|done].
      apply IH; [|unfold len in *; simpl; lia].
      apply Forall_app; split; [done|]. by apply (Hrec split).
    + by apply IH.
Qed.

Lemma apply_overlap_none (chunks : list str) :
  chunk_overlap self = 0 -> _apply_overlap self chunks = chunks.
Proof.
  intros Hz. unfold _apply_overlap. destruct chunks; [done|].
  by rewrite Hz.
Qed.

Lemma try_separators_bounded (recurse : str -> option (list str))
    (fallback : option (list str)) (text : str) (seps : list str)
    (out : list str) :
  chunk_overlap self = 0 ->
  0 <= chunk_size self ->
  (forall s sub, recurse s = Some sub ->
                 Forall (fun c => len c <= chunk_size self) sub) ->
  (forall r, fallback = Some r ->
             Forall (fun c => len c <= chunk_size self) r) ->
  try_separators self recurse fallback text seps = Some out ->
  Forall (fun c => len c <= chunk_size self) out.
Proof.
  intros Hov Hsize Hrec Hfall. induction seps as [|sep seps IH]; simpl;
    [by apply Hfall|].
  destruct sep as [|a sep]; [exact IH|].
  destruct (contains _ _); [|exact IH].
  unfold _split_with_separator.
  destruct (separator_loop _ _ _ _ _ _) as [[chunks cur]|] eqn:Hloop; [|done].
  apply separator_loop_bounded in Hloop as [Hall Hcur];
    [|done|done|unfold len; simpl; lia].
  rewrite apply_overlap_none by done.
  assert (Hlast : Forall (fun c => len c <= chunk_size self)
                    match strip cur with
                    | [] => chunks
                    | last :: more => chunks ++ [last :: more]
                    end).
  { pose proof (strip_length cur) as Hs. destruct (strip cur); [done|].
    apply Forall_app; split; [done|]. constructor; [|done].
    unfold len in *. lia. }
  destruct (match strip cur with [] => chunks | _ => _ end); [exact IH|].
  by intros [= <-].
Qed.

Lemma recursive_split_bounded (fuel : nat) (seps : list str) :
  chunk_overlap self = 0 ->
  0 <= chunk_size self ->
  forall (text : str) (out : list str),
    _recursive_split self fuel seps text = Some out ->
    Forall (fun c => len c <= chunk_size self) out.
Proof.
  intros Hov Hsize.
  assert (Hfall : forall text r,
            _split_by_size self fuel text = Some r ->
            Forall (fun c => len c <= chunk_size self) r).
  { intros text r. by apply split_by_size_loop_bounded. }
  assert (Hshort : forall (text : str) out,
            len text <= chunk_size self ->
            Some match strip text with [] => [] | c :: s => [c :: s] end
              = Some out ->
            Forall (fun c => len c <= chunk_size self) out).
  { intros text out Hfit [= <-]. pose proof (strip_length text) as Hs.
    destruct (strip text); [done|]. constructor; [|done].
    unfold len in *. lia. }
  induction seps as [|sep seps IH]; intros text out;
    (destruct text as [|c text]; cbn [_recursive_split];
     [by intros [= <-]|]);
    (destruct (Z.leb_spec (len (c :: text)) (chunk_size self));
     [by apply Hshort|]).
  - cbn [try_separators]. apply Hfall.
  - apply try_separators_bounded; try done. intros r. apply Hfall.
Qed.

(** With a non-negative overlap [_apply_overlap] keeps each chunk as the
    end of its answer and adds at most the overlap and a space. *)
Lemma overlap_loop_grows (prev : str) (rest : list str) :
  0 < chunk_overlap self ->
  Forall2 (fun c o => c `suffix_of` o
                      /\ len o <= len c + chunk_overlap self + 1)
    rest (overlap_loop self prev rest).
Proof.
  intros Hov. revert prev. induction rest as [|c rest IH]; intros prev; simpl;
    [constructor|].
  constructor; [|apply IH]. split.
  - exists (overlap_text self prev ++ [" "%char]). by rewrite <- app_assoc.
  - destruct (overlap_text_suffix self prev Hov) as [_ Hlen].
    unfold len in *. rewrite length_app. simpl. lia.
Qed.

End ChunkSize.

(** X11: with [chunk_size >= 1] and no overlap, [split_text] answers on
    every text (given fuel above its length) and no chunk of the answer
    is longer than [chunk_size]. *)
Theorem split_text_chunks_fit :
  forall (self : TextSplitter) (text : str) (fuel : nat),
    1 <= chunk_size self ->
    chunk_overlap self = 0 ->
    (length text < fuel)%nat ->
    exists out,
      Splitter.split_text self fuel text = Some out
      /\ Forall (fun c => PyStr.len c <= chunk_size self) out.
Proof.
  intros self text fuel Hsize Hov Hfuel.
  assert (Hov2 : chunk_overlap self <= chunk_size self / 2).
  { rewrite Hov. apply Z.div_pos; lia. }
  destruct (recursive_split_terminates self Hsize Hov2 fuel
              (separators self) text Hfuel) as [out Hout].
  exists out. split; [exact Hout|].
  apply (recursive_split_bounded self fuel (separators self) Hov) with text;
    [lia|exact Hout].
Qed.

Lemma split_text_chunks_fit_witness :
  exists out,
    Splitter.split_text
      {| chunk_size := 4; chunk_overlap := 0; separators := [py ". "] |}
      10 (py "A. B. C.") = Some out
    /\ Forall (fun c => PyStr.len c <= 4) out.
Proof.
  apply (split_text_chunks_fit
           {| chunk_size := 4; chunk_overlap := 0; separators := [py ". "] |}
           (py "A. B. C.") 10).
  - simpl; lia.
  - reflexivity.
  - simpl; lia.
Defined.

(** X12: with a non-negative overlap, [_apply_overlap] answers as many
    chunks as it is given; each answered chunk ends with the chunk it was
    made from and is longer by at most [chunk_overlap + 1] characters;
    the first chunk is answered unchanged. *)
Theorem apply_overlap_keeps_chunks :
  forall (self : TextSplitter) (chunks : list str),
    0 <= chunk_overlap self ->
    Forall2 (fun c o => c `suffix_of` o
                        /\ PyStr.len o
                           <= PyStr.len c + chunk_overlap self + 1)
      chunks (Splitter._apply_overlap self chunks)
    /\ head (Splitter._apply_overlap self chunks) = head chunks.
Proof.
  intros self chunks Hov. unfold Splitter._apply_overlap.
  destruct chunks as [|first rest]; [split; [constructor|done]|].
  assert (Hrefl : forall l : list str,
            Forall2 (fun c o => c `suffix_of` o
                                /\ PyStr.len o
                                   <= PyStr.len c + chunk_overlap self + 1)
              l l).
  { intros l. apply Forall_Forall2_diag, Forall_forall. intros c _.
    split; [done|lia]. }
  destruct (Z.eqb_spec (chunk_overlap self) 0) as [Hz|Hnz].
  - split; [apply Hrefl|done].
  - split; [|done]. constructor.
    + split; [done|lia].
    + apply overlap_loop_grows. lia.
Qed.

Lemma apply_overlap_keeps_chunks_witness :
  head (Splitter._apply_overlap narrow_splitter [py "abcde"; py "fghij"])
  = Some (py "abcde").
Proof.
  apply (apply_overlap_keeps_chunks narrow_splitter [py "abcde"; py "fghij"]).
  simpl; lia.
Defined.

(** ** The embedding cache grows up to its capacity, and no further *)

Section EmbeddingCacheGrowth.
Import Rag.
Context {F : Type} `{PyFloat F}.
Variable hash : str -> Z.
Variable embeddings : str -> option (list F).

Lemma generate_embedding_grows (self self' : RAGService F) (text : str)
    (v : list F) :
  _generate_embedding hash embeddings self text = Some (v, self') ->
  _embedding_cache self ⊆ _embedding_cache self'
  /\ _cache_max_size self' = _cache_max_size self
  /\ cache_size self <= cache_size self'
  /\ cache_size self' <= Z.max (cache_size self) (_cache_max_size self)
  /\ (_cache_max_size self <= cache_size self -> self' = self).
Proof.
  unfold _generate_embedding, cache_size.
  destruct (_embedding_cache self !! hash text) eqn:Hhit.
  { intros [= <- <-]. repeat split; (done || lia). }
  destruct (embeddings text) as [e|]; [|done].
  destruct (Z.ltb_spec (Z.of_nat (size (_embedding_cache self)))
              (_cache_max_size self)) as [Hroom|Hfull];
    intros [= <- <-].
  - simpl. rewrite map_size_insert_None by done.
    repeat split; [by apply insert_subseteq|lia|lia|lia].
  - repeat split; (done || lia).
Qed.

Lemma after_history_grows (history : list str) :
  forall self : RAGService F,
    let s := after_history hash embeddings self history in
    _embedding_cache self ⊆ _embedding_cache s
    /\ _cache_max_size s = _cache_max_size self
    /\ cache_size self <= cache_size s
    /\ cache_size s <= Z.max (cache_size self) (_cache_max_size self)
    /\ (_cache_max_size self <= cache_size self -> s = self).
Proof.
  induction history as [|text history IH]; intros self; cbn zeta.
  { simpl. repeat split; (done || lia). }
  cbn [after_history].
  destruct (_generate_embedding hash embeddings self text)
    as [[v self']|] eqn:E; [|apply IH].
  destruct (generate_embedding_grows _ _ _ _ E)
    as (Hsub & Hmax & Hle & Hcap & Hfull).
  destruct (IH self') as (Hsub' & Hmax' & Hle' & Hcap' & Hfull').
  repeat split.
  - by etrans.
  - congruence.
  - lia.
  - rewrite Hmax in Hcap'. lia.
  - intros Hf. rewrite (Hfull Hf) in *. by apply Hfull'.
Qed.

End EmbeddingCacheGrowth.

(** X13: over any run of calls of [_generate_embedding], an entry of the
    embedding cache is never replaced or dropped, the cache never holds
    more than the larger of its initial size and [_cache_max_size]
    entries, and once it holds [_cache_max_size] entries the service no
    longer changes: later texts are embedded and not remembered. *)
Theorem embedding_cache_grows_to_capacity :
  forall (F : Type) (HF : PyFloat F) (hash : str -> Z)
         (embeddings : str -> option (list F)) (self : Rag.RAGService F)
         (history : list str),
    let s := after_history hash embeddings self history in
    Rag._embedding_cache self ⊆ Rag._embedding_cache s
    /\ cache_size self <= cache_size s
    /\ cache_size s <= Z.max (cache_size self) (Rag._cache_max_size self)
    /\ (Rag._cache_max_size self <= cache_size self -> s = self).
Proof.
  intros F HF hash embeddings self history s.
  destruct (after_history_grows hash embeddings history self)
    as (Hsub & _ & Hle & Hcap & Hfull).
  by repeat split.
Qed.

(** X14: when [retrieve_context] answers, the context carries the query
    it was asked; [chunks_retrieved] counts the hits the backend gave for
    [2 * k] neighbours, reranked or not; [chunks_returned] is the number
    of chunks of the context, and is at most [chunks_retrieved]; the
    sources are exactly the sources of the chunks of the context; and the
    configuration and the vector store of the service are left as they
    were. *)
Theorem retrieve_context_metrics :
  forall (F : Type) (HF : PyFloat F) (hash : str -> Z)
         (embeddings : str -> option (list F))
         (backend_search :
            VectorStore.ChromaDBBackend F -> list F -> Z
            -> option (gmap str VectorStore.MetaVal)
            -> list (VectorStore.Hit F))
         (self self' : Rag.RAGService F) (query : str) (top_k : option Z)
         (filter_metadata : option (gmap str VectorStore.MetaVal))
         (ctx : Rag.RAGContext F),
    Rag.retrieve_context hash embeddings backend_search self query top_k
      filter_metadata = Some (ctx, self') ->
    Rag.query ctx = query
    /\ (exists query_embedding,
          Rag._generate_embedding hash embeddings self query
            = Some (query_embedding, self')
          /\ Rag.chunks_retrieved ctx
             = PyStr.len
                 (backend_search
                    (VectorStore._backend (Rag.vector_store self))
                    query_embedding (Rag.effective_k self top_k * 2)
                    filter_metadata))
    /\ Rag.chunks_returned ctx = PyStr.len (Rag.chunks ctx)
    /\ Rag.chunks_returned ctx <= Rag.chunks_retrieved ctx
    /\ (forall s : str,
          s ∈ Rag.sources ctx
          <-> exists c, c ∈ Rag.chunks ctx /\ VectorStore.source c = s)
    /\ Rag.config self' = Rag.config self
    /\ Rag.vector_store self' = Rag.vector_store self.
Proof.
  intros F HF hash embeddings backend_search self self' query top_k
    filter_metadata ctx Hret.
  unfold Rag.retrieve_context in Hret.
  destruct (Rag._generate_embedding hash embeddings self query)
    as [[e s1]|] eqn:Hemb; [|done].
  injection Hret as <- <-.
  destruct (generate_embedding_frame _ _ _ _ _ _ Hemb) as [Hcfg Hvs].
  cbn [Rag.query Rag.chunks Rag.sources Rag.chunks_retrieved
       Rag.chunks_returned].
  split; [done|]. split.
  { exists e. split; [done|]. unfold PyStr.len.
    rewrite rerank_step_length. unfold VectorStore.search.
    by rewrite length_map, Hvs. }
  split; [done|]. split.
  { unfold PyStr.len. rewrite rerank_step_length.
    pose proof (slice_to_length
                  (Rag.threshold_filter s1
                     (Rag.rerank_step s1 query
                        (VectorStore.search backend_search
                           (Rag.vector_store s1) e
                           (Rag.effective_k self top_k * 2) filter_metadata)))
                  (Rag.effective_k self top_k)) as Hcut.
    unfold Rag.threshold_filter in *.
    match type of Hcut with
    | (_ <= length (filter ?P ?l))%nat =>
        pose proof (length_filter P l) as Hfil
    end.
    rewrite rerank_step_length in Hfil. lia. }
  split; [|done].
  intros s. rewrite elem_of_list_to_set, list_elem_of_fmap.
  split; intros (c & H1 & H2); exists c; by split.
Qed.

(** The theorem on the small index: three hits retrieved, two returned. *)
Lemma retrieve_context_metrics_witness :
  exists ctx self',
    Rag.retrieve_context demo_hash demo_embeddings demo_search demo_rag
      (py "what is retrieval") None None = Some (ctx, self')
    /\ Rag.chunks_retrieved ctx = 3
    /\ Rag.chunks_returned ctx = 2
    /\ Rag.chunks_returned ctx <= Rag.chunks_retrieved ctx.
Proof.
  eexists _, _. split; [reflexivity|].
  split; [vm_compute; reflexivity|]. split; [vm_compute; reflexivity|].
  match goal with
  | |- Rag.chunks_returned ?c <= _ => set (ctx := c)
  end.
  apply (retrieve_context_metrics Q Q_float demo_hash demo_embeddings
           demo_search demo_rag _ (py "what is retrieval") None None ctx
           eq_refl).
Defined.

(** ** The in-memory fallback of the vector store *)

Section Fallback.
Import PyStr VectorStore.
Context {F : Type} `{PyFloat F}.
Variable uuid4 : nat -> str.

Lemma store_entries_last (i : str) (doc : str) (emb : list F)
    (md : gmap str MetaVal)
    (entries : list (str * (str * (list F * gmap str MetaVal)))) :
  forall b : ChromaDBBackend F,
    (forall y, (i, y) ∈ entries -> y = (doc, (emb, md))) ->
    ((i, (doc, (emb, md))) ∈ entries
     \/ (_documents b !! i = Some doc /\ _embeddings b !! i = Some emb
         /\ _metadatas b !! i = Some md)) ->
    let b' := store_entries b entries in
    _documents b' !! i = Some doc /\ _embeddings b' !! i = Some emb
    /\ _metadatas b' !! i = Some md.
Proof.
  induction entries as [|[j [d [e m]]] entries IH]; intros b Hsame Hin;
    cbn zeta.
  { destruct Hin as [Hin|Hin]; [by apply elem_of_nil in Hin|done]. }
  cbn [store_entries]. apply IH.
  { intros y Hy. apply Hsame. by right. }
  destruct (decide (j = i)) as [->|Hne].
  - right. specialize (Hsame (d, (e, m)) ltac:(by left)).
    injection Hsame as -> -> ->. simpl.
    by rewrite !lookup_insert_eq.
  - destruct Hin as [Hin|Hin].
    + apply elem_of_cons in Hin as [[=]|Hin]; [congruence|by left].
    + right. simpl. by rewrite !lookup_insert_ne.
Qed.

Lemma store_entries_other (i : str)
    (entries : list (str * (str * (list F * gmap str MetaVal)))) :
  forall b : ChromaDBBackend F,
    (i ∉ entries.*1) ->
    let b' := store_entries b entries in
    _documents b' !! i = _documents b !! i
    /\ _embeddings b' !! i = _embeddings b !! i
    /\ _metadatas b' !! i = _metadatas b !! i.
Proof.
  induction entries as [|[j [d [e m]]] entries IH]; intros b Hni; cbn zeta;
    [done|].
  cbn [store_entries]. rewrite fmap_cons, not_elem_of_cons in Hni.
  destruct Hni as [Hne Hni]. simpl in Hne.
  match goal with
  | |- context [store_entries ?b1 entries] =>
      destruct (IH b1 Hni) as (-> & -> & ->)
  end.
  simpl. by rewrite !lookup_insert_ne.
Qed.

Lemma store_entries_aligned
    (entries : list (str * (str * (list F * gmap str MetaVal)))) :
  forall b : ChromaDBBackend F, aligned b -> aligned (store_entries b entries).
Proof.
  induction entries as [|[j [d [e m]]] entries IH]; intros b Hb; [done|].
  cbn [store_entries]. apply IH. intros i. simpl.
  rewrite !lookup_insert_is_Some'. by rewrite (Hb i).
Qed.

(** With lists that reach as far as the ids, [add] returns, and has made
    the assignments of the entries at the same places. *)
Lemma backend_add_from_entries (ids : list str) :
  forall (i : nat) (b : ChromaDBBackend F) (embeddings : list (list F))
         (documents : list str) (metadatas : list (gmap str MetaVal)),
    (i + length ids <= length documents)%nat ->
    (i + length ids <= length embeddings)%nat ->
    (i + length ids <= length metadatas)%nat ->
    backend_add_from b embeddings documents metadatas i ids
    = Added
        (store_entries b
           (zip ids
              (zip (drop i documents)
                 (zip (drop i embeddings) (drop i metadatas))))).
Proof.
  induction ids as [|j ids IH];
    intros i b embeddings documents metadatas Hd He Hm;
    cbn [backend_add_from]; [done|].
  simpl length in *.
  destruct (lookup_lt_is_Some_2 documents i) as [d Hdoc]; [lia|].
  destruct (lookup_lt_is_Some_2 embeddings i) as [e Hemb]; [lia|].
  destruct (lookup_lt_is_Some_2 metadatas i) as [m Hmeta]; [lia|].
  rewrite Hdoc, Hemb, Hmeta. cbv zeta. simpl.
  rewrite IH by lia.
  by rewrite (drop_S _ _ _ Hdoc), (drop_S _ _ _ Hemb), (drop_S _ _ _ Hmeta).
Qed.

Lemma zip_chunk_entries (kept : list (DocumentChunk F)) :
  forall ids : list str,
    zip ids
      (zip (map content kept)
         (zip (map (fun c => default [] (embedding c)) kept)
            (map stored_metadata kept)))
    = zip ids (map chunk_entry kept).
Proof.
  induction kept as [|c kept IH]; intros [|j ids]; simpl; try done.
  by rewrite IH.
Qed.

Lemma chunk_ids_length (kept : list (DocumentChunk F)) :
  forall draws : nat, length (chunk_ids uuid4 draws kept) = length kept.
Proof.
  induction kept as [|c kept IH]; intros draws; simpl; [done|].
  destruct (id c) as [[|? ?]|]; simpl; by rewrite IH.
Qed.

Lemma chunk_entries_elem (kept : list (DocumentChunk F)) :
  forall (draws : nat) (j : str) y,
    (j, y) ∈ zip (chunk_ids uuid4 draws kept) (map chunk_entry kept) ->
    exists c,
      c ∈ kept /\ y = chunk_entry c
      /\ (id c = Some j \/ exists n, j = uuid4 n).
Proof.
  induction kept as [|c kept IH]; intros draws j y Hin;
    [by apply elem_of_nil in Hin|].
  cbn [chunk_ids map] in Hin.
  destruct (id c) as [[|a i]|] eqn:Hid; cbn [zip_with] in Hin;
    apply elem_of_cons in Hin as [[= -> ->]|Hin];
    try (exists c; split; [by left|]; split; [done|]; by eauto);
    destruct (IH _ _ _ Hin) as (c' & ? & ? & ?);
    exists c'; (split; [by right|done]).
Qed.

Lemma chunk_entries_named (kept : list (DocumentChunk F))
    (c : DocumentChunk F) (a : ascii) (i : str) :
  c ∈ kept -> id c = Some (a :: i) ->
  forall draws : nat,
    (a :: i, chunk_entry c)
      ∈ zip (chunk_ids uuid4 draws kept) (map chunk_entry kept).
Proof.
  induction kept as [|c' kept IH]; intros Hin Hid draws;
    [by apply elem_of_nil in Hin|].
  cbn [chunk_ids map].
  apply elem_of_cons in Hin as [<-|Hin].
  - rewrite Hid. by left.
  - destruct (id c') as [[|? ?]|]; right; by apply IH.
Qed.

(** [add_chunks] never raises: it stores the entries of the chunks that
    have a vector. *)
Lemma add_chunks_entries (self : VectorStoreService F)
    (chunks : list (DocumentChunk F)) :
  let kept := filter (fun chunk => has_embedding chunk = true) chunks in
  add_chunks uuid4 self chunks
  = Some {| _backend :=
              store_entries (_backend self)
                (zip (chunk_ids uuid4 0 kept) (map chunk_entry kept));
            _initialized := _initialized self |}.
Proof.
  cbv zeta. unfold add_chunks. destruct chunks as [|c0 chunks0].
  { rewrite filter_nil. simpl. by destruct self. }
  cbv zeta. unfold backend_add.
  rewrite backend_add_from_entries;
    rewrite ?length_map, ?chunk_ids_length; try done.
  by rewrite !drop_0, zip_chunk_entries.
Qed.

Lemma size_delete_present {A : Type} (m : gmap str A) (i : str) :
  is_Some (m !! i) -> Z.of_nat (size (delete i m)) = Z.of_nat (size m) - 1.
Proof.
  intros Hi. rewrite map_size_delete_Some by done.
  destruct Hi as [x Hx].
  assert (size m <> 0%nat).
  { intros Hz. apply map_size_empty_inv in Hz. subst m.
    by rewrite lookup_empty in Hx. }
  lia.
Qed.

Lemma backend_delete_spec (ids : list str) :
  forall (b : ChromaDBBackend F) (deleted : Z),
    aligned b ->
    exists (n : Z) (b' : ChromaDBBackend F),
      backend_delete b ids deleted = Some (deleted + n, b')
      /\ aligned b'
      /\ 0 <= n <= len ids
      /\ backend_count b' = backend_count b - n
      /\ (forall i, i ∈ ids ->
            _documents b' !! i = None /\ _embeddings b' !! i = None)
      /\ (forall i, i ∉ ids ->
            _documents b' !! i = _documents b !! i
            /\ _embeddings b' !! i = _embeddings b !! i
            /\ _metadatas b' !! i = _metadatas b !! i).
Proof.
  induction ids as [|j ids IH]; intros b deleted Hb.
  { exists 0, b. cbn [backend_delete]. rewrite Z.add_0_r.
    split; [done|]. split; [done|].
    split; [unfold len; simpl; lia|]. split; [lia|]. split; [|done].
    intros i Hi. by apply elem_of_nil in Hi. }
  cbn [backend_delete].
  destruct (_documents b !! j) as [doc|] eqn:Hdoc.
  - destruct (proj1 (Hb j) ltac:(by rewrite Hdoc)) as [emb Hemb].
    rewrite Hemb.
    set (b1 := {| _documents := delete j (_documents b);
                  _embeddings := delete j (_embeddings b);
                  _metadatas := delete j (_metadatas b) |}).
    assert (Hb1 : aligned b1).
    { intros i. unfold b1. simpl. rewrite !lookup_delete_is_Some.
      by rewrite (Hb i). }
    destruct (IH b1 (deleted + 1) Hb1)
      as (n & b' & Hdel & Hb' & Hn & Hcount & Hgone & Hkept).
    exists (1 + n), b'. rewrite Hdel.
    split; [f_equal; f_equal; lia|]. split; [done|].
    split; [unfold len in *; simpl length; lia|].
    split.
    { rewrite Hcount. unfold backend_count, b1. simpl.
      rewrite size_delete_present by by rewrite Hdoc. lia. }
    split.
    + intros i Hi. destruct (decide (i ∈ ids)) as [Hin|Hout];
        [by apply Hgone|].
      apply elem_of_cons in Hi as [->|Hi]; [|done].
      destruct (Hkept j Hout) as (-> & -> & _). unfold b1. simpl.
      by rewrite !lookup_delete_eq.
    + intros i Hi. apply not_elem_of_cons in Hi as [Hne Hi].
      destruct (Hkept i Hi) as (-> & -> & ->). unfold b1. simpl.
      by rewrite !lookup_delete_ne.
  - destruct (IH b deleted Hb)
      as (n & b' & Hdel & Hb' & Hn & Hcount & Hgone & Hkept).
    exists n, b'. split; [done|]. split; [done|].
    split; [unfold len in *; simpl length; lia|].
    split; [done|]. split.
    + intros i Hi. destruct (decide (i ∈ ids)) as [Hin|Hout];
        [by apply Hgone|].
      apply elem_of_cons in Hi as [->|Hi]; [|done].
      destruct (Hkept j Hout) as (-> & Hembs & _). split; [done|].
      rewrite Hembs. apply eq_None_not_Some. rewrite <- (Hb j).
      by rewrite Hdoc; intros [? ?].
    + intros i Hi. apply not_elem_of_cons in Hi as [Hne Hi].
      by apply Hkept.
Qed.

Lemma empty_backend_aligned : aligned (F := F) empty_backend.
Proof. intros i. simpl. by rewrite !lookup_empty. Qed.

Lemma backend_after_aligned (calls : list (BackendCall F)) :
  Forall long_enough calls ->
  forall b : ChromaDBBackend F,
    aligned b ->
    exists b', backend_after b calls = Some b' /\ aligned b'.
Proof.
  induction 1 as [|[embeddings documents metadatas ids|ids] calls Hc _ IH];
    intros b Hb; cbn [backend_after].
  - by exists b.
  - destruct Hc as (Hd & He & Hm). unfold backend_add.
    rewrite backend_add_from_entries by (simpl; lia).
    by apply IH, store_entries_aligned.
  - destruct (backend_delete_spec ids b 0 Hb) as (n & b' & -> & Hb' & _).
    by apply IH.
Qed.

End Fallback.

(** X15: [add_chunks] does not raise.  It stores nothing for a chunk
    without a vector: an id whose document differs after the call is
    the id of a chunk of the call that has a vector, or a drawn
    [uuid4]; and a call in which no chunk has a vector leaves the store
    as it was.  A chunk that has a vector and a non-empty id is stored
    under that id, given that no other embedded chunk of the call
    carries the id and no drawn [uuid4] equals it: the document is its
    content, the vector its embedding, and the metadata its own
    metadata over the keys [source] and [chunk_index].  A hit the
    fallback then answers for the id is turned by [search] into a chunk
    with the stored content and id, the score [1.0 - distance] and no
    vector; its source and index are those of the stored chunk unless
    the metadata of the chunk has a [source] or [chunk_index] key of its
    own. *)
Theorem add_chunks_round_trip :
  forall (F : Type) (HF : PyFloat F) (uuid4 : nat -> str)
         (self : VectorStore.VectorStoreService F)
         (chunks : list (VectorStore.DocumentChunk F)),
    exists self',
      VectorStore.add_chunks uuid4 self chunks = Some self'
      /\ ((forall c, c ∈ chunks -> VectorStore.has_embedding c = false) ->
          self' = self)
      /\ (forall j : str,
            VectorStore._documents (VectorStore._backend self') !! j
              = VectorStore._documents (VectorStore._backend self) !! j
            \/ exists c,
                 c ∈ chunks /\ VectorStore.has_embedding c = true
                 /\ (VectorStore.id c = Some j \/ exists n, j = uuid4 n))
      /\ (forall (c : VectorStore.DocumentChunk F) (a : ascii) (i : str),
            c ∈ chunks ->
            VectorStore.has_embedding c = true ->
            VectorStore.id c = Some (a :: i) ->
            (forall c', c' ∈ chunks ->
                        VectorStore.has_embedding c' = true ->
                        VectorStore.id c' = Some (a :: i) -> c' = c) ->
            (forall n, uuid4 n <> a :: i) ->
            let b := VectorStore._backend self' in
            VectorStore._documents b !! (a :: i)
              = Some (VectorStore.content c)
            /\ Some <$> VectorStore._embeddings b !! (a :: i)
               = Some (VectorStore.embedding c)
            /\ VectorStore._metadatas b !! (a :: i)
               = Some (VectorStore.stored_metadata c)
            /\ (forall distance : F,
                  exists h,
                    VectorStore.stored_hit b (a :: i) distance = Some h
                    /\ let r := VectorStore.chunk_of_hit h in
                       VectorStore.content r = VectorStore.content c
                       /\ VectorStore.id r = VectorStore.id c
                       /\ VectorStore.score r = fsub lit_1_0 distance
                       /\ VectorStore.embedding r = None
                       /\ (default ∅ (VectorStore.metadata c) !! py "source"
                           = None ->
                           VectorStore.source r = VectorStore.source c)
                       /\ (default ∅ (VectorStore.metadata c)
                             !! py "chunk_index" = None ->
                           VectorStore.chunk_index r
                           = VectorStore.chunk_index c))).
Proof.
  intros F HF uuid4 self chunks.
  pose proof (add_chunks_entries uuid4 self chunks) as Hadd.
  cbv zeta in Hadd.
  set (kept := filter (fun chunk => VectorStore.has_embedding chunk = true)
                 chunks) in *.
  set (entries := zip (VectorStore.chunk_ids uuid4 0 kept)
                    (map chunk_entry kept)) in *.
  assert (Hkept : forall c, c ∈ kept
                            <-> VectorStore.has_embedding c = true
                                /\ c ∈ chunks).
  { intros c. unfold kept. by rewrite list_elem_of_filter. }
  eexists. split; [exact Hadd|]. cbn [VectorStore._backend]. split; [|split].
  - intros Hnone.
    assert (Hempty : kept = []).
    { apply elem_of_nil_inv. intros c Hc.
      apply Hkept in Hc as [Hemb Hc]. by rewrite (Hnone c Hc) in Hemb. }
    unfold entries. rewrite Hempty. simpl. by destruct self.
  - intros j. destruct (decide (j ∈ entries.*1)) as [Hin|Hout].
    + right. apply list_elem_of_fmap in Hin as ([j' y] & -> & Hin).
      destruct (chunk_entries_elem uuid4 _ _ _ _ Hin)
        as (c & Hc & _ & Hid).
      apply Hkept in Hc as [Hemb Hc]. by exists c.
    + left. by destruct (store_entries_other j entries
                           (VectorStore._backend self) Hout) as (-> & _).
  - intros c a i Hin Hemb Hid Honly Hfresh.
    set (b := store_entries (VectorStore._backend self) entries).
    assert (Hvec : exists e, VectorStore.embedding c = Some e
                             /\ default [] (VectorStore.embedding c) = e).
    { unfold VectorStore.has_embedding in Hemb.
      destruct (VectorStore.embedding c) as [e|]; [by exists e|done]. }
    destruct Hvec as (e & Hvec & Hdef).
    assert (Hstored :
      VectorStore._documents b !! (a :: i) = Some (VectorStore.content c)
      /\ VectorStore._embeddings b !! (a :: i) = Some e
      /\ VectorStore._metadatas b !! (a :: i)
         = Some (VectorStore.stored_metadata c)).
    { unfold b. apply store_entries_last.
      - intros y Hy.
        destruct (chunk_entries_elem uuid4 _ _ _ _ Hy)
          as (c' & Hc' & -> & [Hid'|[n Hn]]).
        + apply Hkept in Hc' as [Hemb' Hc'].
          rewrite (Honly c' Hc' Hemb' Hid'). unfold chunk_entry.
          by rewrite Hdef.
        + by destruct (Hfresh n).
      - left. rewrite <- Hdef. apply (chunk_entries_named uuid4); [|done].
        by apply Hkept. }
    destruct Hstored as (Hdoc & Hembs & Hmeta).
    split; [done|]. split; [by rewrite Hembs, Hvec|]. split; [done|].
    intros distance. unfold VectorStore.stored_hit. rewrite Hdoc, Hmeta.
    eexists. split; [reflexivity|]. cbn zeta.
    unfold VectorStore.chunk_of_hit. simpl.
    split; [done|]. split; [done|]. split; [done|]. split; [done|].
    unfold VectorStore.stored_metadata. split; intros Hfree.
    + by rewrite lookup_union_r, lookup_insert_eq.
    + rewrite lookup_union_r by done.
      rewrite lookup_insert_ne by (by vm_compute).
      by rewrite lookup_singleton_eq.
Qed.

(** The theorem on a call with one embedded chunk and one without a
    vector: the first is stored under its id, the second is not. *)
Lemma add_chunks_round_trip_witness :
  exists self',
    VectorStore.add_chunks demo_uuid4 demo_store [bare_chunk; demo_chunk]
      = Some self'
    /\ VectorStore._documents (VectorStore._backend self')
         !! py "notes.txt_3_0a1b2c3d"
       = Some (py "retrieval augmented generation")
    /\ VectorStore._documents (VectorStore._backend self')
         !! py "notes.txt_4_ffffffff" = None.
Proof.
  destruct (add_chunks_round_trip Q Q_float demo_uuid4 demo_store
              [bare_chunk; demo_chunk]) as (self' & Hadd & _ & _ & Hstored).
  exists self'. split; [exact Hadd|]. split.
  - refine (proj1 (Hstored demo_chunk "n"%char (py "otes.txt_3_0a1b2c3d")
                     _ eq_refl eq_refl _ _)).
    + right. left.
    + intros c' Hc' Hemb' _.
      apply elem_of_cons in Hc' as [->|Hc']; [discriminate Hemb'|].
      by apply list_elem_of_singleton in Hc'.
    + intros n Hn. discriminate Hn.
  - vm_compute in Hadd. injection Hadd as <-. vm_compute. reflexivity.
Defined.

(** X16: on a fallback in which every document has a vector, [delete]
    does not raise; it answers the number [n] of documents it removed,
    at most the number of ids given; the count of the backend goes down
    by [n]; no id of the call has a document or a vector afterwards; and
    the documents, vectors and metadata of every other id are as
    before. *)
Theorem backend_delete_effect :
  forall (F : Type) (b : VectorStore.ChromaDBBackend F) (ids : list str),
    aligned b ->
    exists (n : Z) (b' : VectorStore.ChromaDBBackend F),
      VectorStore.backend_delete b ids 0 = Some (n, b')
      /\ 0 <= n <= PyStr.len ids
      /\ VectorStore.backend_count b' = VectorStore.backend_count b - n
      /\ (forall i, i ∈ ids ->
            VectorStore._documents b' !! i = None
            /\ VectorStore._embeddings b' !! i = None)
      /\ (forall i, i ∉ ids ->
            VectorStore._documents b' !! i = VectorStore._documents b !! i
            /\ VectorStore._embeddings b' !! i
               = VectorStore._embeddings b !! i
            /\ VectorStore._metadatas b' !! i
               = VectorStore._metadatas b !! i).
Proof.
  intros F b ids Hb.
  destruct (backend_delete_spec ids b 0 Hb)
    as (n & b' & Hdel & _ & Hn & Hcount & Hgone & Hkept).
  exists n, b'. by rewrite Hdel.
Qed.

(** The theorem on the fallback holding the embedded chunk: deleting its
    id twice, and an id that is not stored, removes one document. *)
Lemma backend_delete_effect_witness :
  exists b',
    VectorStore.backend_delete demo_backend
      [py "notes.txt_3_0a1b2c3d"; py "missing"; py "notes.txt_3_0a1b2c3d"] 0
    = Some (1, b')
    /\ VectorStore.backend_count b' = 0.
Proof.
  assert (Hb : aligned demo_backend).
  { intros i. unfold demo_backend. simpl.
    destruct (decide (py "notes.txt_3_0a1b2c3d" = i)) as [<-|Hne].
    - by rewrite !lookup_singleton_eq.
    - by rewrite !lookup_singleton_ne. }
  destruct (backend_delete_effect Q demo_backend
              [py "notes.txt_3_0a1b2c3d"; py "missing";
               py "notes.txt_3_0a1b2c3d"] Hb)
    as (n & b' & Hdel & _ & Hcount & _).
  exists b'.
  assert (Hn : n = 1).
  { vm_compute in Hdel. injection Hdel as Hn _. congruence. }
  subst n. split; [exact Hdel|]. rewrite Hcount. reflexivity.
Defined.

(** X17: starting from the empty dictionaries of [_use_fallback], let
    [delete] calls be made, and [add] calls none of whose three lists is
    shorter than its ids, as [add_chunks] makes them.  Then no call
    raises, and every document ends up with a vector and every vector
    with a document: the [del self._embeddings[doc_id]] of [delete]
    always finds its key. *)
Theorem fallback_delete_never_raises :
  forall (F : Type) (calls : list (BackendCall F)),
    Forall long_enough calls ->
    exists b, backend_after empty_backend calls = Some b /\ aligned b.
Proof.
  intros F calls Hcalls.
  by apply backend_after_aligned, empty_backend_aligned.
Qed.

(** The theorem on an [add] of two documents and a [delete] of one. *)
Lemma fallback_delete_never_raises_witness :
  exists b,
    backend_after empty_backend demo_calls = Some b
    /\ VectorStore.backend_count b = 1.
Proof.
  destruct (fallback_delete_never_raises Q demo_calls) as (b & Hb & _).
  - repeat constructor; simpl; lia.
  - exists b. split; [exact Hb|].
    vm_compute in Hb. injection Hb as <-. vm_compute. reflexivity.
Defined.

(** An [add] whose list of vectors is shorter than its ids raises after
    it has stored a document without its vector; a [delete] of that id
    then raises as well. *)
Example fallback_ragged_add :
  match
    VectorStore.backend_add (F := Q) empty_backend [] [py "one"] [∅]
      [py "a"]
  with
  | VectorStore.AddIndexError b =>
      VectorStore._documents b !! py "a" = Some (py "one")
      /\ VectorStore._embeddings b !! py "a" = None
      /\ VectorStore.backend_delete b [py "a"] 0 = None
  | VectorStore.Added _ => False
  end.
Proof. vm_compute. repeat split. Qed.

(** ** The helpers of [utils/helpers.py] *)

Section HelperFacts.
Import PyStr Helpers.

Lemma rfind_from_spec (c : ascii) (s : str) :
  forall i : Z,
    0 <= i ->
    (rfind_from i c s = -1 /\ (c ∉ s))
    \/ exists n : nat,
         rfind_from i c s = i + Z.of_nat n /\ s !! n = Some c.
Proof.
  induction s as [|a s IH]; intros i Hi; cbn [rfind_from].
  { left. split; [done|]. by intros Hin%elem_of_nil. }
  cbv zeta.
  destruct (IH (i + 1) ltac:(lia)) as [[-> Hnot]|(n & -> & Hn)].
  - change (0 <=? -1) with false. cbv iota.
    destruct (decide (a = c)) as [->|Hne].
    + right. exists 0%nat. split; [lia|done].
    + left. split; [done|]. by apply not_elem_of_cons.
  - destruct (Z.leb_spec 0 (i + 1 + Z.of_nat n)); [|lia].
    right. exists (S n). split; [lia|done].
Qed.

Lemma slice_chunk {A : Type} (l : list A) (i k : Z) :
  0 <= i -> 0 <= k ->
  slice l i (i + k) = take (Z.to_nat k) (drop (Z.to_nat i) l).
Proof.
  intros Hi Hk. unfold slice, bound, len.
  destruct (Z.ltb_spec i 0); [lia|].
  destruct (Z.ltb_spec (i + k) 0); [lia|].
  destruct (Z.le_gt_cases (Z.of_nat (length l)) i) as [Hge|Hlt].
  - rewrite (drop_ge l (Z.to_nat i)) by lia.
    rewrite (drop_ge l (Z.to_nat (Z.max 0 (Z.min i (Z.of_nat (length l))))))
      by lia.
    by rewrite !take_nil.
  - replace (Z.to_nat (Z.max 0 (Z.min i (Z.of_nat (length l)))))
      with (Z.to_nat i) by lia.
    destruct (Z.le_gt_cases (i + k) (Z.of_nat (length l))).
    + f_equal. lia.
    + rewrite !take_ge; [done|rewrite length_drop; lia..].
Qed.

Lemma concat_windows {A : Type} (l : list A) (k q : nat) :
  concat (map (fun j => take k (drop (j * k) l)) (seq 0 q))
  = take (q * k) l.
Proof.
  induction q as [|q IH]; [done|].
  rewrite seq_S, map_app, concat_app, IH. simpl.
  rewrite app_nil_r, take_take_drop. f_equal. lia.
Qed.

Lemma range_step_windows {A : Type} (lst : list A) (k : Z) :
  1 <= k ->
  map (fun i => slice lst i (i + k)) (range_step (len lst) k)
  = map (fun j => take (Z.to_nat k) (drop (j * Z.to_nat k) lst))
      (seq 0 (Z.to_nat ((len lst + k - 1) / k))).
Proof.
  intros Hk. unfold range_step. rewrite map_map.
  apply map_ext. intros j. rewrite slice_chunk by lia.
  do 2 f_equal. lia.
Qed.

Lemma count_covers (n k : Z) :
  0 <= n -> 1 <= k ->
  let q := (n + k - 1) / k in
  0 <= q /\ n <= q * k /\ (q - 1) * k < n.
Proof.
  intros Hn Hk q.
  pose proof (Z.mul_div_le (n + k - 1) k ltac:(lia)) as Hlo.
  pose proof (Z.mul_succ_div_gt (n + k - 1) k ltac:(lia)) as Hhi.
  fold q in Hlo, Hhi.
  assert (0 <= q) by (apply Z.div_pos; lia).
  split; [done|]. split; nia.
Qed.

End HelperFacts.

(** X18: for a chunk size of at least 1, [chunk_list] answers chunks
    whose concatenation is the list; there are
    [ceil(len(lst) / chunk_size)] of them; none is empty and none is
    longer than [chunk_size]; and every chunk but the last has exactly
    [chunk_size] elements. *)
Theorem chunk_list_partitions :
  forall (A : Type) (lst : list A) (chunk_size : Z),
    1 <= chunk_size ->
    exists chunks,
      Helpers.chunk_list lst chunk_size = Some chunks
      /\ concat chunks = lst
      /\ PyStr.len chunks = (PyStr.len lst + chunk_size - 1) / chunk_size
      /\ (forall (i : nat) (c : list A),
            chunks !! i = Some c ->
            1 <= PyStr.len c <= chunk_size
            /\ ((S i < length chunks)%nat -> PyStr.len c = chunk_size)).
Proof.
  intros A lst k Hk. unfold Helpers.chunk_list.
  destruct (Z.eqb_spec k 0); [lia|]. destruct (Z.ltb_spec k 0); [lia|].
  eexists. split; [reflexivity|]. rewrite range_step_windows by done.
  destruct (count_covers (PyStr.len lst) k ltac:(unfold PyStr.len; lia) Hk)
    as (Hq & Hcover & Hlast).
  set (q := (PyStr.len lst + k - 1) / k) in *.
  split; [|split].
  - rewrite concat_windows. apply take_ge. unfold PyStr.len in *. nia.
  - unfold PyStr.len at 1. rewrite length_map, length_seq. lia.
  - intros i c Hc. rewrite length_map, length_seq.
    rewrite list_lookup_fmap in Hc.
    destruct (seq 0 (Z.to_nat q) !! i) as [j|] eqn:Hj; [|done].
    apply lookup_seq in Hj as [-> Hi]. injection Hc as <-.
    unfold PyStr.len in *. rewrite length_take, length_drop. simpl.
    split; [nia|]. intros Hnext. nia.
Qed.

(** The theorem on seven elements in chunks of three. *)
Lemma chunk_list_partitions_witness :
  exists chunks,
    Helpers.chunk_list [1; 2; 3; 4; 5; 6; 7] 3 = Some chunks
    /\ concat chunks = [1; 2; 3; 4; 5; 6; 7]
    /\ PyStr.len chunks = 3.
Proof.
  destruct (chunk_list_partitions Z [1; 2; 3; 4; 5; 6; 7] 3 ltac:(lia))
    as (chunks & Hc & Hcat & Hlen & _).
  exists chunks. split; [exact Hc|]. split; [exact Hcat|].
  rewrite Hlen. reflexivity.
Defined.

(** The step 0 raises, and a negative step gives no chunk at all. *)
Example chunk_list_edge :
  Helpers.chunk_list [1; 2; 3] 0 = None
  /\ Helpers.chunk_list [1; 2; 3] (-2) = Some [].
Proof. split; reflexivity. Qed.

(** X19: with a suffix no longer than [max_length], the text
    [truncate_text] answers is never longer than [max_length]; a text
    that fits is answered as it is; a longer one is answered as a prefix
    of the text followed by the suffix, where the prefix is either the
    first [max_length - len(suffix)] characters or ends just before a
    space that lies past the middle of [max_length]. *)
Theorem truncate_text_bounded :
  forall (text : str) (max_length : Z) (suffix : str),
    PyStr.len suffix <= max_length ->
    let r := Helpers.truncate_text text max_length suffix in
    PyStr.len r <= max_length
    /\ (PyStr.len text <= max_length -> r = text)
    /\ (max_length < PyStr.len text ->
        exists kept,
          r = kept ++ suffix
          /\ kept `prefix_of` text
          /\ (kept = take (Z.to_nat (max_length - PyStr.len suffix)) text
              \/ (max_length / 2 < PyStr.len kept
                  /\ text !! length kept = Some " "%char))).
Proof.
  intros text max_length suffix Hsuf r. unfold r, Helpers.truncate_text.
  destruct (Z.leb_spec (PyStr.len text) max_length) as [Hfit|Hlong].
  { split; [done|]. split; [done|lia]. }
  cbv zeta.
  destruct (slice_to_nonneg text (max_length - PyStr.len suffix) ltac:(lia))
    as [Hcut Hcutlen].
  rewrite Hcut in *.
  set (truncated := take (Z.to_nat (max_length - PyStr.len suffix)) text)
    in *.
  destruct (Z.ltb_spec (max_length / 2) (PyStr.rfind truncated " "))
    as [Hspace|Hnone].
  - destruct (rfind_from_spec " " truncated 0 ltac:(lia))
      as [[Hr _]|(n & Hr & Hn)]; unfold PyStr.rfind in *.
    { rewrite Hr in Hspace.
      assert (0 <= max_length / 2) by (apply Z.div_pos; unfold PyStr.len in *; lia).
      lia. }
    rewrite Hr in *. rewrite Z.add_0_l in *.
    destruct (slice_to_nonneg truncated (Z.of_nat n) ltac:(lia)) as [Hk _].
    rewrite Hk, Nat2Z.id.
    assert (Hlt : (n < length truncated)%nat).
    { apply lookup_lt_is_Some. by rewrite Hn. }
    assert (Hkept : length (take n truncated) = n).
    { rewrite length_take. lia. }
    split; [|split; [lia|]].
    + unfold PyStr.len in *. rewrite length_app, Hkept. lia.
    + intros _. exists (take n truncated). split; [done|]. split.
      * etrans; [apply prefix_take|apply prefix_take].
      * right. unfold PyStr.len. rewrite Hkept. split; [lia|].
        unfold truncated in Hn.
        apply lookup_take_Some in Hn. tauto.
  - split; [|split; [lia|]].
    + unfold PyStr.len in *. rewrite length_app. lia.
    + intros _. exists truncated. split; [done|]. split; [|by left].
      apply prefix_take.
Qed.

(** The theorem on a sentence cut to twelve characters. *)
Lemma truncate_text_bounded_witness :
  Helpers.truncate_text (py "the quick brown fox") 12 (py "...")
    = py "the quick..."
  /\ PyStr.len (Helpers.truncate_text (py "the quick brown fox") 12 (py "..."))
     <= 12.
Proof.
  split; [vm_compute; reflexivity|].
  apply (truncate_text_bounded (py "the quick brown fox") 12 (py "...")).
  vm_compute. discriminate.
Defined.

(** A suffix longer than [max_length] makes the bound negative, which
    Python counts from the end of the text: the answer is longer than
    the text. *)
Example truncate_text_long_suffix :
  Helpers.truncate_text (py "abcdef") 2 (py "...") = py "abcde...".
Proof. vm_compute. reflexivity. Qed.

(** ** Cleaning and chunking of [DocumentService] *)

Section CleanText.
Import PyStr Document.

Lemma collapse_spaces_chars (s : str) :
  forall (in_run : bool) (c : ascii),
    c ∈ collapse_spaces in_run s -> isspace c = true -> c = " "%char.
Proof.
  induction s as [|a s IH]; intros in_run c Hc Hsp;
    [by apply elem_of_nil in Hc|].
  cbn [collapse_spaces] in Hc. destruct (isspace a) eqn:Ha.
  - destruct in_run; [by eapply IH|].
    apply elem_of_cons in Hc as [->|Hc]; [done|by eapply IH].
  - apply elem_of_cons in Hc as [->|Hc]; [congruence|by eapply IH].
Qed.

Lemma collapse_spaces_length (s : str) :
  forall in_run : bool,
    (length (collapse_spaces in_run s) <= length s)%nat.
Proof.
  induction s as [|a s IH]; intros in_run; [done|].
  cbn [collapse_spaces]. destruct (isspace a).
  - destruct in_run; simpl; [specialize (IH true)|specialize (IH true)]; lia.
  - simpl. specialize (IH false). lia.
Qed.

Lemma join_nil (pieces : list str) : join [] pieces = concat pieces.
Proof.
  induction pieces as [|p pieces IH]; [done|].
  cbn [join concat]. destruct pieces as [|q pieces].
  - simpl. by rewrite app_nil_r.
  - by rewrite IH.
Qed.

Lemma split_go_single (a : ascii) (s : str) :
  forall cur : str,
    concat (split_go [a] 0 cur s) = rev cur ++ filter (fun c => c <> a) s.
Proof.
  induction s as [|c s IH]; intros cur; cbn [split_go].
  { simpl. by rewrite filter_nil. }
  cbn [startswith]. destruct (decide (a = c)) as [<-|Hne].
  - cbn [startswith length Nat.sub concat]. rewrite IH. simpl.
    rewrite filter_cons_False by (intros Hn; by apply Hn). done.
  - rewrite IH. rewrite filter_cons_True by congruence.
    simpl. by rewrite <- app_assoc.
Qed.

Lemma replace_single_empty (s : str) (a : ascii) :
  replace s [a] [] = filter (fun c => c <> a) s.
Proof. unfold replace, split. by rewrite join_nil, split_go_single. Qed.

Lemma split_go_absent (a : ascii) (sep s : str) :
  (a ∉ s) ->
  forall cur : str, split_go (a :: sep) 0 cur s = [rev cur ++ s].
Proof.
  induction s as [|c s IH]; intros Hnot cur; cbn [split_go].
  { by rewrite app_nil_r. }
  apply not_elem_of_cons in Hnot as [Hne Hnot].
  cbn [startswith]. rewrite decide_False by done.
  rewrite IH by done. simpl. by rewrite <- app_assoc.
Qed.

Lemma replace_absent (s : str) (a : ascii) (sep new : str) :
  (a ∉ s) -> replace s (a :: sep) new = s.
Proof. intros Hnot. unfold replace, split. by rewrite split_go_absent. Qed.

Lemma squeeze_newlines_absent (s : str) :
  (LF ∉ s) -> squeeze_newlines 0 s = s.
Proof.
  induction s as [|c s IH]; intros Hnot; [done|].
  apply not_elem_of_cons in Hnot as [Hne Hnot].
  cbn [squeeze_newlines]. rewrite decide_False by done.
  simpl. by rewrite IH.
Qed.

Lemma lstrip_head (s : str) :
  match lstrip s with [] => True | c :: _ => isspace c = false end.
Proof.
  induction s as [|c s IH]; simpl; [done|].
  destruct (isspace c) eqn:E; [done|by rewrite E].
Qed.

Lemma lstrip_fixed (s : str) :
  match s with [] => True | c :: _ => isspace c = false end ->
  lstrip s = s.
Proof. destruct s as [|c s]; simpl; [done|]. by intros ->. Qed.

Lemma lstrip_snoc (s : str) (c : ascii) :
  isspace c = false -> lstrip (s ++ [c]) = lstrip s ++ [c].
Proof.
  intros Hc. induction s as [|a s IH]; simpl; [by rewrite Hc|].
  by destruct (isspace a).
Qed.

Lemma lstrip_idem (s : str) : lstrip (lstrip s) = lstrip s.
Proof. apply lstrip_fixed, lstrip_head. Qed.

Lemma rstrip_idem (s : str) : rstrip (rstrip s) = rstrip s.
Proof. unfold rstrip. by rewrite rev_involutive, lstrip_idem. Qed.

Lemma strip_idem (s : str) : strip (strip s) = strip s.
Proof.
  unfold strip.
  assert (Hl : lstrip (rstrip (lstrip s)) = rstrip (lstrip s)).
  { pose proof (lstrip_head s) as Hhead.
    destruct (lstrip s) as [|c r]; [done|].
    apply lstrip_fixed. unfold rstrip. simpl rev.
    rewrite lstrip_snoc by done. by rewrite rev_unit. }
  by rewrite Hl, rstrip_idem.
Qed.

Lemma lstrip_elem (s : str) (c : ascii) : c ∈ lstrip s -> c ∈ s.
Proof.
  destruct (lstrip_suffix s) as [k Hk]. intros Hc.
  rewrite Hk. apply elem_of_app. by right.
Qed.

Lemma elem_of_rev_list {A : Type} (l : list A) (x : A) : x ∈ rev l <-> x ∈ l.
Proof. rewrite rev_alt. apply elem_of_reverse. Qed.

Lemma strip_elem (s : str) (c : ascii) : c ∈ strip s -> c ∈ s.
Proof.
  unfold strip, rstrip. rewrite elem_of_rev_list. intros Hc.
  apply lstrip_elem in Hc. rewrite elem_of_rev_list in Hc.
  by apply lstrip_elem.
Qed.

Lemma clean_text_collapsed (text : str) :
  _clean_text text
  = strip (filter (fun c => c <> NUL) (collapse_spaces false text)).
Proof.
  unfold _clean_text. cbv zeta. rewrite replace_single_empty.
  set (t := filter (fun c => c <> NUL) (collapse_spaces false text)).
  assert (Hchars : forall c, c ∈ t -> isspace c = true -> c = " "%char).
  { intros c Hc. apply list_elem_of_filter in Hc as [_ Hc].
    by apply (collapse_spaces_chars _ _ _ Hc). }
  assert (Hcr : CR ∉ t).
  { intros Hc. by specialize (Hchars _ Hc eq_refl). }
  assert (Hlf : LF ∉ t).
  { intros Hc. by specialize (Hchars _ Hc eq_refl). }
  rewrite (replace_absent t CR [LF] [LF]) by done.
  rewrite (replace_absent t CR [] [LF]) by done.
  by rewrite squeeze_newlines_absent.
Qed.

Lemma clean_text_length (text : str) :
  (length (_clean_text text) <= length text)%nat.
Proof.
  rewrite clean_text_collapsed.
  pose proof (strip_length
                (filter (fun c => c <> NUL) (collapse_spaces false text))).
  pose proof (length_filter (fun c => c <> NUL)
                (collapse_spaces false text)).
  pose proof (collapse_spaces_length text false). lia.
Qed.

End CleanText.

(** X20: the text [_clean_text] answers is the stripped text in which
    every run of whitespace has become one space and from which the NUL
    characters are gone; it holds no NUL, no line break and no
    whitespace character other than the space, it neither starts nor ends
    with whitespace, and it is no longer than the input.  The two
    [replace] calls on line breaks and the substitution of three or more
    newlines find nothing to change, since the first substitution has
    already turned every line break into a space. *)
Theorem clean_text_normal_form :
  forall text : str,
    let r := Document._clean_text text in
    r = PyStr.strip
          (filter (fun c => c <> Document.NUL)
             (Document.collapse_spaces false text))
    /\ (forall c : ascii,
          c ∈ r ->
          c <> Document.NUL /\ c <> Document.LF /\ c <> Document.CR
          /\ (PyStr.isspace c = true -> c = " "%char))
    /\ PyStr.strip r = r
    /\ (length r <= length text)%nat.
Proof.
  intros text r. unfold r.
  split; [apply clean_text_collapsed|]. split; [|split].
  - intros c Hc. rewrite clean_text_collapsed in Hc.
    apply strip_elem, list_elem_of_filter in Hc as [Hnul Hc].
    pose proof (collapse_spaces_chars _ _ _ Hc) as Hsp.
    split; [done|]. split; [|split; [|done]].
    + intros ->. by specialize (Hsp eq_refl).
    + intros ->. by specialize (Hsp eq_refl).
  - rewrite clean_text_collapsed. apply strip_idem.
  - apply clean_text_length.
Qed.

Section ChunkText.
Import PyStr VectorStore Document.
Context {F : Type} `{PyFloat F}.
Variable sha256_hexdigest : str -> option str.

Lemma chunk_loop_raises (source : str) (metadata : option (gmap str MetaVal))
    (total : Z) (text_chunks : list str) :
  forall i : Z,
    Exists (fun t => sha256_hexdigest t = None)
      (filter nonblank text_chunks) ->
    chunk_loop (F := F) sha256_hexdigest source metadata total i text_chunks
    = None.
Proof.
  induction text_chunks as [|t text_chunks IH]; intros i Hex.
  { rewrite filter_nil in Hex. by apply Exists_nil in Hex. }
  cbn [chunk_loop]. destruct (strip t) as [|a s] eqn:Hstrip.
  - rewrite filter_cons_False in Hex
      by (unfold nonblank; by rewrite Hstrip; intros ?).
    by apply IH.
  - rewrite filter_cons_True in Hex by (unfold nonblank; by rewrite Hstrip).
    unfold _generate_chunk_id.
    destruct (sha256_hexdigest t) as [digest|] eqn:Hsha; [|done].
    apply Exists_cons in Hex as [Hex|Hex]; [congruence|].
    by rewrite IH.
Qed.

Lemma chunk_loop_spec (source : str) (metadata : option (gmap str MetaVal))
    (total : Z) (text_chunks : list str) :
  forall i : Z,
    Forall (fun t => is_Some (sha256_hexdigest t))
      (filter nonblank text_chunks) ->
    exists out : list (DocumentChunk F),
      chunk_loop sha256_hexdigest source metadata total i text_chunks
        = Some out
      /\ map content out = filter nonblank text_chunks
      /\ StronglySorted Z.lt (map chunk_index out)
      /\ Forall (fun c : DocumentChunk F =>
                   i <= chunk_index c < i + len text_chunks
                   /\ text_chunks !! Z.to_nat (chunk_index c - i)
                      = Some (content c)
                   /\ VectorStore.source c = source
                   /\ is_Some (id c)
                   /\ id c
                      = _generate_chunk_id sha256_hexdigest source
                          (chunk_index c) (content c)
                   /\ embedding c = None
                   /\ nonblank (content c)) out.
Proof.
  induction text_chunks as [|t text_chunks IH]; intros i Hsha.
  { exists []. simpl. rewrite filter_nil. split; [done|].
    split; [done|]. split; constructor. }
  cbn [chunk_loop].
  assert (Hshift : forall out : list (DocumentChunk F),
    Forall (fun c : DocumentChunk F =>
              i + 1 <= chunk_index c < i + 1 + len text_chunks
              /\ text_chunks !! Z.to_nat (chunk_index c - (i + 1))
                 = Some (content c)
              /\ VectorStore.source c = source
              /\ is_Some (id c)
              /\ id c
                 = _generate_chunk_id sha256_hexdigest source
                     (chunk_index c) (content c)
              /\ embedding c = None
              /\ nonblank (content c)) out ->
    Forall (fun c : DocumentChunk F =>
              i <= chunk_index c < i + len (t :: text_chunks)
              /\ (t :: text_chunks) !! Z.to_nat (chunk_index c - i)
                 = Some (content c)
              /\ VectorStore.source c = source
              /\ is_Some (id c)
              /\ id c
                 = _generate_chunk_id sha256_hexdigest source
                     (chunk_index c) (content c)
              /\ embedding c = None
              /\ nonblank (content c)) out).
  { intros out Hall. eapply Forall_impl; [exact Hall|].
    intros c (Hrange & Hlook & Hrest). unfold len in *. simpl length.
    split; [lia|]. split; [|done].
    replace (Z.to_nat (chunk_index c - i))
      with (S (Z.to_nat (chunk_index c - (i + 1)))) by lia.
    done. }
  destruct (strip t) as [|a s] eqn:Hstrip.
  - rewrite filter_cons_False in Hsha |- *
      by (unfold nonblank; by rewrite Hstrip; intros ?).
    destruct (IH (i + 1) Hsha) as (out & Hout & Hmap & Hsorted & Hall).
    exists out. split; [done|]. split; [done|]. split; [done|].
    by apply Hshift.
  - assert (Hnb : nonblank t) by (unfold nonblank; by rewrite Hstrip).
    rewrite filter_cons_True in Hsha |- * by done.
    apply Forall_cons in Hsha as [[digest Hdigest] Hsha].
    destruct (IH (i + 1) Hsha) as (out & Hout & Hmap & Hsorted & Hall).
    unfold _generate_chunk_id at 1. rewrite Hdigest, Hout.
    eexists. split; [reflexivity|].
    split; [simpl; by rewrite Hmap|]. split.
    + simpl. constructor; [done|].
      apply Forall_map. eapply Forall_impl; [exact Hall|].
      intros c (Hrange & _). simpl. lia.
    + constructor; [|by apply Hshift]. simpl. unfold len. simpl length.
      rewrite Z.sub_diag. simpl. unfold _generate_chunk_id.
      rewrite Hdigest. repeat split; (done || lia || by eexists).
Qed.

End ChunkText.

(** X21: on a splitter with [chunk_size >= 1] and
    [0 <= chunk_overlap <= chunk_size / 2], the splitter answers for the
    cleaned text once the fuel exceeds the length of the text, and
    [chunk_text] then returns when the content of every non-blank chunk
    can be encoded, and raises UnicodeEncodeError when that of one of
    them cannot.  The chunks it returns are, in order, the non-blank
    chunks the splitter gives; each carries the given source, no vector,
    the index of its text chunk in the splitter's answer (so the indexes
    strictly increase, with gaps where blank chunks were dropped) and
    the id [source_index_hash]. *)
Theorem chunk_text_chunks :
  forall (F : Type) (HF : PyFloat F) (sha256_hexdigest : str -> option str)
         (self : Document.DocumentService) (fuel : nat) (text source : str)
         (metadata : option (gmap str VectorStore.MetaVal)),
    1 <= chunk_size (Document.splitter self) ->
    chunk_overlap (Document.splitter self)
      <= chunk_size (Document.splitter self) / 2 ->
    (length text < fuel)%nat ->
    exists text_chunks : list str,
      Splitter.split_text (Document.splitter self) fuel
        (Document._clean_text text) = Some text_chunks
      /\ (Exists (fun t => sha256_hexdigest t = None)
            (filter nonblank text_chunks) ->
          Document.chunk_text (F := F) sha256_hexdigest self fuel text
            source metadata = Document.EncodeError)
      /\ (Forall (fun t => is_Some (sha256_hexdigest t))
            (filter nonblank text_chunks) ->
          exists chunks : list (VectorStore.DocumentChunk F),
            Document.chunk_text sha256_hexdigest self fuel text source
              metadata = Document.Chunks chunks
            /\ map VectorStore.content chunks
               = filter nonblank text_chunks
            /\ StronglySorted Z.lt (map VectorStore.chunk_index chunks)
            /\ Forall (fun c : VectorStore.DocumentChunk F =>
                         0 <= VectorStore.chunk_index c
                           < PyStr.len text_chunks
                         /\ text_chunks
                              !! Z.to_nat (VectorStore.chunk_index c)
                            = Some (VectorStore.content c)
                         /\ VectorStore.source c = source
                         /\ is_Some (VectorStore.id c)
                         /\ VectorStore.id c
                            = Document._generate_chunk_id sha256_hexdigest
                                source (VectorStore.chunk_index c)
                                (VectorStore.content c)
                         /\ VectorStore.embedding c = None
                         /\ nonblank (VectorStore.content c)) chunks).
Proof.
  intros F HF sha self fuel text source metadata Hsize Hov Hfuel.
  pose proof (clean_text_length text) as Hlen.
  destruct (recursive_split_terminates (Document.splitter self) Hsize Hov
              fuel (separators (Document.splitter self))
              (Document._clean_text text) ltac:(lia)) as [tcs Htcs].
  exists tcs. unfold Document.chunk_text, Splitter.split_text.
  cbv zeta. rewrite Htcs. split; [done|]. split.
  - intros Hex. by rewrite chunk_loop_raises.
  - intros Hsha.
    destruct (chunk_loop_spec sha source metadata (PyStr.len tcs) tcs 0 Hsha)
      as (out & Hout & Hmap & Hsorted & Hall).
    exists out. rewrite Hout. split; [done|]. split; [done|].
    split; [done|].
    eapply Forall_impl; [exact Hall|].
    intros c (Hrange & Hlook & Hrest). rewrite Z.sub_0_r in Hlook.
    split; [lia|]. by split.
Qed.

(** The theorem on the narrow splitter and a two-sentence text. *)
Lemma chunk_text_chunks_witness :
  exists chunks : list (VectorStore.DocumentChunk Q),
    Document.chunk_text demo_sha256 demo_documents 40
      (py "  hello   world.  This is  a test. ") (py "a.txt") None
    = Document.Chunks chunks
    /\ map VectorStore.chunk_index chunks = [0; 1; 2]
    /\ StronglySorted Z.lt (map VectorStore.chunk_index chunks).
Proof.
  destruct (chunk_text_chunks Q Q_float demo_sha256 demo_documents 40
              (py "  hello   world.  This is  a test. ") (py "a.txt") None)
    as (tcs & _ & _ & Hreturns).
  - vm_compute. discriminate.
  - vm_compute. discriminate.
  - vm_compute. lia.
  - destruct Hreturns as (chunks & Hc & _ & Hsorted & _).
    { apply Forall_forall. intros t _. by eexists. }
    exists chunks. split; [exact Hc|]. split; [|exact Hsorted].
    vm_compute in Hc. injection Hc as <-. reflexivity.
Defined.

(** A chunk whose content cannot be encoded makes [chunk_text] raise. *)
Example chunk_text_encode_error :
  Document.chunk_text (F := Q) failing_sha256 (Document.init 5 0) 40
    (py "hello world") (py "a.txt") None
  = Document.EncodeError.
Proof. vm_compute. reflexivity. Qed.

(** ** The messages the orchestrator sends *)

(** X22: [_prepare_messages] answers the system prompt first and the
    current prompt, as a user message, last; between them stand the last
    nine of the stored messages but the newest, in order: the newest
    stored message, which [chat] has just appended for the user's input,
    is never sent from the history.  So between 2 and 11 messages are
    sent. *)
Theorem prepare_messages_shape :
  forall (system_prompt : str)
         (context_messages : list Conversation.ChatMessage)
         (current_prompt : str),
    let out :=
      Orchestrator._prepare_messages system_prompt context_messages
        current_prompt in
    let n := length context_messages in
    let history := drop (n - 10) (take (n - 1) context_messages) in
    out = (py "system", system_prompt)
            :: map Conversation.llm_dict history
            ++ [(py "user", current_prompt)]
    /\ PyStr.len history = Z.min 9 (Z.max 0 (PyStr.len context_messages - 1))
    /\ (forall (prior : list Conversation.ChatMessage)
               (newest : Conversation.ChatMessage),
          context_messages = prior ++ [newest] ->
          history = drop (length prior - 9) prior)
    /\ 2 <= PyStr.len out <= 11.
Proof.
  intros system_prompt msgs current_prompt out n history.
  assert (Hslice : PyStr.slice msgs (- 10) (-1) = history).
  { unfold history, PyStr.slice, PyStr.bound, PyStr.len. fold n.
    change (- 10 <? 0) with true. change (-1 <? 0) with true. cbv iota.
    rewrite firstn_skipn_comm.
    replace (Z.to_nat (Z.max 0 (Z.min (- 10 + Z.of_nat n) (Z.of_nat n))))
      with (n - 10)%nat by lia.
    do 2 f_equal. lia. }
  assert (Hlen : PyStr.len history
                 = Z.min 9 (Z.max 0 (PyStr.len msgs - 1))).
  { unfold history, PyStr.len. rewrite length_drop, length_take. fold n. lia. }
  split; [|split; [done|split]].
  - unfold out, Orchestrator._prepare_messages. cbv zeta.
    change (Z.opp 10) with (-10).
    by rewrite Hslice.
  - intros prior newest Hmsgs. unfold history, n. rewrite Hmsgs.
    rewrite length_app. simpl length.
    replace (length prior + 1 - 1)%nat with (length prior) by lia.
    rewrite take_app_length. f_equal. lia.
  - unfold out, Orchestrator._prepare_messages. cbv zeta.
    change (Z.opp 10) with (-10).
    rewrite Hslice. unfold PyStr.len in *.
    simpl length. rewrite length_app, length_map. simpl length. lia.
Qed.

(** ** The pure parts of the document loader *)

Section LoaderFacts.
Import PyStr Loader.

Lemma flat_line_under (prefix extra line text : str) :
  flat_line (prefix ++ extra) line text -> flat_line prefix line text.
Proof.
  intros [path ->]. exists (extra ++ path). by rewrite <- !app_assoc.
Qed.

Lemma flat_line_keyed (prefix key line text : str) :
  flat_line (keyed prefix key) line text -> flat_line prefix line text.
Proof.
  unfold keyed. destruct prefix as [|c prefix]; [|apply flat_line_under].
  intros [path ->]. exists (key ++ path). by rewrite <- app_assoc.
Qed.

Lemma flatten_json_scalars :
  forall (obj : Json) (prefix : str),
    Forall2 (flat_line prefix) (flatten_json obj prefix) (scalars obj).
Proof.
  fix IH 1. intros [text|items|items] prefix; cbn [flatten_json scalars].
  - constructor; [|constructor]. by exists [].
  - generalize 0%nat.
    induction items as [|item rest IHrest]; intros i; [constructor|].
    apply Forall2_app; [|apply IHrest].
    eapply Forall2_impl; [apply IH|].
    intros line text. apply flat_line_under.
  - induction items as [|[key value] rest IHrest]; [constructor|].
    apply Forall2_app; [|apply IHrest].
    eapply Forall2_impl; [apply IH|].
    intros line text. apply flat_line_keyed.
Qed.

Lemma join_nonempty (sep : str) (pieces : list str) :
  pieces <> [] -> Forall (fun p => p <> []) pieces ->
  Document.join sep pieces <> [].
Proof.
  destruct pieces as [|p rest]; [done|]. intros _ Hall.
  apply Forall_cons in Hall as [Hp _].
  destruct p as [|c t]; [done|]. simpl. by destruct rest.
Qed.

Lemma zip_nonblank (headers : list str) :
  forall row : list str,
    filter (fun hv : str * str => strip (snd hv) <> []) (zip headers row)
      <> []
    <-> Exists nonblank (take (length headers) row).
Proof.
  induction headers as [|h headers IH]; intros row.
  { simpl. rewrite Exists_nil. by rewrite filter_nil. }
  destruct row as [|v row].
  { simpl. rewrite Exists_nil. by rewrite filter_nil. }
  simpl. rewrite Exists_cons.
  destruct (decide (nonblank v)) as [Hv|Hv].
  - rewrite filter_cons_True by done. split; [by left|done].
  - rewrite filter_cons_False by done. rewrite IH. tauto.
Qed.

Lemma csv_row_text_nonempty (headers row : list str) :
  csv_row_text headers row <> []
  <-> Exists nonblank (take (length headers) row).
Proof.
  rewrite <- zip_nonblank. unfold csv_row_text.
  destruct (filter _ (zip headers row)) as [|hv kept] eqn:Hkept.
  - simpl. tauto.
  - split; [done|]. intros _. apply join_nonempty; [done|].
    apply Forall_map, Forall_forall. intros [h v] _. simpl.
    destruct h; simpl; done.
Qed.

Lemma csv_rows_no_headers (reader : list (list str)) :
  csv_rows [] reader = [].
Proof.
  induction reader as [|row reader IH]; [done|].
  cbn [csv_rows].
  pose proof (csv_row_text_nonempty [] row) as Hrow.
  destruct (csv_row_text [] row) as [|c t]; [done|].
  assert (Hex : Exists nonblank (take (length (@nil str)) row))
    by by apply Hrow.
  simpl in Hex. by apply Exists_nil in Hex.
Qed.

End LoaderFacts.

(** X23: [flatten_json] answers one line for every scalar of the
    document, in the order of the file, and nothing for an empty list or
    an empty object; the line of a scalar is the prefix, a path, a colon
    and a space, and the text of the scalar. *)
Theorem flatten_json_lines :
  forall (obj : Loader.Json) (prefix : str),
    Forall2 (flat_line prefix) (Loader.flatten_json obj prefix) (scalars obj)
    /\ length (Loader.flatten_json obj prefix) = length (scalars obj).
Proof.
  intros obj prefix. pose proof (flatten_json_scalars obj prefix) as Hall.
  split; [done|]. by eapply Forall2_length.
Qed.

(** The flattened small document; a document that is a bare scalar gives
    a line that starts with the colon. *)
Example flatten_json_demo :
  Loader.flatten_json demo_json []
    = [py "name: allma"; py "tags[0]: rag"; py "tags[1]: chat";
       py "nest.k: 1"]
  /\ Loader.flatten_json (Loader.JScalar (py "42")) [] = [py ": 42"].
Proof. split; vm_compute; reflexivity. Qed.

(** X24: a row of a CSV file gives a line exactly when one of its values
    under a header is not blank; the lines are those of the rows kept,
    in order.  Values past the last header are never looked at, and
    with no header no row gives a line. *)
Theorem load_csv_rows_kept :
  forall (headers : list str) (reader : list (list str)),
    let kept (row : list str) :=
      Exists nonblank (take (length headers) row) in
    (forall row, Loader.csv_row_text headers row <> [] <-> kept row)
    /\ Loader.csv_rows headers reader
       = map (Loader.csv_row_text headers) (filter kept reader)
    /\ (headers = [] -> Loader.csv_rows headers reader = []).
Proof.
  intros headers reader kept.
  assert (Hrows : Loader.csv_rows headers reader
                  = map (Loader.csv_row_text headers) (filter kept reader)).
  { induction reader as [|row reader IH]; [by rewrite filter_nil|].
    cbn [Loader.csv_rows].
    pose proof (csv_row_text_nonempty headers row) as Hrow.
    destruct (Loader.csv_row_text headers row) as [|c t] eqn:Htext.
    - rewrite filter_cons_False; [done|]. unfold kept. rewrite <- Hrow.
      by intros Hne.
    - rewrite filter_cons_True; [|by apply Hrow].
      simpl. by rewrite Htext, IH. }
  split; [apply csv_row_text_nonempty|]. split; [done|].
  intros ->. apply csv_rows_no_headers.
Qed.

(** The rows of the small file: two of four are kept. *)
Example load_csv_demo :
  Loader.csv_rows (hd [] demo_csv) (tl demo_csv)
    = [py "name: ada, role: engineer"; py "name: bob"].
Proof. vm_compute. reflexivity. Qed.

(** ** The size of the chunks under overlap *)

Section ChunkSizeOverlap.
Import PyStr Splitter.
Variable self : TextSplitter.
Hypothesis size_nonneg : 0 <= chunk_size self.
Hypothesis overlap_nonneg : 0 <= chunk_overlap self.

Lemma bounded_weaken (b b' : Z) (l : list str) :
  b <= b' -> Forall (fun c => len c <= b) l -> Forall (fun c => len c <= b') l.
Proof.
  intros Hle Hall. eapply Forall_impl; [exact Hall|].
  intros c Hc. simpl in *. lia.
Qed.

Lemma apply_overlap_bounded (b : Z) (chunks : list str) :
  Forall (fun c => len c <= b) chunks ->
  Forall (fun c => len c <= b + (chunk_overlap self + 1))
    (_apply_overlap self chunks).
Proof.
  intros Hall. unfold _apply_overlap.
  destruct chunks as [|first rest]; [done|].
  destruct (Z.eqb_spec (chunk_overlap self) 0) as [Hz|Hnz].
  { eapply bounded_weaken; [|done]. lia. }
  apply Forall_cons in Hall as [Hfirst Hrest].
  constructor; [lia|].
  pose proof (overlap_loop_grows self first rest ltac:(lia)) as Hgrow.
  clear Hfirst. revert Hgrow. generalize (overlap_loop self first rest).
  induction Hrest as [|c rest Hc Hrest IH]; intros out Hgrow.
  - apply Forall2_nil_inv_l in Hgrow as ->. constructor.
  - apply Forall2_cons_inv_l in Hgrow as (o & out' & [_ Ho] & Hgrow & ->).
    constructor; [lia|by apply IH].
Qed.

Lemma separator_loop_bounded_by (b : Z) (recurse : str -> option (list str))
    (separator : str) (splits : list str) :
  chunk_size self <= b ->
  (forall s sub, recurse s = Some sub -> Forall (fun c => len c <= b) sub) ->
  forall (chunks : list str) (cur : str) (chunks' : list str) (cur' : str),
    Forall (fun c => len c <= b) chunks ->
    len cur <= chunk_size self ->
    separator_loop self recurse separator splits chunks cur
      = Some (chunks', cur') ->
    Forall (fun c => len c <= b) chunks' /\ len cur' <= chunk_size self.
Proof.
  intros Hb Hrec. induction splits as [|split splits IH];
    intros chunks cur chunks' cur' Hall Hcur; simpl.
  - by intros [= <- <-].
  - destruct (strip split); [by apply IH|].
    match goal with
    | |- context [len ?p <=? chunk_size self] =>
        destruct (Z.leb_spec (len p) (chunk_size self)) as [Hfit|Hover]
    end; [by apply IH|].
    assert (Hall1 : Forall (fun c => len c <= b)
                      match cur with
                      | [] => chunks
                      | _ :: _ => chunks ++ [strip cur]
                      end).
    { destruct cur as [|c0 cur0]; [done|].
      apply Forall_app; split; [done|].
      constructor; [|done]. pose proof (strip_length (c0 :: cur0)).
      unfold len in *. lia. }
    destruct (Z.ltb_spec (chunk_size self) (len split)) as [Hbig|Hsmall].
    + destruct (recurse split) as [sub|] eqn:Hsub; [|done].
      apply IH; [|unfold len in *; simpl; lia].
      apply Forall_app; split; [done|]. by apply (Hrec split).
    + by apply IH.
Qed.

Lemma try_separators_bounded_by (b : Z) (recurse : str -> option (list str))
    (fallback : option (list str)) (text : str) (seps : list str)
    (out : list str) :
  chunk_size self <= b ->
  (forall s sub, recurse s = Some sub -> Forall (fun c => len c <= b) sub) ->
  (forall r, fallback = Some r ->
             Forall (fun c => len c <= chunk_size self) r) ->
  try_separators self recurse fallback text seps = Some out ->
  Forall (fun c => len c <= b + (chunk_overlap self + 1)) out.
Proof.
  intros Hb Hrec Hfall. induction seps as [|sep seps IH]; simpl.
  { intros Hout. eapply bounded_weaken; [|by apply Hfall]. lia. }
  destruct sep as [|a sep]; [exact IH|].
  destruct (contains _ _); [|exact IH].
  unfold _split_with_separator.
  destruct (separator_loop _ _ _ _ _ _) as [[chunks cur]|] eqn:Hloop; [|done].
  apply (separator_loop_bounded_by b) in Hloop as [Hall Hcur];
    [|done|done|done|unfold len; simpl; lia].
  assert (Hlast : Forall (fun c => len c <= b)
                    match strip cur with
                    | [] => chunks
                    | last :: more => chunks ++ [last :: more]
                    end).
  { pose proof (strip_length cur) as Hs. destruct (strip cur); [done|].
    apply Forall_app; split; [done|]. constructor; [|done].
    unfold len in *. lia. }
  apply apply_overlap_bounded in Hlast.
  destruct (_apply_overlap self _); [exact IH|].
  by intros [= <-].
Qed.

Lemma recursive_split_bounded_by (fuel : nat) (seps : list str) :
  forall (text : str) (out : list str),
    _recursive_split self fuel seps text = Some out ->
    Forall (fun c =>
              len c <= chunk_size self + len seps * (chunk_overlap self + 1))
      out.
Proof.
  assert (Hfall : forall text r,
            _split_by_size self fuel text = Some r ->
            Forall (fun c => len c <= chunk_size self) r).
  { intros text r. by apply split_by_size_loop_bounded. }
  assert (Hshort : forall (text : str) out,
            len text <= chunk_size self ->
            Some match strip text with [] => [] | c :: s => [c :: s] end
              = Some out ->
            Forall (fun c => len c <= chunk_size self) out).
  { intros text out Hfit [= <-]. pose proof (strip_length text) as Hs.
    destruct (strip text); [done|]. constructor; [|done].
    unfold len in *. lia. }
  induction seps as [|sep seps IH]; intros text out;
    (destruct text as [|c text]; cbn [_recursive_split];
     [by intros [= <-]|]);
    (destruct (Z.leb_spec (len (c :: text)) (chunk_size self));
     [intros Hout; eapply bounded_weaken; [|by eapply Hshort];
      unfold len; simpl length; nia|]).
  - cbn [try_separators]. intros Hout.
    eapply bounded_weaken; [|by eapply Hfall]. unfold len; simpl; lia.
  - intros Hout.
    eapply bounded_weaken;
      [|eapply (try_separators_bounded_by
                  (chunk_size self + len seps * (chunk_overlap self + 1)));
        [| |intros r; apply Hfall|exact Hout]].
    + unfold len. simpl length. nia.
    + unfold len. nia.
    + intros s sub. apply IH.
Qed.

End ChunkSizeOverlap.

(** X25: with [chunk_size >= 1] and
    [0 <= chunk_overlap <= chunk_size / 2], [split_text] answers (given
    fuel above the length of the text) chunks of at most
    [chunk_size + len(separators) * (chunk_overlap + 1)] characters: a
    chunk can be longer than [chunk_size], since [_apply_overlap] puts up
    to [chunk_overlap] characters and a space before a chunk at every
    level of the recursion over the separators. *)
Theorem split_text_chunks_bounded :
  forall (self : TextSplitter) (text : str) (fuel : nat),
    1 <= chunk_size self ->
    0 <= chunk_overlap self ->
    chunk_overlap self <= chunk_size self / 2 ->
    (length text < fuel)%nat ->
    exists out,
      Splitter.split_text self fuel text = Some out
      /\ Forall (fun c =>
                   PyStr.len c
                   <= chunk_size self
                      + PyStr.len (separators self) * (chunk_overlap self + 1))
           out.
Proof.
  intros self text fuel Hsize Hov Hov2 Hfuel.
  destruct (recursive_split_terminates self Hsize Hov2 fuel
              (separators self) text Hfuel) as [out Hout].
  exists out. split; [exact Hout|].
  apply (recursive_split_bounded_by self ltac:(lia) Hov fuel
           (separators self) text out Hout).
Qed.

(** The theorem on the narrow splitter, whose window is five characters
    wide and which has nine separators. *)
Lemma split_text_chunks_bounded_witness :
  exists out,
    Splitter.split_text narrow_splitter 40
      (py "alpha beta. gamma delta. epsilon") = Some out
    /\ Forall (fun c => PyStr.len c <= 32) out.
Proof.
  destruct (split_text_chunks_bounded narrow_splitter
              (py "alpha beta. gamma delta. epsilon") 40)
    as (out & Hout & Hall).
  - simpl; lia.
  - simpl; lia.
  - vm_compute. discriminate.
  - simpl; lia.
  - exists out. split; [exact Hout|exact Hall].
Defined.

(** On the narrow splitter a chunk of ten characters comes out of a
    window of five. *)
Example split_text_exceeds_chunk_size :
  Splitter.split_text narrow_splitter 40
    (py "alpha beta. gamma delta. epsilon")
  = Some [py "alpha"; py "ha ha beta"; py "ta gamma"; py "ma ma delta";
          py "ta epsil"; py "il ilon"; py "on n"].
Proof. vm_compute. reflexivity. Qed.
